(** * SmartInstructionSender: a shallow embedding of the batch submitter

    The development follows the sources of the package:
    - [tools/connectionTools.ts]  ([sendAndConfirmRawTransactionEx],
      [sendSignedTransaction]);
    - [tools/getSlotAndBlockHash.ts] ([getSlotAndCurrentBlockHash]);
    - [types.ts] ([InstructionSet]);
    - [SmartInstructionSender.ts] (the rebuilder
      [signAndRebuildTransactionsFromInstructionSets] and the loop [send]).

    The ledger (the web3 [Connection]), the wallet and the retry library
    are outside the package.  The answers of the ledger are given by a
    script, [Ledger], indexed by the program point that asks (item index
    and attempt number); every call the sender makes to the ledger and to
    the wallet, and every callback it fires, is recorded as an [Event] in
    chronological order.

    The package is read at two levels.

    The first part reads [send] sequentially.  It describes the orderly
    runs:
    - a submission may fail in every way [connectionTools] distinguishes,
      and may throw; the reads [getSlot] and [getSlotAndCurrentBlockHash]
      and the wallet's [signAllTransactions] return;
    - [new Transaction(...).add(...)] and [partialSign] build a value and
      do not throw;
    - [retry] calls the function with attempt numbers 1, 2, ...; an error
      thrown by the function is retried while retries are left, after the
      [onRetry] handler has run to its end; [bail] rejects at once; when
      no retry is left the promise is rejected with the error.

    The second part, [Async], reads the same sources at the level of the
    event loop and drops these conditions: reads and requests can fail,
    [add] throws on an empty list of instructions, and the [onRetry]
    handler, which the library does not wait for, advances on its own
    while [send] waits.  The last theorem shows that the two levels are
    the same on the orderly runs of a batch whose instruction sets all
    have instructions.  Still taken from outside at both levels: the
    wallet hands back the transactions it was given, and [partialSign]
    and the callbacks do not throw. *)

From Stdlib Require Import String.
From Stdlib Require Import List ZArith Bool Arith Lia.
From Stdlib Require Import Sorted.
Import ListNotations.
Local Open Scope string_scope.
Local Open Scope list_scope.
Local Open Scope nat_scope.

Set Implicit Arguments.

(** ** JavaScript helpers *)

(** [haystack.includes(needle)] on strings. *)
Fixpoint includes (needle haystack : string) : bool :=
  if String.prefix needle haystack then true
  else match haystack with
       | EmptyString => false
       | String _ rest => includes needle rest
       end.

(** A JavaScript array: a slot is either a value or a hole ([undefined]). *)
Definition JsArray (A : Type) := list (option A).

(** [a[j]]: [undefined] out of range and at a hole. *)
Definition js_get {A} (a : JsArray A) (j : nat) : option A :=
  match nth_error a j with
  | Some (Some v) => Some v
  | _ => None
  end.

(** [a[j] = v]: replaces in range, and extends the array (leaving holes)
    when [j] is past its end. *)
Fixpoint js_set {A} (a : JsArray A) (j : nat) (v : A) : JsArray A :=
  match j, a with
  | O, [] => [Some v]
  | O, _ :: t => Some v :: t
  | S j', [] => None :: js_set [] j' v
  | S j', x :: t => x :: js_set t j' v
  end.

(** [a.slice(from, a.length)]. *)
Definition js_slice_from {A} (a : JsArray A) (from : nat) : JsArray A :=
  skipn from a.

(** [l[k]] for a possibly negative index [k] on a dense array. *)
Definition js_index {A} (l : list A) (k : Z) : option A :=
  if (k <? 0)%Z then None else nth_error l (Z.to_nat k).

(** ** tools/connectionTools.ts *)

Definition TransactionSignature := string.
Definition TransactionError := string.

Inductive SendAndConfirmError : Type :=
| tx_error (inner : TransactionError) (txid : TransactionSignature)
| timeout (inner : string) (txid : option TransactionSignature)
| misc_error (inner : string) (txid : option TransactionSignature).

(** What a call to the connection does: it returns, or it throws an
    exception carrying a message. *)
Inductive Reply (A : Type) : Type :=
| Returns (a : A)
| Throws (message : string).
Arguments Returns {A} a.
Arguments Throws {A} message.

(** The answers of the connection during one submission:
    [sendRawTransaction] gives the transaction id, [confirmTransaction]
    gives [status.err], [getConfirmedTransaction] gives the slot of the
    record it found, if any. *)
Record Rpc : Type := {
  sendRawTransaction : Reply TransactionSignature;
  confirmTransaction : Reply (option TransactionError);
  getConfirmedTransaction : Reply (option Z)
}.

Inductive SendAndConfirmResult : Type :=
| ok (txid : TransactionSignature)
| err (e : SendAndConfirmError).

Definition classify (message : string) (txid : option TransactionSignature)
  : SendAndConfirmError :=
  if includes "Transaction was not confirmed in" message
  then timeout message txid
  else misc_error message txid.

Definition sendAndConfirmRawTransactionEx (c : Rpc) : SendAndConfirmResult :=
  match sendRawTransaction c with
  | Throws m => err (classify m None)
  | Returns txid =>
      match confirmTransaction c with
      | Throws m => err (classify m (Some txid))
      | Returns (Some e) => err (tx_error e txid)
      | Returns None => ok txid
      end
  end.

Inductive SendSignedTransactionResult : Type :=
| sent (txid : TransactionSignature) (slot : Z)
| failed (e : SendAndConfirmError).

(** The lookup of the confirmed transaction is outside any [try]: when it
    throws, so does [sendSignedTransaction]. *)
Definition sendSignedTransaction (c : Rpc) : Reply SendSignedTransactionResult :=
  let slot := 0%Z in
  match sendAndConfirmRawTransactionEx c with
  | err e => Returns (failed e)
  | ok txid =>
      match getConfirmedTransaction c with
      | Throws m => Throws m
      | Returns confirmation =>
          let slot := match confirmation with
                      | Some s => s
                      | None => slot
                      end in
          Returns (sent txid slot)
      end
  end.

(** ** types.ts and the transactions built from it *)

Definition PublicKey := string.
Definition Blockhash := string.
Definition Signer := nat.
Definition TransactionInstruction := nat.

Record InstructionSet : Type := {
  signers : list Signer;
  instructions : list TransactionInstruction
}.

(** A transaction as the sender builds it.  The wallet's own signature is
    not part of the record: [signAllTransactions] is taken to hand back the
    transactions it was given, in the same order. *)
Record Transaction : Type := {
  feePayer : PublicKey;
  recentBlockhash : Blockhash;
  tx_instructions : list TransactionInstruction;
  tx_signers : list Signer
}.

Definition partialSign (tx : Transaction) (ss : list Signer) : Transaction :=
  {| feePayer := feePayer tx;
     recentBlockhash := recentBlockhash tx;
     tx_instructions := tx_instructions tx;
     tx_signers := tx_signers tx ++ ss |}.

(** [new Transaction({feePayer, recentBlockhash}).add(...instructions)]
    followed by [if (signers.length) tx.partialSign(...signers)]. *)
Definition buildTransaction (pk : PublicKey) (bh : Blockhash)
  (s : InstructionSet) : Transaction :=
  let tx := {| feePayer := pk;
               recentBlockhash := bh;
               tx_instructions := instructions s;
               tx_signers := [] |} in
  if (length (signers s) =? 0)%nat then tx else partialSign tx (signers s).

(** ** SmartInstructionSender.ts *)

Record SmartInstructionSenderConfiguration : Type := {
  maxSigningAttempts : Z;
  abortOnFailure : bool
}.

(** What reaches the [catch] blocks and the failure callback: an error
    object of [connectionTools], or a plain exception. *)
Inductive Failure : Type :=
| send_error (e : SendAndConfirmError)
| js_error (message : string).

Definition MAX_RESIGN_ATTEMPTS_REACHED : Failure :=
  js_error "MAX_RESIGN_ATTEMPTS_REACHED".
Definition WALLET_NOT_CONNECTED : Failure :=
  js_error "WALLET_NOT_CONNECTED".
Definition NO_INSTRUCTION_SETS : Failure :=
  js_error "No instruction sets provided".

(** [error.type === 'timeout'] *)
Definition is_timeout (e : Failure) : bool :=
  match e with
  | send_error (timeout _ _) => true
  | _ => false
  end.

(** Calls to the outside and callbacks, as they happen.  [EvFailure] keeps
    the four arguments in the positions the call passes them. *)
Inductive Event : Type :=
| EvGetSlotAndBlockhash
| EvGetSlot
| EvSignAll (txs : JsArray Transaction)
| EvSubmit (i : nat) (tx : Transaction)
| EvProgress (i : nat) (txid : TransactionSignature)
| EvReSign (attempt : nat) (index : nat)
| EvFailure (error : Failure) (arg2 : nat) (arg3 : nat)
            (arg4 : option InstructionSet).

(** The script of the ledger.  Item [i], attempt [n] identifies one
    submission of a run; [polledSlot] answers the [getSlot] of the retry
    handler after that attempt, [refreshed] the
    [getSlotAndCurrentBlockHash] that follows it. *)
Record Ledger : Type := {
  baseline0 : Z * Blockhash;
  submission : nat -> nat -> Transaction -> Rpc;
  polledSlot : nat -> nat -> Z;
  refreshed : nat -> nat -> Z * Blockhash
}.

(** The variables [send] closes over and mutates. *)
Record Run : Type := {
  slot : Z;
  currentBlock : Blockhash;
  signedTXs : JsArray Transaction;
  successfulItems : nat
}.

(** [isExpired(confirmedSlot, baselineSlot)]: the test written
    [x >= slot + 150] at both places of [send]. *)
Definition isExpired (confirmedSlot baselineSlot : Z) : bool :=
  (confirmedSlot >=? baselineSlot + 150)%Z.

(** How the promise of [retry] settles. *)
Inductive Settled : Type :=
| Fulfilled
| Rejected (error : Failure).

(** How the promise of [send] settles; [OutOfFuel] is the model's own
    outcome for a loop that would not stop. *)
Inductive Outcome : Type :=
| Resolved
| Raised (error : Failure)
| OutOfFuel.

Section Sender.

Variable publicKey : PublicKey.
Variable instructionSets : list InstructionSet.
Variable configuration : SmartInstructionSenderConfiguration.
Variable ledger : Ledger.

(** One turn of the loop of the rebuilder. *)
Definition rebuild_at (bh : Blockhash) (txs : JsArray Transaction) (j : nat)
  : JsArray Transaction :=
  match nth_error instructionSets j with
  | Some instructionSet => js_set txs j (buildTransaction publicKey bh instructionSet)
  | None => txs
  end.

(** [for (let j = index; j < this.instructionSets.length; j++)] *)
Definition rebuild_loop (bh : Blockhash) (index : nat) (txs : JsArray Transaction)
  : JsArray Transaction :=
  fold_left (rebuild_at bh) (seq index (length instructionSets - index)) txs.

(** The rebuilder: the transaction it returns, the array after the call and
    the events of the call. *)
Definition signAndRebuildTransactionsFromInstructionSets
  (txs : JsArray Transaction) (index : nat) (bh : Blockhash) (attempt : nat)
  : option Transaction * JsArray Transaction * list Event :=
  let notified := [EvReSign attempt index] in
  let txs' := rebuild_loop bh index txs in
  let asked := [EvSignAll (js_slice_from txs' index)] in
  (js_get (js_slice_from txs' index) 0, txs', notified ++ asked).

(** The body of a successful attempt after [result] is known: progress,
    the counter, and the check of the window. *)
Definition confirmed (i attempt : nat) (txid : TransactionSignature)
  (resultSlot : Z) (st : Run) : Run * list Event :=
  let st1 := {| slot := slot st; currentBlock := currentBlock st;
                signedTXs := signedTXs st;
                successfulItems := S (successfulItems st) |} in
  if isExpired resultSlot (slot st) then
    let nextTXs := js_slice_from (signedTXs st) (i + 1) in
    if (0 <? length nextTXs)%nat then
      let '(newSlot, newCurrentBlock) := refreshed ledger i attempt in
      let '(_, txs', evs) :=
        signAndRebuildTransactionsFromInstructionSets
          (signedTXs st) (i + 1) newCurrentBlock 0 in
      ({| slot := newSlot; currentBlock := newCurrentBlock;
          signedTXs := txs';
          successfulItems := S (successfulItems st) |},
       [EvProgress i txid; EvGetSlotAndBlockhash] ++ evs)
    else (st1, [EvProgress i txid])
  else (st1, [EvProgress i txid]).

(** The [onRetry] handler, run to its end before the next attempt starts. *)
Definition onRetry (i : nat) (error : Failure) (attempt : nat)
  (tx : option Transaction) (st : Run)
  : option Transaction * Run * list Event :=
  if is_timeout error then
    let slotResult := polledSlot ledger i attempt in
    if isExpired slotResult (slot st) then
      let '(newSlot, newCurrentBlock) := refreshed ledger i attempt in
      let '(tx', txs', evs) :=
        signAndRebuildTransactionsFromInstructionSets
          (signedTXs st) i newCurrentBlock attempt in
      (tx',
       {| slot := newSlot; currentBlock := newCurrentBlock;
          signedTXs := txs';
          successfulItems := successfulItems st |},
       [EvGetSlot; EvGetSlotAndBlockhash] ++ evs)
    else (tx, st, [EvGetSlot])
  else (tx, st, []).

(** The submission of one attempt, with its [try]/[catch]: the value of
    [result], and the event when the transaction goes out.  A missing
    transaction makes [serialize] throw before anything is sent. *)
Definition submit (i retryNumber : nat) (tx : option Transaction)
  : (TransactionSignature * Z + Failure) * list Event :=
  match tx with
  | None => (inr (js_error "TypeError"), [])
  | Some t =>
      (match sendSignedTransaction (submission ledger i retryNumber t) with
       | Returns (sent txid s) => inl (txid, s)
       | Returns (failed e) => inr (send_error e)
       | Throws m => inr (js_error m)
       end, [EvSubmit i t])
  end.

(** [retry(fn, {retries, onRetry})] for item [i]: [retries] counts the
    retries the library still grants ([maxSigningAttempts] at the start),
    [num] is the attempt number the library passes on, [retryNumber] and
    [tx] are the variables of the closure.  A thrown error is retried while
    retries are left; [bail] rejects at once.  The result carries the final
    value of [retryNumber]. *)
Fixpoint retry (i : nat) (retries : nat) (num : nat) (retryNumber : nat)
  (tx : option Transaction) (st : Run) {struct retries}
  : Settled * nat * Run * list Event :=
  let retryNumber := S retryNumber in
  let '(result, sent_evs) := submit i retryNumber tx in
  match result with
  | inr e =>
      if is_timeout e && (Z.of_nat retryNumber >=? maxSigningAttempts configuration)%Z
      then (Rejected MAX_RESIGN_ATTEMPTS_REACHED, retryNumber, st, sent_evs)
      else if is_timeout e then
        match retries with
        | O => (Rejected e, retryNumber, st, sent_evs)
        | S retries' =>
            let '(tx', st', evs) := onRetry i e num tx st in
            let '(r, k, st'', evs') := retry i retries' (S num) retryNumber tx' st' in
            (r, k, st'', sent_evs ++ evs ++ evs')
        end
      else (Rejected e, retryNumber, st, sent_evs)
  | inl (txid, s) =>
      let '(st', evs) := confirmed i retryNumber txid s st in
      (Fulfilled, retryNumber, st', sent_evs ++ evs)
  end.

(** The [catch] block of the loop. *)
Definition onFailure (error : Failure) (i : nat) (st : Run) : Event :=
  EvFailure error i (successfulItems st)
    (js_index instructionSets (Z.of_nat (successfulItems st) - 1)).

(** [for (let i = 0; i < signedTXs.length; i++)], from index [i]. *)
Fixpoint send_loop (fuel : nat) (i : nat) (st : Run) {struct fuel}
  : Outcome * Run * list Event :=
  if (i <? length (signedTXs st))%nat then
    match fuel with
    | O => (OutOfFuel, st, [])
    | S fuel' =>
        let tx := js_get (signedTXs st) i in
        let '(r, _, st', evs) :=
          retry i (Z.to_nat (maxSigningAttempts configuration)) 1 0 tx st in
        match r with
        | Fulfilled =>
            let '(o, st'', evs') := send_loop fuel' (S i) st' in
            (o, st'', evs ++ evs')
        | Rejected error =>
            let failure := [onFailure error i st'] in
            if abortOnFailure configuration
            then (Resolved, st', evs ++ failure)
            else
              let '(o, st'', evs') := send_loop fuel' (S i) st' in
              (o, st'', evs ++ failure ++ evs')
        end
    end
  else (Resolved, st, []).

(** The transactions signed at the start: one per instruction set that has
    instructions. *)
Definition unsignedTXs (bh : Blockhash) : list Transaction :=
  map (buildTransaction publicKey bh)
      (filter (fun s => negb (length (instructions s) =? 0)%nat) instructionSets).

Definition initial_run : Run :=
  let '(slot0, currentBlock0) := baseline0 ledger in
  {| slot := slot0; currentBlock := currentBlock0;
     signedTXs := map Some (unsignedTXs currentBlock0);
     successfulItems := 0 |}.

(** [send] after its two guards. *)
Definition send_body : Outcome * Run * list Event :=
  let st := initial_run in
  let '(o, st', evs) := send_loop (length instructionSets) 0 st in
  (o, st', [EvGetSlotAndBlockhash; EvSignAll (signedTXs st)] ++ evs).

End Sender.

(** The sender as it is configured: a wallet whose [publicKey] may be
    [null], and instruction sets that may never have been given.  A [throw]
    of [send] is the outcome [Raised]; the events before it tell what had
    been done by then. *)
Record SmartInstructionSender : Type := {
  wallet_publicKey : option PublicKey;
  sender_instructionSets : option (list InstructionSet);
  sender_configuration : SmartInstructionSenderConfiguration
}.

Definition send (s : SmartInstructionSender) (ledger : Ledger)
  : Outcome * list Event :=
  match wallet_publicKey s with
  | None => (Raised WALLET_NOT_CONNECTED, [])
  | Some pk =>
      match sender_instructionSets s with
      | None | Some [] => (Raised NO_INSTRUCTION_SETS, [])
      | Some sets =>
          let '(o, _, evs) := send_body pk sets (sender_configuration s) ledger in
          (o, evs)
      end
  end.

(** ** What is observed of a run *)

(** The indices the progress callback was fired with, in order. *)
Definition progress_indices (evs : list Event) : list nat :=
  flat_map (fun e => match e with EvProgress i _ => [i] | _ => [] end) evs.

(** The calls of the failure callback, in order. *)
Definition failures (evs : list Event) : list Event :=
  filter (fun e => match e with EvFailure _ _ _ _ => true | _ => false end) evs.

(** The errors of the failure calls made by the iteration of index [k]
    (the loop passes its index as second argument). *)
Definition failures_at (k : nat) (evs : list Event) : list Failure :=
  flat_map (fun e => match e with
                     | EvFailure error i _ _ => if i =? k then [error] else []
                     | _ => []
                     end) evs.

(** The calls of the re-sign callback, in order. *)
Definition resigns (evs : list Event) : list Event :=
  filter (fun e => match e with EvReSign _ _ => true | _ => false end) evs.

(** The transactions submitted for index [k], in order. *)
Definition submitted_at (k : nat) (evs : list Event) : list Transaction :=
  flat_map (fun e => match e with
                     | EvSubmit i tx => if i =? k then [tx] else []
                     | _ => []
                     end) evs.

(** The item an event belongs to, when it belongs to one. *)
Definition item_of (e : Event) : option nat :=
  match e with
  | EvSubmit i _ | EvProgress i _ | EvFailure _ i _ _ => Some i
  | _ => None
  end.

(** An event that belongs to no item: a read of the ledger, a request to
    the wallet, a re-sign notice. *)
Definition quiet (e : Event) : bool :=
  match item_of e with None => true | Some _ => false end.

(** A quiet event, or a submission for item [i]. *)
Definition quiet_or_submit (i : nat) (e : Event) : bool :=
  match e with
  | EvSubmit j _ => j =? i
  | _ => quiet e
  end.

(** An event of item [i] or of a later item, or a quiet one. *)
Definition from_item (i : nat) (e : Event) : bool :=
  match item_of e with None => true | Some j => i <=? j end.

(** Item [j] reached its end: it was confirmed, or it was given up. *)
Definition terminal_for (j : nat) (e : Event) : bool :=
  match e with
  | EvProgress i _ | EvFailure _ i _ _ => i =? j
  | _ => false
  end.

(** Submission follows the order of the batch, from item [i] on: a
    submission for item [j] comes after item [j - 1] reached its end, and
    nothing of an earlier item comes after it. *)
Definition submissions_in_order (i : nat) (evs : list Event) : Prop :=
  forall pre j t post,
    evs = pre ++ EvSubmit j t :: post ->
    i <= j
    /\ (i < j -> existsb (terminal_for (j - 1)) pre = true)
    /\ Forall (fun e => from_item j e = true) post.

(** The slot [o] of the array holds a transaction built from [s]. *)
Definition built_from (pk : PublicKey) (s : InstructionSet)
  (o : option Transaction) : Prop :=
  exists bh, o = Some (buildTransaction pk bh s).

(** One envelope per instruction set, each built from the set at its own
    position. *)
Definition aligned (pk : PublicKey) (sets : list InstructionSet)
  (txs : JsArray Transaction) : Prop :=
  Forall2 (built_from pk) sets txs.

Definition has_instructions (s : InstructionSet) : Prop :=
  instructions s <> [].

(** The state after [successfulItems++] and nothing else. *)
Definition bump (st : Run) : Run :=
  {| slot := slot st; currentBlock := currentBlock st;
     signedTXs := signedTXs st; successfulItems := S (successfulItems st) |}.

(** Events put in front of the events of what follows. *)
Definition after_events {A} (evs : list Event) (x : A * list Event)
  : A * list Event :=
  (fst x, evs ++ snd x).

(** ** Sample batches and ledgers *)

Definition setA : InstructionSet := {| signers := [1]; instructions := [10; 11] |}.
Definition setB : InstructionSet := {| signers := []; instructions := [20] |}.
Definition setE : InstructionSet := {| signers := [7]; instructions := [] |}.

Definition rpc_confirmed (s : Z) : Rpc :=
  {| sendRawTransaction := Returns "sig";
     confirmTransaction := Returns None;
     getConfirmedTransaction := Returns (Some s) |}.

Definition rpc_no_record : Rpc :=
  {| sendRawTransaction := Returns "sig";
     confirmTransaction := Returns None;
     getConfirmedTransaction := Returns None |}.

Definition rpc_timeout : Rpc :=
  {| sendRawTransaction := Returns "sig";
     confirmTransaction := Throws "Transaction was not confirmed in 30.00 seconds";
     getConfirmedTransaction := Returns None |}.

Definition rpc_rejected : Rpc :=
  {| sendRawTransaction := Returns "sig";
     confirmTransaction := Returns (Some "InstructionError");
     getConfirmedTransaction := Returns None |}.

Definition config (m : Z) (abort : bool) : SmartInstructionSenderConfiguration :=
  {| maxSigningAttempts := m; abortOnFailure := abort |}.

Definition sender (m : Z) (abort : bool) (sets : list InstructionSet)
  : SmartInstructionSender :=
  {| wallet_publicKey := Some "payer";
     sender_instructionSets := Some sets;
     sender_configuration := config m abort |}.

(** Every submission is confirmed at slot 120, inside the window of the
    baseline 100. *)
Definition ledger_calm : Ledger :=
  {| baseline0 := (100%Z, "h0");
     submission := fun _ _ _ => rpc_confirmed 120;
     polledSlot := fun _ _ => 110%Z;
     refreshed := fun _ _ => (500%Z, "h1") |}.

(** Every submission times out and the slot does not move. *)
Definition ledger_stuck : Ledger :=
  {| baseline0 := (100%Z, "h0");
     submission := fun _ _ _ => rpc_timeout;
     polledSlot := fun _ _ => 110%Z;
     refreshed := fun _ _ => (500%Z, "h1") |}.

(** The first attempt of every item times out while the slot has run past
    the window; later attempts are confirmed at slot 120. *)
Definition ledger_late : Ledger :=
  {| baseline0 := (100%Z, "h0");
     submission := fun _ n _ => if n =? 1 then rpc_timeout else rpc_confirmed 120;
     polledSlot := fun _ _ => 300%Z;
     refreshed := fun _ _ => (500%Z, "h1") |}.

(** Item 0 is confirmed at slot 120; every other submission times out and
    the slot does not move. *)
Definition ledger_stuck_after_first : Ledger :=
  {| baseline0 := (100%Z, "h0");
     submission := fun i _ _ => if i =? 0 then rpc_confirmed 120 else rpc_timeout;
     polledSlot := fun _ _ => 110%Z;
     refreshed := fun _ _ => (500%Z, "h1") |}.

(** Every submission is rejected by the ledger. *)
Definition ledger_rejecting : Ledger :=
  {| baseline0 := (100%Z, "h0");
     submission := fun _ _ _ => rpc_rejected;
     polledSlot := fun _ _ => 110%Z;
     refreshed := fun _ _ => (500%Z, "h1") |}.

(** Every submission is confirmed, but no record of it is found. *)
Definition ledger_no_record : Ledger :=
  {| baseline0 := (100%Z, "h0");
     submission := fun _ _ _ => rpc_no_record;
     polledSlot := fun _ _ => 110%Z;
     refreshed := fun _ _ => (500%Z, "h1") |}.


(** The envelopes of the batch (setA, setB) under the blockhashes h0, h1. *)
Definition envA : Transaction := buildTransaction "payer" "h0" setA.
Definition envB : Transaction := buildTransaction "payer" "h0" setB.
Definition envA1 : Transaction := buildTransaction "payer" "h1" setA.
Definition envB1 : Transaction := buildTransaction "payer" "h1" setB.

Definition run0 (txs : JsArray Transaction) : Run :=
  {| slot := 100%Z; currentBlock := "h0"; signedTXs := txs; successfulItems := 0 |}.

(** ** More of what is observed, and the builder *)

(** The reads of slot and blockhash, the requests to the wallet and the
    polls of the slot, in order. *)
Definition fetches (evs : list Event) : list Event :=
  filter (fun e => match e with EvGetSlotAndBlockhash => true | _ => false end) evs.

Definition sign_requests (evs : list Event) : list Event :=
  filter (fun e => match e with EvSignAll _ => true | _ => false end) evs.

Definition polls (evs : list Event) : list Event :=
  filter (fun e => match e with EvGetSlot => true | _ => false end) evs.

(** The [txid] field of an error object of [connectionTools]. *)
Definition error_txid (e : SendAndConfirmError) : option TransactionSignature :=
  match e with
  | tx_error _ txid => Some txid
  | timeout _ txid => txid
  | misc_error _ txid => txid
  end.

(** The slot [o] holds a transaction built, under the wallet's key, from
    one of the instruction sets of the batch. *)
Definition from_batch (pk : PublicKey) (sets : list InstructionSet)
  (o : option Transaction) : Prop :=
  exists bh s, In s sets /\ o = Some (buildTransaction pk bh s).

(** The arguments a re-sign notice can carry in a run over [n] instruction
    sets: attempt 0 and a later index after a confirmation, an attempt from
    1 to below [maxSigningAttempts] from the retry handler. *)
Definition resign_in_range (cfg : SmartInstructionSenderConfiguration)
  (n : nat) (e : Event) : Prop :=
  match e with
  | EvReSign attempt index =>
      index < n
      /\ ((attempt = 0 /\ 1 <= index)
          \/ (1 <= attempt /\ (Z.of_nat attempt < maxSigningAttempts cfg)%Z))
  | _ => True
  end.

(** The constructor with its field initialisers, and the two setters that
    [send] reads from.  The callbacks set by [onProgress], [onReSign] and
    [onFailure] are the observers of the events. *)
Module Builder.


Definition config (c : SmartInstructionSenderConfiguration)
  (this : SmartInstructionSender) : SmartInstructionSender :=
  {| wallet_publicKey := wallet_publicKey this;
     sender_instructionSets := sender_instructionSets this;
     sender_configuration := c |}.


End Builder.

(** * The event loop: failures of the outside and the retry handler

    The definitions above describe the runs in which every read of the
    ledger and every request to the wallet is answered, the rebuilder meets
    no instruction set without instructions, and the retry handler has
    finished when the next attempt starts.  [Async] drops these three
    conditions.  It follows the same sources at the level of the event
    loop:
    - every call to the outside either returns or throws, the first
      [getSlotAndCurrentBlockHash] and the first [signAllTransactions]
      included, and [serialize] can throw;
    - [new Transaction(..).add(...instructions)] throws "No instructions"
      on an empty list, as [Transaction.add] of web3.js does;
    - the [retry] library calls [onRetry] without waiting for it: the
      handler is a task of its own, which advances when the answer it waits
      for arrives.  Answers arrive while [send] itself waits (for the timer
      of the library, for a submission, for the ledger or for the wallet);
      which answers arrive during which wait is part of the script;
    - an error thrown by the attempt function is retried while retries are
      left, whatever the error; when none is left the promise is rejected
      with [mainError()], the error whose message was seen most often (the
      latest one on a tie). *)
Module Async.

(** What [sendSignedTransaction] meets: [signedTransaction.serialize()],
    then the answers of the connection. *)
Record Wire : Type := {
  serialize : Reply unit;
  connection : Rpc
}.

(** [serialize] and the lookup of the confirmed transaction are outside
    any [try]. *)
Definition sendSignedTransaction (c : Wire) : Reply SendSignedTransactionResult :=
  match serialize c with
  | Throws m => Throws m
  | Returns _ =>
      let slot := 0%Z in
      match sendAndConfirmRawTransactionEx (connection c) with
      | err e => Returns (failed e)
      | ok txid =>
          match getConfirmedTransaction (connection c) with
          | Throws m => Throws m
          | Returns confirmation =>
              let slot := match confirmation with
                          | Some s => s
                          | None => slot
                          end in
              Returns (sent txid slot)
          end
      end
  end.

(** The places where [send] waits for the outside once the loop has
    started: for the timer of the library after attempt [num] of item [i],
    for the submission of attempt [n], for the slot and blockhash read
    after its confirmation, for the wallet in the rebuild that follows. *)
Inductive Wait : Type :=
| AtTimer (i num : nat)
| AtSubmit (i n : nat)
| AtRefresh (i n : nat)
| AtWallet (i n : nat).

(** The script of the outside.  [arrivals] gives, for each wait of
    [send], the retry handlers whose awaited answer arrives during it, in
    order of arrival, each by its position among the handlers then
    running. *)
Record World : Type := {
  firstRefresh : Reply (Z * Blockhash);
  firstSignature : Reply unit;
  submission : nat -> nat -> Transaction -> Wire;
  refreshed : nat -> nat -> Reply (Z * Blockhash);
  signature : nat -> nat -> Reply unit;
  polledSlot : nat -> nat -> Reply Z;
  handlerRefreshed : nat -> nat -> Reply (Z * Blockhash);
  handlerSignature : nat -> nat -> Reply unit;
  arrivals : Wait -> list nat
}.

(** A call of [onRetry] that has not returned: the item and attempt number
    it was called for, and the answer it waits for. *)
Inductive Stage : Type :=
| AwaitSlot
| AwaitRefresh
| AwaitSignature.

Record Handler : Type := {
  item : nat;
  attempt : nat;
  stage : Stage
}.

(** The variables of [send] together with the handlers still running. *)
Record Task : Type := {
  vars : Run;
  handlers : list Handler
}.

(** What one run of the function given to [retry] comes to: it returns,
    it calls [bail], or it throws. *)
Inductive Attempt : Type :=
| Completed
| Bailed (error : Failure)
| Threw (error : Failure).

(** [error.message], as a key of the table of [mainError]. *)
Definition message_of (e : Failure) : string :=
  match e with
  | js_error m => m
  | send_error _ => "undefined"
  end.

(** [RetryOperation.mainError] over the errors recorded so far, with the
    table of counts, the best error and its count. *)
Fixpoint mainError_from (counts : string -> nat) (mainError : option Failure)
  (mainErrorCount : nat) (errors : list Failure) : option Failure :=
  match errors with
  | [] => mainError
  | error :: rest =>
      let message := message_of error in
      let count := S (counts message) in
      let counts' := fun m => if String.eqb m message then count else counts m in
      if mainErrorCount <=? count
      then mainError_from counts' (Some error) count rest
      else mainError_from counts' mainError mainErrorCount rest
  end.

Definition mainError (errors : list Failure) : option Failure :=
  mainError_from (fun _ => 0) None 0 errors.

Section Sender.

Variable publicKey : PublicKey.
Variable instructionSets : list InstructionSet.
Variable configuration : SmartInstructionSenderConfiguration.
Variable world : World.

(** [new Transaction({feePayer, recentBlockhash}).add(...instructions)],
    then [partialSign] when there are signers. *)
Definition newTransaction (bh : Blockhash) (instructionSet : InstructionSet)
  : Reply Transaction :=
  match instructions instructionSet with
  | [] => Throws "No instructions"
  | _ :: _ => Returns (buildTransaction publicKey bh instructionSet)
  end.

(** The loop of the rebuilder over the indices [js]: it stops at the first
    instruction set for which [add] throws, with the array as it is then. *)
Fixpoint rebuild_loop (bh : Blockhash) (js : list nat) (txs : JsArray Transaction)
  : Reply unit * JsArray Transaction :=
  match js with
  | [] => (Returns tt, txs)
  | j :: js' =>
      match nth_error instructionSets j with
      | None => (Throws "TypeError", txs)
      | Some instructionSet =>
          match newTransaction bh instructionSet with
          | Throws m => (Throws m, txs)
          | Returns t => rebuild_loop bh js' (js_set txs j t)
          end
      end
  end.

(** The rebuilder up to its [await]: the notice, the loop, and the request
    to the wallet when the loop did not throw. *)
Definition rebuild_request (txs : JsArray Transaction) (index : nat)
  (bh : Blockhash) (attempt : nat)
  : Reply unit * JsArray Transaction * list Event :=
  let notified := [EvReSign attempt index] in
  let '(r, txs') :=
    rebuild_loop bh (seq index (length instructionSets - index)) txs in
  match r with
  | Throws m => (Throws m, txs', notified)
  | Returns _ =>
      (Returns tt, txs', notified ++ [EvSignAll (js_slice_from txs' index)])
  end.

(** What the rebuilder returns once the wallet has answered, read from the
    array as it is then. *)
Definition rebuild_result (txs : JsArray Transaction) (index : nat)
  : option Transaction :=
  js_get (js_slice_from txs index) 0.

(** One call of the rebuilder with nothing else happening while it waits
    for the wallet, whose answer is [signed]. *)
Definition signAndRebuildTransactionsFromInstructionSets
  (txs : JsArray Transaction) (index : nat) (bh : Blockhash) (attempt : nat)
  (signed : Reply unit)
  : Reply (option Transaction) * JsArray Transaction * list Event :=
  let '(r, txs', evs) := rebuild_request txs index bh attempt in
  match r with
  | Throws m => (Throws m, txs', evs)
  | Returns _ =>
      match signed with
      | Throws m => (Throws m, txs', evs)
      | Returns _ => (Returns (rebuild_result txs' index), txs', evs)
      end
  end.

(** [onRetry(error, attempt)] as the library calls it: the handler runs up
    to its first [await] and is left running. *)
Definition onRetry (i : nat) (error : Failure) (attempt : nat) (st : Task)
  : Task * list Event :=
  if is_timeout error then
    ({| vars := vars st;
        handlers := handlers st
                    ++ [{| item := i; attempt := attempt; stage := AwaitSlot |}] |},
     [EvGetSlot])
  else (st, []).

(** A handler goes on when the answer it waits for has arrived, up to its
    next [await] or to its end.  [current] and [tx] are the index and the
    variable [tx] of the iteration [send] is in: the handler of an earlier
    iteration assigns to a variable nobody reads any more.  A handler
    that meets an exception ends there. *)
Definition resume (current : nat) (h : Handler) (tx : option Transaction)
  (v : Run) : option Handler * option Transaction * Run * list Event :=
  match stage h with
  | AwaitSlot =>
      match polledSlot world (item h) (attempt h) with
      | Throws _ => (None, tx, v, [])
      | Returns slotResult =>
          if isExpired slotResult (slot v) then
            (Some {| item := item h; attempt := attempt h; stage := AwaitRefresh |},
             tx, v, [EvGetSlotAndBlockhash])
          else (None, tx, v, [])
      end
  | AwaitRefresh =>
      match handlerRefreshed world (item h) (attempt h) with
      | Throws _ => (None, tx, v, [])
      | Returns (newSlot, newCurrentBlock) =>
          let '(r, txs', evs) :=
            rebuild_request (signedTXs v) (item h) newCurrentBlock (attempt h) in
          let v' := {| slot := newSlot; currentBlock := newCurrentBlock;
                       signedTXs := txs';
                       successfulItems := successfulItems v |} in
          match r with
          | Throws _ => (None, tx, v', evs)
          | Returns _ =>
              (Some {| item := item h; attempt := attempt h;
                       stage := AwaitSignature |},
               tx, v', evs)
          end
      end
  | AwaitSignature =>
      match handlerSignature world (item h) (attempt h) with
      | Throws _ => (None, tx, v, [])
      | Returns _ =>
          (None,
           if item h =? current then rebuild_result (signedTXs v) (item h) else tx,
           v, [])
      end
  end.

(** The answers that arrive during one wait of [send], in order. *)
Fixpoint deliver (current : nat) (ks : list nat) (tx : option Transaction)
  (st : Task) : option Transaction * Task * list Event :=
  match ks with
  | [] => (tx, st, [])
  | k :: ks' =>
      match nth_error (handlers st) k with
      | None => deliver current ks' tx st
      | Some h =>
          let '(h', tx', v', evs) := resume current h tx (vars st) in
          let st' := {| vars := v';
                        handlers := firstn k (handlers st)
                                    ++ match h' with
                                       | Some x => [x]
                                       | None => []
                                       end
                                    ++ skipn (S k) (handlers st) |} in
          let '(tx'', st'', evs') := deliver current ks' tx' st' in
          (tx'', st'', evs ++ evs')
      end
  end.

(** The attempt function after [result] is known to be a success:
    progress, the counter, and the check of the window.  What the fetch
    or the rebuilder throws, the attempt function throws. *)
Definition confirmed (i retryNumber : nat) (txid : TransactionSignature)
  (resultSlot : Z) (tx : option Transaction) (st : Task)
  : Attempt * option Transaction * Task * list Event :=
  let v := vars st in
  let v1 := {| slot := slot v; currentBlock := currentBlock v;
               signedTXs := signedTXs v;
               successfulItems := S (successfulItems v) |} in
  let st1 := {| vars := v1; handlers := handlers st |} in
  if isExpired resultSlot (slot v) then
    let nextTXs := js_slice_from (signedTXs v) (i + 1) in
    if (0 <? length nextTXs)%nat then
      let '(tx2, st2, evs2) :=
        deliver i (arrivals world (AtRefresh i retryNumber)) tx st1 in
      match refreshed world i retryNumber with
      | Throws m =>
          (Threw (js_error m), tx2, st2,
           [EvProgress i txid; EvGetSlotAndBlockhash] ++ evs2)
      | Returns (newSlot, newCurrentBlock) =>
          let '(r, txs', evs3) :=
            rebuild_request (signedTXs (vars st2)) (i + 1) newCurrentBlock 0 in
          let st3 := {| vars := {| slot := newSlot;
                                   currentBlock := newCurrentBlock;
                                   signedTXs := txs';
                                   successfulItems := successfulItems (vars st2) |};
                        handlers := handlers st2 |} in
          match r with
          | Throws m =>
              (Threw (js_error m), tx2, st3,
               [EvProgress i txid; EvGetSlotAndBlockhash] ++ evs2 ++ evs3)
          | Returns _ =>
              let '(tx4, st4, evs4) :=
                deliver i (arrivals world (AtWallet i retryNumber)) tx2 st3 in
              (match signature world i retryNumber with
               | Throws m => Threw (js_error m)
               | Returns _ => Completed
               end,
               tx4, st4,
               [EvProgress i txid; EvGetSlotAndBlockhash] ++ evs2 ++ evs3 ++ evs4)
          end
      end
    else (Completed, tx, st1, [EvProgress i txid])
  else (Completed, tx, st1, [EvProgress i txid]).

(** The function given to [retry], after [retryNumber++]. *)
Definition attemptItem (i retryNumber : nat) (tx : option Transaction)
  (st : Task) : Attempt * option Transaction * Task * list Event :=
  match tx with
  | None => (Bailed (js_error "TypeError"), tx, st, [])
  | Some t =>
      let c := submission world i retryNumber t in
      match serialize c with
      | Throws m => (Bailed (js_error m), tx, st, [EvSubmit i t])
      | Returns _ =>
          let '(tx1, st1, evs1) :=
            deliver i (arrivals world (AtSubmit i retryNumber)) tx st in
          match sendSignedTransaction c with
          | Throws m => (Bailed (js_error m), tx1, st1, EvSubmit i t :: evs1)
          | Returns (failed e) =>
              if is_timeout (send_error e)
                 && (Z.of_nat retryNumber >=? maxSigningAttempts configuration)%Z
              then (Bailed MAX_RESIGN_ATTEMPTS_REACHED, tx1, st1,
                    EvSubmit i t :: evs1)
              else if is_timeout (send_error e)
              then (Threw (send_error e), tx1, st1, EvSubmit i t :: evs1)
              else (Bailed (send_error e), tx1, st1, EvSubmit i t :: evs1)
          | Returns (sent txid resultSlot) =>
              let '(r, tx2, st2, evs2) :=
                confirmed i retryNumber txid resultSlot tx1 st1 in
              (r, tx2, st2, EvSubmit i t :: evs1 ++ evs2)
          end
      end
  end.

(** [retry(fn, {retries, onRetry})] for item [i].  [retries] counts the
    retries the library still grants, [num] is the attempt number it passes
    on, [errors] the errors it has recorded; [retryNumber] and [tx] are the
    variables of the closure. *)
Fixpoint retry (i : nat) (retries : nat) (num : nat) (retryNumber : nat)
  (errors : list Failure) (tx : option Transaction) (st : Task) {struct retries}
  : Settled * nat * Task * list Event :=
  let retryNumber := S retryNumber in
  let '(r, tx1, st1, evs1) := attemptItem i retryNumber tx st in
  match r with
  | Completed => (Fulfilled, retryNumber, st1, evs1)
  | Bailed e => (Rejected e, retryNumber, st1, evs1)
  | Threw e =>
      let errors := errors ++ [e] in
      match retries with
      | O =>
          (Rejected (match mainError errors with Some x => x | None => e end),
           retryNumber, st1, evs1)
      | S retries' =>
          let '(st2, evs2) := onRetry i e num st1 in
          let '(tx3, st3, evs3) :=
            deliver i (arrivals world (AtTimer i num)) tx1 st2 in
          let '(s, k, st4, evs4) :=
            retry i retries' (S num) retryNumber errors tx3 st3 in
          (s, k, st4, evs1 ++ evs2 ++ evs3 ++ evs4)
      end
  end.

(** The [catch] block of the loop. *)
Definition onFailure (error : Failure) (i : nat) (st : Task) : Event :=
  EvFailure error i (successfulItems (vars st))
    (js_index instructionSets (Z.of_nat (successfulItems (vars st)) - 1)).

(** [for (let i = 0; i < signedTXs.length; i++)], from index [i]. *)
Fixpoint send_loop (fuel : nat) (i : nat) (st : Task) {struct fuel}
  : Outcome * Task * list Event :=
  if (i <? length (signedTXs (vars st)))%nat then
    match fuel with
    | O => (OutOfFuel, st, [])
    | S fuel' =>
        let tx := js_get (signedTXs (vars st)) i in
        let '(r, _, st', evs) :=
          retry i (Z.to_nat (maxSigningAttempts configuration)) 1 0 [] tx st in
        match r with
        | Fulfilled =>
            let '(o, st'', evs') := send_loop fuel' (S i) st' in
            (o, st'', evs ++ evs')
        | Rejected error =>
            let failure := [onFailure error i st'] in
            if abortOnFailure configuration
            then (Resolved, st', evs ++ failure)
            else
              let '(o, st'', evs') := send_loop fuel' (S i) st' in
              (o, st'', evs ++ failure ++ evs')
        end
    end
  else (Resolved, st, []).

(** The array handed to the wallet at the start. *)
Definition unsignedTXs (bh : Blockhash) : JsArray Transaction :=
  map (fun s => Some (buildTransaction publicKey bh s))
      (filter (fun s => negb (length (instructions s) =? 0)%nat) instructionSets).

Definition initial_task (slot0 : Z) (currentBlock0 : Blockhash) : Task :=
  {| vars := {| slot := slot0; currentBlock := currentBlock0;
                signedTXs := unsignedTXs currentBlock0;
                successfulItems := 0 |};
     handlers := [] |}.

(** [send] after its two guards.  The first read and the first request to
    the wallet are outside any [try]. *)
Definition send_body : Outcome * list Event :=
  match firstRefresh world with
  | Throws m => (Raised (js_error m), [EvGetSlotAndBlockhash])
  | Returns (slot0, currentBlock0) =>
      let asked := [EvGetSlotAndBlockhash; EvSignAll (unsignedTXs currentBlock0)] in
      match firstSignature world with
      | Throws m => (Raised (js_error m), asked)
      | Returns _ =>
          let '(o, _, evs) :=
            send_loop (length instructionSets) 0
                      (initial_task slot0 currentBlock0) in
          (o, asked ++ evs)
      end
  end.

End Sender.

Definition send (s : SmartInstructionSender) (world : World)
  : Outcome * list Event :=
  match wallet_publicKey s with
  | None => (Raised WALLET_NOT_CONNECTED, [])
  | Some pk =>
      match sender_instructionSets s with
      | None | Some [] => (Raised NO_INSTRUCTION_SETS, [])
      | Some sets => send_body pk sets (sender_configuration s) world
      end
  end.

End Async.

(** ** What is observed of a run of the event loop *)

(** The events of a rebuild and of the read before it: what a retry
    handler does when it goes on, and what follows a confirmation past the
    window. *)
Definition rebuilding (e : Event) : bool :=
  match e with
  | EvGetSlotAndBlockhash | EvReSign _ _ | EvSignAll _ => true
  | _ => false
  end.

(** What the iteration of index [i] can show before it ends: submissions
    and progress calls for [i], reads, requests and notices. *)
Definition during_item (i : nat) (e : Event) : bool :=
  match e with
  | EvSubmit j _ | EvProgress j _ => j =? i
  | EvFailure _ _ _ _ => false
  | _ => true
  end.

(** The length of the array stays within the number of instruction sets. *)
Definition within (sets : list InstructionSet) (v : Run) : Prop :=
  length (signedTXs v) <= length sets.

(** ** Orderly worlds and sample worlds *)

Definition wire (c : Rpc) : Async.Wire :=
  {| Async.serialize := Returns tt; Async.connection := c |}.

(** The task of a state of the first part: no handler is running. *)
Definition idle (v : Run) : Async.Task :=
  {| Async.vars := v; Async.handlers := [] |}.

(** The world of a ledger of the first part: every read and every request
    is answered, and what a retry handler waits for arrives while [send]
    waits for the timer of the library, so that the handler has returned
    when the next attempt starts. *)
Definition orderly (ledger : Ledger) : Async.World :=
  {| Async.firstRefresh := Returns (baseline0 ledger);
     Async.firstSignature := Returns tt;
     Async.submission := fun i n t => wire (submission ledger i n t);
     Async.refreshed := fun i n => Returns (refreshed ledger i n);
     Async.signature := fun _ _ => Returns tt;
     Async.polledSlot := fun i n => Returns (polledSlot ledger i n);
     Async.handlerRefreshed := fun i n => Returns (refreshed ledger i n);
     Async.handlerSignature := fun _ _ => Returns tt;
     Async.arrivals := fun w => match w with
                                | Async.AtTimer _ _ => [0; 0; 0]
                                | _ => []
                                end |}.

Definition with_arrivals (f : Async.Wait -> list nat) (w : Async.World)
  : Async.World :=
  {| Async.firstRefresh := Async.firstRefresh w;
     Async.firstSignature := Async.firstSignature w;
     Async.submission := Async.submission w;
     Async.refreshed := Async.refreshed w;
     Async.signature := Async.signature w;
     Async.polledSlot := Async.polledSlot w;
     Async.handlerRefreshed := Async.handlerRefreshed w;
     Async.handlerSignature := Async.handlerSignature w;
     Async.arrivals := f |}.

(** The ledger of [ledger_late] with a wallet that takes its time: after
    the first attempt of item 0 has timed out, the slot and the blockhash
    arrive while [send] waits for the timer, the signature of the wallet
    only while the second attempt is on its way. *)
Definition world_slow_wallet : Async.World :=
  with_arrivals (fun w => match w with
                          | Async.AtTimer 0 1 => [0; 0]
                          | Async.AtSubmit 0 2 => [0]
                          | _ => []
                          end)
                (orderly ledger_late).


(** Every submission is confirmed at slot 9000, past every window. *)
Definition ledger_racing : Ledger :=
  {| baseline0 := (100%Z, "h0");
     submission := fun _ _ _ => rpc_confirmed 9000;
     polledSlot := fun _ _ => 110%Z;
     refreshed := fun _ _ => (500%Z, "h1") |}.





(** * Properties *)

(** ** Arrays *)

Lemma js_get_set_same {A} (a : JsArray A) j v :
  js_get (js_set a j v) j = Some v.
Proof.
  revert a; induction j as [|j IH]; intros [|x t]; simpl; try reflexivity.
  - apply (IH []).
  - apply IH.
Qed.

Lemma js_get_set_other {A} (a : JsArray A) j k v :
  k <> j -> js_get (js_set a j v) k = js_get a k.
Proof.
  unfold js_get.
  revert a k; induction j as [|j IH]; intros [|x t] [|k] Hk; simpl;
    try reflexivity; try congruence.
  - destruct k; reflexivity.
  - specialize (IH [] k). simpl in IH. rewrite IH by congruence.
    destruct k; reflexivity.
  - apply IH. congruence.
Qed.

Lemma js_set_length {A} (a : JsArray A) j v :
  length (js_set a j v) = Nat.max (length a) (S j).
Proof.
  revert a; induction j as [|j IH]; intros [|x t]; simpl; try reflexivity.
  - destruct (length t); reflexivity.
  - rewrite (IH []). simpl. reflexivity.
  - rewrite IH. reflexivity.
Qed.

Lemma js_set_in_range {A} (a : JsArray A) j v :
  j <= length a ->
  js_set a j v = firstn j a ++ Some v :: skipn (S j) a.
Proof.
  revert a; induction j as [|j IH]; intros [|x t] Hj; simpl in *;
    try reflexivity; try lia.
  rewrite IH by lia. reflexivity.
Qed.

Lemma skipn_nth_error_cons {A} (l : list A) n x :
  nth_error l n = Some x -> skipn n l = x :: skipn (S n) l.
Proof.
  revert l; induction n as [|n IH]; intros [|y t] H; simpl in *; try discriminate.
  - congruence.
  - apply IH, H.
Qed.

(** ** The rebuilder *)

Section Rebuilder.

Variable pk : PublicKey.
Variable sets : list InstructionSet.

Lemma rebuild_fold_below bh n : forall index txs j,
  j < index ->
  js_get (fold_left (rebuild_at pk sets bh) (seq index n) txs) j = js_get txs j.
Proof.
  induction n as [|n IH]; intros index txs j Hj; simpl; [reflexivity|].
  rewrite IH by lia. unfold rebuild_at.
  destruct (nth_error sets index); [|reflexivity].
  apply js_get_set_other. lia.
Qed.

Lemma rebuild_fold_at bh n : forall index txs j s,
  index <= j < index + n ->
  nth_error sets j = Some s ->
  js_get (fold_left (rebuild_at pk sets bh) (seq index n) txs) j
  = Some (buildTransaction pk bh s).
Proof.
  induction n as [|n IH]; intros index txs j s Hj Hs; simpl; [lia|].
  destruct (Nat.eq_dec j index) as [->|Hne].
  - rewrite rebuild_fold_below by lia. unfold rebuild_at.
    rewrite Hs. apply js_get_set_same.
  - apply IH; [lia|exact Hs].
Qed.

Lemma rebuild_fold_length bh n : forall index txs,
  index + n <= length sets ->
  length (fold_left (rebuild_at pk sets bh) (seq index n) txs)
  = match n with
    | O => length txs
    | S _ => Nat.max (length txs) (index + n)
    end.
Proof.
  induction n as [|n IH]; intros index txs Hn; simpl; [reflexivity|].
  rewrite IH by lia. unfold rebuild_at.
  destruct (nth_error sets index) eqn:Hs.
  - rewrite js_set_length. destruct n; lia.
  - apply nth_error_None in Hs. lia.
Qed.

Lemma rebuild_fold_dense bh n : forall index txs,
  index + n = length sets ->
  index <= length txs ->
  length txs <= length sets ->
  fold_left (rebuild_at pk sets bh) (seq index n) txs
  = firstn index txs
    ++ map (fun s => Some (buildTransaction pk bh s)) (skipn index sets).
Proof.
  induction n as [|n IH]; intros index txs Hn Hi Hl; simpl.
  - rewrite skipn_all2 by lia. rewrite firstn_all2 by lia.
    symmetry; apply app_nil_r.
  - unfold rebuild_at at 2.
    destruct (nth_error sets index) as [s|] eqn:Hs;
      [|apply nth_error_None in Hs; lia].
    assert (index < length sets) by (apply nth_error_Some; congruence).
    rewrite IH; [| lia | rewrite js_set_length; lia | rewrite js_set_length; lia].
    rewrite (skipn_nth_error_cons _ _ Hs). simpl map.
    rewrite js_set_in_range by exact Hi.
    rewrite firstn_app, length_firstn, Nat.min_l by exact Hi.
    rewrite firstn_all2 by (rewrite length_firstn; lia).
    replace (S index - index) with 1 by lia. simpl.
    rewrite <- app_assoc. reflexivity.
Qed.

Lemma rebuild_loop_length bh index txs :
  length (rebuild_loop pk sets bh index txs) <= Nat.max (length txs) (length sets).
Proof.
  unfold rebuild_loop.
  destruct (le_lt_dec index (length sets)) as [Hle|Hgt].
  - rewrite rebuild_fold_length by lia.
    destruct (length sets - index) eqn:E; lia.
  - replace (length sets - index) with 0 by lia. simpl. lia.
Qed.

Lemma rebuild_loop_dense bh index txs :
  index <= length txs -> length txs <= length sets ->
  rebuild_loop pk sets bh index txs
  = firstn index txs
    ++ map (fun s => Some (buildTransaction pk bh s)) (skipn index sets).
Proof.
  intros Hi Hl. unfold rebuild_loop.
  apply rebuild_fold_dense; lia.
Qed.

End Rebuilder.

(** ** One item: submission, retry, expiry *)

Section Item.

Variable pk : PublicKey.
Variable sets : list InstructionSet.
Variable cfg : SmartInstructionSenderConfiguration.
Variable ledger : Ledger.

Lemma isExpired_spec c b : isExpired c b = true <-> (c >= b + 150)%Z.
Proof. unfold isExpired. rewrite Z.geb_le. lia. Qed.

Lemma isExpired_zero b : (0 <= b)%Z -> isExpired 0 b = false.
Proof.
  intros Hb. destruct (isExpired 0 b) eqn:E; [|reflexivity].
  apply isExpired_spec in E. lia.
Qed.

(** C10. A submission that is sent and confirmed, but whose confirmed
    transaction is not found by the lookup, is still a success, with slot 0;
    with a baseline slot that is not negative the check after the
    confirmation then rebuilds nothing: the attempt fires progress, counts
    the item, and leaves the envelopes and the baseline alone. *)
Theorem missing_record_means_slot_zero c txid :
  sendRawTransaction c = Returns txid ->
  confirmTransaction c = Returns None ->
  getConfirmedTransaction c = Returns None ->
  sendSignedTransaction c = Returns (sent txid 0%Z)
  /\ forall i retries num retryNumber tx st,
       submission ledger i (S retryNumber) tx = c ->
       (0 <= slot st)%Z ->
       retry pk sets cfg ledger i retries num retryNumber (Some tx) st
       = (Fulfilled, S retryNumber, bump st, [EvSubmit i tx; EvProgress i txid]).
Proof.
  intros Hs Hc Hl.
  assert (Hr : sendSignedTransaction c = Returns (sent txid 0%Z)).
  { unfold sendSignedTransaction, sendAndConfirmRawTransactionEx.
    rewrite Hs, Hc, Hl. reflexivity. }
  split; [exact Hr|].
  intros i retries num rn tx st Hsub Hb.
  destruct retries; simpl; rewrite Hsub, Hr;
    unfold confirmed; rewrite (isExpired_zero Hb); reflexivity.
Qed.

Lemma retry_eq i retries num rn tx st :
  retry pk sets cfg ledger i retries num rn tx st
  = let retryNumber := S rn in
    let '(result, sent_evs) := submit ledger i retryNumber tx in
    match result with
    | inr e =>
        if is_timeout e && (Z.of_nat retryNumber >=? maxSigningAttempts cfg)%Z
        then (Rejected MAX_RESIGN_ATTEMPTS_REACHED, retryNumber, st, sent_evs)
        else if is_timeout e then
          match retries with
          | O => (Rejected e, retryNumber, st, sent_evs)
          | S retries' =>
              let '(tx', st', evs) := onRetry pk sets ledger i e num tx st in
              let '(r, k, st'', evs') :=
                retry pk sets cfg ledger i retries' (S num) retryNumber tx' st' in
              (r, k, st'', sent_evs ++ evs ++ evs')
          end
        else (Rejected e, retryNumber, st, sent_evs)
    | inl (txid, s) =>
        let '(st', evs) := confirmed pk sets ledger i retryNumber txid s st in
        (Fulfilled, retryNumber, st', sent_evs ++ evs)
    end.
Proof. destruct retries; reflexivity. Qed.

Lemma submit_events i n tx :
  Forall (fun e => quiet_or_submit i e = true) (snd (submit ledger i n tx)).
Proof.
  unfold submit. destruct tx as [t|]; simpl; [|constructor].
  constructor; [simpl; apply Nat.eqb_refl | constructor].
Qed.

Lemma confirmed_events i n txid s st :
  exists rest,
    snd (confirmed pk sets ledger i n txid s st) = EvProgress i txid :: rest
    /\ Forall (fun e => quiet e = true) rest.
Proof.
  unfold confirmed, signAndRebuildTransactionsFromInstructionSets.
  destruct (isExpired s (slot st)); [|eexists; split; [reflexivity|constructor]].
  destruct (0 <? length (js_slice_from (signedTXs st) (i + 1)));
    [|eexists; split; [reflexivity|constructor]].
  destruct (refreshed ledger i n) as [newSlot newBlock]. simpl.
  eexists; split; [reflexivity|]. repeat constructor.
Qed.

Lemma onRetry_events i e num tx st :
  Forall (fun e => quiet e = true) (snd (onRetry pk sets ledger i e num tx st)).
Proof.
  unfold onRetry, signAndRebuildTransactionsFromInstructionSets.
  destruct (is_timeout e); [|constructor].
  destruct (isExpired _ _); [|repeat constructor].
  destruct (refreshed ledger i num) as [newSlot newBlock]. simpl.
  repeat constructor.
Qed.

Lemma quiet_is_quiet_or_submit i evs :
  Forall (fun e => quiet e = true) evs ->
  Forall (fun e => quiet_or_submit i e = true) evs.
Proof.
  apply Forall_impl. intros [] H; simpl in *; try reflexivity; discriminate.
Qed.

(** The events of one item: submissions of that item and quiet events,
    closed, when the item is confirmed, by its progress notice and the
    quiet events of the rebuild that may follow. *)
Lemma retry_shape i retries : forall num rn tx st r k st' evs,
  retry pk sets cfg ledger i retries num rn tx st = (r, k, st', evs) ->
  exists body tail,
    evs = body ++ tail
    /\ Forall (fun e => quiet_or_submit i e = true) body
    /\ match r with
       | Fulfilled => exists txid rest,
           tail = EvProgress i txid :: rest /\ Forall (fun e => quiet e = true) rest
       | Rejected _ => tail = []
       end.
Proof.
  induction retries as [|retries IH]; intros num rn tx st r k st' evs;
    rewrite retry_eq; cbv zeta;
    pose proof (submit_events i (S rn) tx) as Hsub;
    destruct (submit ledger i (S rn) tx) as [[[txid s]|e] sent_evs]; simpl in Hsub.
  1,3: pose proof (confirmed_events i (S rn) txid s st) as (rest & Hc & Hq);
       destruct (confirmed pk sets ledger i (S rn) txid s st) as [st1 evs1];
       simpl in Hc; subst evs1; intros H; injection H as <- <- <- <-;
       exists sent_evs, (EvProgress i txid :: rest);
       split; [reflexivity|split; [exact Hsub|eauto]].
  - destruct (is_timeout e && _); [|destruct (is_timeout e)];
      intros H; injection H as <- <- <- <-;
      exists sent_evs, []; rewrite app_nil_r; auto.
  - destruct (is_timeout e && _);
      [intros H; injection H as <- <- <- <-; exists sent_evs, [];
       rewrite app_nil_r; auto|].
    destruct (is_timeout e);
      [|intros H; injection H as <- <- <- <-; exists sent_evs, [];
        rewrite app_nil_r; auto].
    pose proof (onRetry_events i e num tx st) as Hq.
    destruct (onRetry pk sets ledger i e num tx st) as [[tx1 st1] evs1].
    simpl in Hq.
    destruct (retry pk sets cfg ledger i retries (S num) (S rn) tx1 st1)
      as [[[r2 k2] st2] evs2] eqn:E.
    intros H; injection H as <- <- <- <-.
    destruct (IH _ _ _ _ _ _ _ _ E) as (body & tail & -> & Hb & Ht).
    exists (sent_evs ++ evs1 ++ body), tail.
    split; [now rewrite <- !app_assoc|].
    split; [|exact Ht].
    apply Forall_app; split; [exact Hsub|].
    apply Forall_app; split; [|exact Hb].
    apply quiet_is_quiet_or_submit, Hq.
Qed.

Lemma quiet_or_submit_observed i k evs :
  Forall (fun e => quiet_or_submit i e = true) evs ->
  progress_indices evs = [] /\ failures evs = [] /\ failures_at k evs = []
  /\ existsb (terminal_for k) evs = false
  /\ (k <> i -> submitted_at k evs = [])
  /\ Forall (fun e => from_item i e = true) evs.
Proof.
  induction 1 as [|e l He _ (IH1 & IH2 & IH3 & IH4 & IH5 & IH6)];
    [repeat split; auto|].
  destruct e as [ | | txs | j tx | j txid | a idx | error a2 a3 a4];
    simpl in He; try discriminate; simpl;
    rewrite ?IH1, ?IH2, ?IH3, ?IH4; repeat split; auto;
    try (constructor; [reflexivity|exact IH6]).
  - intros Hk. apply Nat.eqb_eq in He; subst.
    destruct (Nat.eqb_spec i k); [congruence|]. simpl. auto.
  - constructor; [|exact IH6]. apply Nat.eqb_eq in He; subst.
    simpl. apply Nat.leb_refl.
Qed.

Lemma quiet_observed k evs :
  Forall (fun e => quiet e = true) evs ->
  progress_indices evs = [] /\ failures evs = [] /\ failures_at k evs = []
  /\ existsb (terminal_for k) evs = false
  /\ submitted_at k evs = []
  /\ forall i, Forall (fun e => from_item i e = true) evs.
Proof.
  induction 1 as [|e l He _ (IH1 & IH2 & IH3 & IH4 & IH5 & IH6)];
    [repeat split; auto|].
  destruct e; simpl in He; try discriminate; simpl;
    rewrite ?IH1, ?IH2, ?IH3, ?IH4; repeat split; auto;
    intros i; constructor; auto.
Qed.

Lemma progress_indices_app a b :
  progress_indices (a ++ b) = progress_indices a ++ progress_indices b.
Proof. apply flat_map_app. Qed.

Lemma failures_app a b : failures (a ++ b) = failures a ++ failures b.
Proof. apply filter_app. Qed.

Lemma failures_at_app k a b :
  failures_at k (a ++ b) = failures_at k a ++ failures_at k b.
Proof. apply flat_map_app. Qed.

Lemma resigns_app a b : resigns (a ++ b) = resigns a ++ resigns b.
Proof. apply filter_app. Qed.

Lemma submitted_at_app k a b :
  submitted_at k (a ++ b) = submitted_at k a ++ submitted_at k b.
Proof. apply flat_map_app. Qed.

(** What is observed of the events of one item. *)
Lemma retry_observed i retries num rn tx st r k st' evs :
  retry pk sets cfg ledger i retries num rn tx st = (r, k, st', evs) ->
  progress_indices evs = match r with Fulfilled => [i] | Rejected _ => [] end
  /\ failures evs = []
  /\ (forall j, failures_at j evs = [])
  /\ (forall j, j <> i -> submitted_at j evs = [])
  /\ (forall j, j <> i -> existsb (terminal_for j) evs = false)
  /\ existsb (terminal_for i) evs
     = match r with Fulfilled => true | Rejected _ => false end
  /\ Forall (fun e => from_item i e = true) evs.
Proof.
  intros H. pose proof H as Hshape. apply retry_shape in Hshape.
  destruct Hshape as (body & tail & -> & Hb & Ht).
  assert (Hbody := fun j => @quiet_or_submit_observed i j body Hb).
  destruct (Hbody i) as (B1 & B2 & _ & B4 & _ & B6).
  rewrite progress_indices_app, failures_app, existsb_app, B1, B2, B4.
  destruct r.
  - destruct Ht as (txid & rest & -> & Hq).
    assert (Hrest := fun j => @quiet_observed j rest Hq).
    destruct (Hrest i) as (R1 & R2 & _ & R4 & _ & R6).
    simpl. rewrite R1, R2, Nat.eqb_refl. repeat split; auto.
    + intros j. rewrite failures_at_app. simpl.
      destruct (Hbody j) as (_ & _ & -> & _). destruct (Hrest j) as (_ & _ & -> & _).
      reflexivity.
    + intros j Hj. rewrite submitted_at_app. simpl.
      destruct (Hbody j) as (_ & _ & _ & _ & Hs & _). rewrite (Hs Hj).
      destruct (Hrest j) as (_ & _ & _ & _ & -> & _). reflexivity.
    + intros j Hj. rewrite existsb_app. simpl.
      destruct (Hbody j) as (_ & _ & _ & -> & _).
      destruct (Hrest j) as (_ & _ & _ & -> & _).
      destruct (Nat.eqb_spec i j); [congruence|reflexivity].
    + apply Forall_app; split; [exact B6|].
      constructor; [simpl; apply Nat.leb_refl|apply R6].
  - subst tail. rewrite !app_nil_r. simpl. repeat split; auto.
    + intros j. destruct (Hbody j) as (_ & _ & -> & _). reflexivity.
    + intros j Hj. destruct (Hbody j) as (_ & _ & _ & _ & Hs & _). auto.
    + intros j Hj. destruct (Hbody j) as (_ & _ & _ & -> & _). reflexivity.
Qed.

(** *** The array never outgrows the batch *)

Lemma rebuild_bound txs index bh attempt :
  length txs <= length sets ->
  length (snd (fst (signAndRebuildTransactionsFromInstructionSets
                      pk sets txs index bh attempt))) <= length sets.
Proof.
  intros H. simpl. pose proof (rebuild_loop_length pk sets bh index txs). lia.
Qed.

Lemma confirmed_bound i n txid s st :
  length (signedTXs st) <= length sets ->
  length (signedTXs (fst (confirmed pk sets ledger i n txid s st))) <= length sets.
Proof.
  intros H. unfold confirmed.
  destruct (isExpired s (slot st)); [|exact H].
  destruct (0 <? _); [|exact H].
  destruct (refreshed ledger i n) as [newSlot newBlock].
  pose proof (rebuild_bound (signedTXs st) (i + 1) newBlock 0 H) as Hb.
  destruct (signAndRebuildTransactionsFromInstructionSets _ _ _ _ _ _)
    as [[first txs'] evs]. exact Hb.
Qed.

Lemma onRetry_bound i e num tx st :
  length (signedTXs st) <= length sets ->
  length (signedTXs (snd (fst (onRetry pk sets ledger i e num tx st))))
  <= length sets.
Proof.
  intros H. unfold onRetry.
  destruct (is_timeout e); [|exact H].
  destruct (isExpired _ _); [|exact H].
  destruct (refreshed ledger i num) as [newSlot newBlock].
  pose proof (rebuild_bound (signedTXs st) i newBlock num H) as Hb.
  destruct (signAndRebuildTransactionsFromInstructionSets _ _ _ _ _ _)
    as [[first txs'] evs]. exact Hb.
Qed.

Lemma retry_bound i retries : forall num rn tx st r k st' evs,
  retry pk sets cfg ledger i retries num rn tx st = (r, k, st', evs) ->
  length (signedTXs st) <= length sets ->
  length (signedTXs st') <= length sets.
Proof.
  induction retries as [|retries IH]; intros num rn tx st r k st' evs;
    rewrite retry_eq; cbv zeta;
    destruct (submit ledger i (S rn) tx) as [[[txid s]|e] sent_evs].
  1,3: pose proof (@confirmed_bound i (S rn) txid s st) as Hc;
       destruct (confirmed pk sets ledger i (S rn) txid s st) as [st1 evs1];
       intros H; injection H as <- <- <- <-; exact Hc.
  - destruct (is_timeout e && _); [|destruct (is_timeout e)];
      intros H; injection H as <- <- <- <-; auto.
  - destruct (is_timeout e && _);
      [intros H; injection H as <- <- <- <-; auto|].
    destruct (is_timeout e);
      [|intros H; injection H as <- <- <- <-; auto].
    pose proof (@onRetry_bound i e num tx st) as Hb.
    destruct (onRetry pk sets ledger i e num tx st) as [[tx1 st1] evs1].
    simpl in Hb.
    destruct (retry pk sets cfg ledger i retries (S num) (S rn) tx1 st1)
      as [[[r2 k2] st2] evs2] eqn:E.
    intros H; injection H as <- <- <- <-. intros Hl.
    eapply IH; [exact E|auto].
Qed.

(** *** The loop *)

Lemma send_loop_done fuel i st :
  length (signedTXs st) <= i ->
  send_loop pk sets cfg ledger fuel i st = (Resolved, st, []).
Proof.
  intros H. destruct fuel; simpl;
    destruct (Nat.ltb_spec i (length (signedTXs st))); try lia; reflexivity.
Qed.

Lemma send_loop_step fuel i st :
  i < length (signedTXs st) ->
  send_loop pk sets cfg ledger (S fuel) i st
  = let '(r, _, st', evs) :=
      retry pk sets cfg ledger i (Z.to_nat (maxSigningAttempts cfg)) 1 0
            (js_get (signedTXs st) i) st in
    match r with
    | Fulfilled =>
        let '(o, st'', evs') := send_loop pk sets cfg ledger fuel (S i) st' in
        (o, st'', evs ++ evs')
    | Rejected error =>
        if abortOnFailure cfg
        then (Resolved, st', evs ++ [onFailure sets error i st'])
        else
          let '(o, st'', evs') := send_loop pk sets cfg ledger fuel (S i) st' in
          (o, st'', evs ++ [onFailure sets error i st'] ++ evs')
    end.
Proof.
  intros H. simpl.
  destruct (Nat.ltb_spec i (length (signedTXs st))); [reflexivity|lia].
Qed.

(** The loop ends, and [send] resolves, whenever the fuel covers the
    batch. *)
Lemma send_loop_resolves fuel : forall i st o st' evs,
  send_loop pk sets cfg ledger fuel i st = (o, st', evs) ->
  length (signedTXs st) <= length sets ->
  length sets <= i + fuel ->
  o = Resolved /\ length (signedTXs st') <= length sets.
Proof.
  induction fuel as [|fuel IH]; intros i st o st' evs H Hl Hf.
  - rewrite send_loop_done in H by lia. injection H as <- <- <-. auto.
  - destruct (le_lt_dec (length (signedTXs st)) i) as [Hd|Hlt].
    { rewrite send_loop_done in H by lia. injection H as <- <- <-. auto. }
    rewrite send_loop_step in H by exact Hlt.
    destruct (retry pk sets cfg ledger i _ 1 0 _ st)
      as [[[r k] st1] evs1] eqn:E.
    pose proof E as Hl1. apply retry_bound in Hl1; [|exact Hl].
    destruct r as [|error].
    + destruct (send_loop pk sets cfg ledger fuel (S i) st1)
        as [[o2 st2] evs2] eqn:E2.
      injection H as <- <- <-. eapply IH; [exact E2|exact Hl1|lia].
    + destruct (abortOnFailure cfg).
      * injection H as <- <- <-. auto.
      * destruct (send_loop pk sets cfg ledger fuel (S i) st1)
          as [[o2 st2] evs2] eqn:E2.
        injection H as <- <- <-. eapply IH; [exact E2|exact Hl1|lia].
Qed.

(** The events of the loop from index [i] belong to items from [i] on. *)
Lemma send_loop_from_item fuel : forall i st o st' evs,
  send_loop pk sets cfg ledger fuel i st = (o, st', evs) ->
  Forall (fun e => from_item i e = true) evs.
Proof.
  assert (Hweak : forall i evs,
             Forall (fun e => from_item (S i) e = true) evs ->
             Forall (fun e => from_item i e = true) evs).
  { intros i evs. apply Forall_impl. intros e. unfold from_item.
    destruct (item_of e); [|auto]. rewrite !Nat.leb_le. lia. }
  induction fuel as [|fuel IH]; intros i st o st' evs H.
  - simpl in H. destruct (i <? _); injection H as <- <- <-; constructor.
  - destruct (le_lt_dec (length (signedTXs st)) i) as [Hd|Hlt].
    { rewrite send_loop_done in H by lia. injection H as <- <- <-. constructor. }
    rewrite send_loop_step in H by exact Hlt.
    destruct (retry pk sets cfg ledger i _ 1 0 _ st)
      as [[[r k] st1] evs1] eqn:E.
    pose proof E as Hobs. apply retry_observed in Hobs.
    destruct Hobs as (_ & _ & _ & _ & _ & _ & Hit).
    assert (Hfail : forall error,
               from_item i (onFailure sets error i st1) = true)
      by (intros; simpl; apply Nat.leb_refl).
    destruct r as [|error].
    + destruct (send_loop pk sets cfg ledger fuel (S i) st1)
        as [[o2 st2] evs2] eqn:E2.
      injection H as <- <- <-. apply Forall_app; split; [exact Hit|].
      apply Hweak. eapply IH; exact E2.
    + destruct (abortOnFailure cfg).
      * injection H as <- <- <-. apply Forall_app; split; [exact Hit|].
        constructor; [apply Hfail|constructor].
      * destruct (send_loop pk sets cfg ledger fuel (S i) st1)
          as [[o2 st2] evs2] eqn:E2.
        injection H as <- <- <-. apply Forall_app; split; [exact Hit|].
        constructor; [apply Hfail|]. apply Hweak. eapply IH; exact E2.
Qed.

Lemma from_item_earlier i j evs :
  Forall (fun e => from_item i e = true) evs ->
  j < i ->
  failures_at j evs = [] /\ submitted_at j evs = []
  /\ existsb (terminal_for j) evs = false
  /\ ~ In j (progress_indices evs).
Proof.
  intros H Hj. induction H as [|e l He _ (IH1 & IH2 & IH3 & IH4)];
    [repeat split; auto|].
  destruct e as [ | | txs | a tx | a txid | a idx | error a a3 a4];
    simpl in *; auto;
    apply Nat.leb_le in He;
    destruct (Nat.eqb_spec a j); try lia; simpl; repeat split; auto.
  intros [Ha|Ha]; [lia|auto].
Qed.

Lemma js_get_some_lt {A} (a : JsArray A) j v :
  js_get a j = Some v -> j < length a.
Proof.
  unfold js_get. intros H. apply nth_error_Some.
  destruct (nth_error a j); [discriminate|discriminate H].
Qed.

(** C6. A submission that fails without being a timeout (a transaction the
    ledger rejected, a miscellaneous error, an exception) is given up at
    once: the promise of the retry is rejected with that very error, the
    attempt counter stays where it was, 1 when the first attempt failed,
    and nothing more is submitted for the index; the loop then passes the
    error to the failure callback as its first argument. *)
Theorem rejected_is_not_retried i tx st e :
  (forall retries num rn,
     fst (submit ledger i (S rn) (Some tx)) = inr e ->
     is_timeout e = false ->
     retry pk sets cfg ledger i retries num rn (Some tx) st
     = (Rejected e, S rn, st, [EvSubmit i tx]))
  /\ (forall fuel,
        js_get (signedTXs st) i = Some tx ->
        fst (submit ledger i 1 (Some tx)) = inr e ->
        is_timeout e = false ->
        let '(_, _, evs) := send_loop pk sets cfg ledger (S fuel) i st in
        submitted_at i evs = [tx]
        /\ failures_at i evs = [e]
        /\ exists rest,
             evs = [EvSubmit i tx;
                    EvFailure e i (successfulItems st)
                      (js_index sets (Z.of_nat (successfulItems st) - 1))]
                   ++ rest).
Proof.
  assert (Hitem : forall retries num rn,
             fst (submit ledger i (S rn) (Some tx)) = inr e ->
             is_timeout e = false ->
             retry pk sets cfg ledger i retries num rn (Some tx) st
             = (Rejected e, S rn, st, [EvSubmit i tx])).
  { intros retries num rn Hsub Ht. rewrite retry_eq. cbv zeta.
    destruct (submit ledger i (S rn) (Some tx)) as [res sent_evs] eqn:E.
    assert (sent_evs = [EvSubmit i tx])
      by (change sent_evs with (snd (res, sent_evs)); rewrite <- E; reflexivity).
    simpl in Hsub. subst. rewrite Ht. reflexivity. }
  split; [exact Hitem|].
  intros fuel Hget Hsub Ht.
  rewrite send_loop_step by (eapply js_get_some_lt; exact Hget).
  rewrite Hget, (Hitem _ _ _ Hsub Ht).
  destruct (abortOnFailure cfg).
  - simpl. rewrite Nat.eqb_refl. repeat split; eauto.
  - destruct (send_loop pk sets cfg ledger fuel (S i) st) as [[o st2] evs2] eqn:E.
    apply send_loop_from_item in E.
    destruct (@from_item_earlier (S i) i evs2 E) as (F1 & F2 & _); [lia|].
    simpl. rewrite Nat.eqb_refl. simpl. rewrite F1, F2. repeat split; eauto.
Qed.

Lemma submit_timeout i n tx inner txid :
  sendSignedTransaction (submission ledger i n tx)
  = Returns (failed (timeout inner txid)) ->
  submit ledger i n (Some tx)
  = (inr (send_error (timeout inner txid)), [EvSubmit i tx]).
Proof. intros H. unfold submit. rewrite H. reflexivity. Qed.

(** An item whose submissions all time out while the polled slot stays
    inside the window: the same envelope is submitted until the counter
    reaches maxSigningAttempts. *)
Lemma stuck_item k tx st :
  (forall n t, exists inner txid,
      sendSignedTransaction (submission ledger k n t)
      = Returns (failed (timeout inner txid))) ->
  (forall n, (polledSlot ledger k n < slot st + 150)%Z) ->
  forall retries num rn,
    retries + rn = Z.to_nat (maxSigningAttempts cfg) ->
    rn < Z.to_nat (maxSigningAttempts cfg) ->
    exists evs,
      retry pk sets cfg ledger k retries num rn (Some tx) st
      = (Rejected MAX_RESIGN_ATTEMPTS_REACHED,
         Z.to_nat (maxSigningAttempts cfg), st, evs)
      /\ submitted_at k evs = repeat tx (Z.to_nat (maxSigningAttempts cfg) - rn).
Proof.
  intros Hto Hslot.
  induction retries as [|retries IH]; intros num rn Hb Hrn; [lia|].
  rewrite retry_eq. cbv zeta.
  destruct (Hto (S rn) tx) as (inner & txid & Hsub).
  rewrite (@submit_timeout k (S rn) tx inner txid Hsub). simpl is_timeout.
  destruct (Z.of_nat (S rn) >=? maxSigningAttempts cfg)%Z eqn:Hge.
  - rewrite Z.geb_leb in Hge. apply Z.leb_le in Hge.
    assert (Hm : Z.to_nat (maxSigningAttempts cfg) = S rn) by lia.
    simpl andb. cbv iota. eexists. split; [rewrite Hm; reflexivity|].
    rewrite Hm. replace (S rn - rn) with 1 by lia.
    simpl. rewrite Nat.eqb_refl. reflexivity.
  - rewrite Z.geb_leb in Hge. apply Z.leb_gt in Hge.
    simpl andb. cbv iota.
    assert (Hon :
      onRetry pk sets ledger k (send_error (timeout inner txid)) num (Some tx) st
      = (Some tx, st, [EvGetSlot])).
    { unfold onRetry. simpl is_timeout. cbv iota.
      replace (isExpired (polledSlot ledger k num) (slot st)) with false;
        [reflexivity|].
      symmetry. unfold isExpired. rewrite Z.geb_leb. apply Z.leb_gt.
      specialize (Hslot num). lia. }
    rewrite Hon.
    destruct (IH (S num) (S rn)) as (evs & Hr & Hs); [lia|lia|].
    rewrite Hr. eexists. split; [reflexivity|].
    simpl. rewrite Nat.eqb_refl. simpl. rewrite Hs.
    replace (Z.to_nat (maxSigningAttempts cfg) - rn)
      with (S (Z.to_nat (maxSigningAttempts cfg) - S rn)) by lia.
    reflexivity.
Qed.

(** The loop at an item whose submissions all time out while the polled
    slot stays inside the window. *)
Lemma stuck_loop fuel k st tx :
  (1 <= maxSigningAttempts cfg)%Z ->
  js_get (signedTXs st) k = Some tx ->
  (forall n t, exists inner txid,
      sendSignedTransaction (submission ledger k n t)
      = Returns (failed (timeout inner txid))) ->
  (forall n, (polledSlot ledger k n < slot st + 150)%Z) ->
  let m := Z.to_nat (maxSigningAttempts cfg) in
  (exists evs,
      retry pk sets cfg ledger k m 1 0 (Some tx) st
      = (Rejected MAX_RESIGN_ATTEMPTS_REACHED, m, st, evs)
      /\ submitted_at k evs = repeat tx m)
  /\ let '(o, _, evs) := send_loop pk sets cfg ledger (S fuel) k st in
     submitted_at k evs = repeat tx m
     /\ failures_at k evs = [MAX_RESIGN_ATTEMPTS_REACHED]
     /\ ~ In k (progress_indices evs)
     /\ (abortOnFailure cfg = true ->
           o = Resolved
           /\ progress_indices evs = []
           /\ failures evs
              = [EvFailure MAX_RESIGN_ATTEMPTS_REACHED k (successfulItems st)
                   (js_index sets (Z.of_nat (successfulItems st) - 1))]).
Proof.
  intros Hmax Hget Hto Hslot m.
  destruct (@stuck_item k tx st Hto Hslot m 1 0) as (evs & Hr & Hs);
    [subst m; lia|subst m; lia|].
  rewrite Nat.sub_0_r in Hs. fold m in Hr, Hs.
  split; [eauto|].
  rewrite send_loop_step by (eapply js_get_some_lt; exact Hget).
  rewrite Hget. fold m. rewrite Hr.
  pose proof Hr as Hobs. apply retry_observed in Hobs.
  destruct Hobs as (Hp & Hf & Hfa & _ & _ & _ & _).
  destruct (abortOnFailure cfg).
  - rewrite submitted_at_app, failures_at_app, progress_indices_app, failures_app.
    rewrite Hs, Hfa, Hp, Hf. simpl. rewrite Nat.eqb_refl, app_nil_r.
    repeat split; auto.
  - destruct (send_loop pk sets cfg ledger fuel (S k) st) as [[o st2] evs2] eqn:E.
    apply send_loop_from_item in E.
    destruct (@from_item_earlier (S k) k evs2 E) as (F1 & F2 & _ & F4); [lia|].
    rewrite submitted_at_app, failures_at_app, progress_indices_app.
    rewrite Hs, Hfa, Hp. simpl. rewrite Nat.eqb_refl. simpl.
    rewrite F1, F2, app_nil_r. repeat split; auto; discriminate.
Qed.

(** *** One envelope per instruction set *)

Lemma Forall2_firstn {A B} (R : A -> B -> Prop) n : forall l l',
  Forall2 R l l' -> Forall2 R (firstn n l) (firstn n l').
Proof.
  induction n as [|n IH]; intros l l' H; simpl; [constructor|].
  destruct H; constructor; auto.
Qed.

Lemma aligned_length txs :
  aligned pk sets txs -> length txs = length sets.
Proof. intros H. symmetry. eapply Forall2_length, H. Qed.

Lemma aligned_get txs i s :
  aligned pk sets txs -> nth_error sets i = Some s ->
  exists bh, js_get txs i = Some (buildTransaction pk bh s).
Proof.
  unfold aligned, js_get. intros H. revert i.
  induction H as [|s0 o l l' Hso _ IH]; intros [|i] Hs; simpl in *;
    try discriminate.
  - injection Hs as <-. destruct Hso as (bh & ->). eauto.
  - apply IH, Hs.
Qed.

Lemma rebuild_aligned txs index bh :
  aligned pk sets txs -> index <= length sets ->
  aligned pk sets (rebuild_loop pk sets bh index txs).
Proof.
  intros H Hi. pose proof (aligned_length H) as Hl.
  rewrite rebuild_loop_dense by lia.
  unfold aligned. rewrite <- (firstn_skipn index sets) at 1.
  apply Forall2_app; [apply Forall2_firstn, H|].
  induction (skipn index sets) as [|s l IH]; simpl; constructor; auto.
  exists bh. reflexivity.
Qed.

Lemma confirmed_aligned i n txid s st :
  aligned pk sets (signedTXs st) ->
  aligned pk sets (signedTXs (fst (confirmed pk sets ledger i n txid s st))).
Proof.
  intros H. unfold confirmed, signAndRebuildTransactionsFromInstructionSets.
  destruct (isExpired s (slot st)); [|exact H].
  destruct (Nat.ltb_spec 0 (length (js_slice_from (signedTXs st) (i + 1))))
    as [Hlt|]; [|exact H].
  destruct (refreshed ledger i n) as [newSlot newBlock]. simpl.
  apply rebuild_aligned; [exact H|].
  unfold js_slice_from in Hlt. rewrite length_skipn in Hlt.
  rewrite <- (aligned_length H). lia.
Qed.

Lemma onRetry_aligned i e num tx st s :
  aligned pk sets (signedTXs st) ->
  nth_error sets i = Some s ->
  (forall t, tx = Some t -> exists bh, t = buildTransaction pk bh s) ->
  let '(tx', st', _) := onRetry pk sets ledger i e num tx st in
  aligned pk sets (signedTXs st')
  /\ (forall t, tx' = Some t -> exists bh, t = buildTransaction pk bh s).
Proof.
  intros H Hs Htx. unfold onRetry, signAndRebuildTransactionsFromInstructionSets.
  destruct (is_timeout e); [|auto].
  destruct (isExpired _ _); [|auto].
  destruct (refreshed ledger i num) as [newSlot newBlock]. simpl.
  assert (Hi : i < length sets) by (apply nth_error_Some; congruence).
  split; [apply rebuild_aligned; [exact H|lia]|].
  unfold js_slice_from, js_get. rewrite nth_error_skipn, Nat.add_0_r.
  fold (js_get (rebuild_loop pk sets newBlock i (signedTXs st)) i).
  unfold rebuild_loop.
  rewrite (@rebuild_fold_at pk sets newBlock (length sets - i) i (signedTXs st) i s)
    by (auto; lia).
  intros t Ht. injection Ht as <-. eauto.
Qed.

Lemma onRetry_keeps_aligned i e num tx st :
  aligned pk sets (signedTXs st) ->
  i < length sets ->
  aligned pk sets (signedTXs (snd (fst (onRetry pk sets ledger i e num tx st)))).
Proof.
  intros H Hi. unfold onRetry, signAndRebuildTransactionsFromInstructionSets.
  destruct (is_timeout e); [|exact H].
  destruct (isExpired _ _); [|exact H].
  destruct (refreshed ledger i num) as [newSlot newBlock]. simpl.
  apply rebuild_aligned; [exact H|lia].
Qed.

(** Through the attempts on item [i] the envelopes stay aligned with the
    batch, and what is submitted for [i] is built from the set at [i]. *)
Lemma retry_aligned i s retries : forall num rn tx st r k st' evs,
  retry pk sets cfg ledger i retries num rn tx st = (r, k, st', evs) ->
  aligned pk sets (signedTXs st) ->
  nth_error sets i = Some s ->
  (forall t, tx = Some t -> exists bh, t = buildTransaction pk bh s) ->
  aligned pk sets (signedTXs st')
  /\ Forall (fun t => exists bh, t = buildTransaction pk bh s) (submitted_at i evs).
Proof.
  assert (Hsent : forall n tx,
             (forall t, tx = Some t -> exists bh, t = buildTransaction pk bh s) ->
             Forall (fun t => exists bh, t = buildTransaction pk bh s)
                    (submitted_at i (snd (submit ledger i n tx)))).
  { intros n [t|] Htx; simpl; [|constructor].
    rewrite Nat.eqb_refl. constructor; [apply Htx; reflexivity|constructor]. }
  assert (Hquiet : forall evs, Forall (fun e => quiet e = true) evs ->
                               submitted_at i evs = []).
  { intros evs Hq. apply (@quiet_observed i evs Hq). }
  induction retries as [|retries IH]; intros num rn tx st r k st' evs;
    rewrite retry_eq; cbv zeta;
    pose proof (Hsent (S rn) tx) as Hsub;
    destruct (submit ledger i (S rn) tx) as [[[txid sl]|e] sent_evs];
    simpl in Hsub.
  1,3: pose proof (@confirmed_aligned i (S rn) txid sl st) as Hc;
       pose proof (confirmed_events i (S rn) txid sl st) as (rest & Hev & Hq);
       destruct (confirmed pk sets ledger i (S rn) txid sl st) as [st1 evs1];
       simpl in Hc, Hev; subst evs1;
       intros H; injection H as <- <- <- <-; intros Ha Hs Htx;
       split; [auto|];
       rewrite submitted_at_app; simpl; rewrite (Hquiet _ Hq), app_nil_r; auto.
  - destruct (is_timeout e && _); [|destruct (is_timeout e)];
      intros H; injection H as <- <- <- <-; auto.
  - destruct (is_timeout e && _);
      [intros H; injection H as <- <- <- <-; auto|].
    destruct (is_timeout e);
      [|intros H; injection H as <- <- <- <-; auto].
    pose proof (@onRetry_aligned i e num tx st s) as Hon.
    pose proof (onRetry_events i e num tx st) as Hq.
    destruct (onRetry pk sets ledger i e num tx st) as [[tx1 st1] evs1].
    simpl in Hq.
    destruct (retry pk sets cfg ledger i retries (S num) (S rn) tx1 st1)
      as [[[r2 k2] st2] evs2] eqn:E.
    intros H; injection H as <- <- <- <-. intros Ha Hs Htx.
    destruct (Hon Ha Hs Htx) as (Ha1 & Htx1).
    destruct (IH _ _ _ _ _ _ _ _ E Ha1 Hs Htx1) as (Ha2 & Hsub2).
    split; [exact Ha2|].
    rewrite !submitted_at_app, (Hquiet _ Hq). simpl.
    apply Forall_app; split; auto.
Qed.

Lemma submitted_at_in j t evs :
  In t (submitted_at j evs) <-> In (EvSubmit j t) evs.
Proof.
  induction evs as [|e l IH]; simpl; [tauto|].
  unfold submitted_at in *. simpl. rewrite in_app_iff, IH.
  destruct e as [ | | txs | a tx | a txid | a idx | error a a3 a4];
    simpl; try (split; [intros [[]|H]; auto | intros [H|H]; [discriminate|auto]]).
  destruct (Nat.eqb_spec a j); simpl.
  - subst. split; [intros [[->|[]]|H]; auto | intros [H|H]; auto].
    injection H as ->. auto.
  - split; [intros [[]|H]; auto | intros [H|H]; auto]. congruence.
Qed.

(** Through the loop the envelopes stay aligned with the batch, and every
    envelope submitted for an index is built from the set at that index. *)
Lemma send_loop_aligned fuel : forall i st o st' evs,
  send_loop pk sets cfg ledger fuel i st = (o, st', evs) ->
  aligned pk sets (signedTXs st) ->
  aligned pk sets (signedTXs st')
  /\ forall j t, In (EvSubmit j t) evs ->
       exists bh s, nth_error sets j = Some s /\ t = buildTransaction pk bh s.
Proof.
  induction fuel as [|fuel IH]; intros i st o st' evs H Ha.
  - simpl in H. destruct (i <? _); injection H as <- <- <-;
      (split; [exact Ha|intros j t []]).
  - destruct (le_lt_dec (length (signedTXs st)) i) as [Hd|Hlt].
    { rewrite send_loop_done in H by lia. injection H as <- <- <-.
      split; [exact Ha|intros j t []]. }
    rewrite send_loop_step in H by exact Hlt.
    rewrite (aligned_length Ha) in Hlt.
    destruct (nth_error sets i) as [s|] eqn:Hs;
      [|apply nth_error_None in Hs; lia].
    destruct (@aligned_get (signedTXs st) i s Ha Hs) as (bh0 & Hget).
    rewrite Hget in H.
    destruct (retry pk sets cfg ledger i _ 1 0 _ st)
      as [[[r k] st1] evs1] eqn:E.
    pose proof E as Hobs. apply retry_observed in Hobs.
    destruct Hobs as (_ & _ & _ & Hother & _).
    assert (Hal := E).
    eapply retry_aligned in Hal;
      [destruct Hal as (Ha1 & Hsub1) | exact Ha | exact Hs
       | intros t Ht; injection Ht as <-; eauto].
    assert (Hin1 : forall j t, In (EvSubmit j t) evs1 ->
              exists bh s', nth_error sets j = Some s' /\ t = buildTransaction pk bh s').
    { intros j t Hin. apply submitted_at_in in Hin.
      destruct (Nat.eq_dec j i) as [->|Hne];
        [|rewrite (Hother j Hne) in Hin; destruct Hin].
      rewrite Forall_forall in Hsub1. destruct (Hsub1 t Hin) as (bh & ->). eauto. }
    destruct r as [|error].
    + destruct (send_loop pk sets cfg ledger fuel (S i) st1)
        as [[o2 st2] evs2] eqn:E2.
      injection H as <- <- <-. destruct (IH _ _ _ _ _ E2 Ha1) as (Ha2 & Hin2).
      split; [exact Ha2|]. intros j t Hin. apply in_app_iff in Hin.
      destruct Hin; auto.
    + destruct (abortOnFailure cfg).
      * injection H as <- <- <-. split; [exact Ha1|].
        intros j t Hin. apply in_app_iff in Hin.
        destruct Hin as [Hin|[Hin|[]]]; [auto|discriminate].
      * destruct (send_loop pk sets cfg ledger fuel (S i) st1)
          as [[o2 st2] evs2] eqn:E2.
        injection H as <- <- <-. destruct (IH _ _ _ _ _ E2 Ha1) as (Ha2 & Hin2).
        split; [exact Ha2|]. intros j t Hin. apply in_app_iff in Hin.
        destruct Hin as [Hin|[Hin|Hin]]; [auto|discriminate|auto].
Qed.

(** *** Order of submission *)

Lemma app_split {A} (l1 l2 : list A) x : forall pre post,
  l1 ++ l2 = pre ++ x :: post ->
  (exists post1, l1 = pre ++ x :: post1 /\ post = post1 ++ l2)
  \/ (exists pre2, pre = l1 ++ pre2 /\ l2 = pre2 ++ x :: post).
Proof.
  induction l1 as [|a l1 IH]; intros pre post H; simpl in *.
  - right. exists pre. auto.
  - destruct pre as [|b pre]; simpl in *.
    + injection H as -> <-. left. exists l1. auto.
    + injection H as -> H. destruct (IH _ _ H) as [(p & -> & ->)|(p & -> & ->)].
      * left. exists p. auto.
      * right. exists p. auto.
Qed.

Lemma from_item_weaken i j evs :
  i <= j ->
  Forall (fun e => from_item j e = true) evs ->
  Forall (fun e => from_item i e = true) evs.
Proof.
  intros Hij. apply Forall_impl. intros e. unfold from_item.
  destruct (item_of e); [|auto]. rewrite !Nat.leb_le. lia.
Qed.

Lemma send_loop_in_order fuel : forall i st o st' evs,
  send_loop pk sets cfg ledger fuel i st = (o, st', evs) ->
  submissions_in_order i evs.
Proof.
  induction fuel as [|fuel IH]; intros i st o st' evs H.
  { simpl in H. destruct (i <? _); injection H as <- <- <-;
      intros [|? ?] j t post Hev; discriminate. }
  destruct (le_lt_dec (length (signedTXs st)) i) as [Hd|Hlt].
  { rewrite send_loop_done in H by lia. injection H as <- <- <-.
    intros [|? ?] j t post Hev; discriminate. }
  rewrite send_loop_step in H by exact Hlt.
  destruct (retry pk sets cfg ledger i _ 1 0 _ st) as [[[r k] st1] evs1] eqn:E.
  pose proof E as Hobs. apply retry_observed in Hobs.
  destruct Hobs as (_ & _ & _ & Hother & _ & Hterm & Hfrom).
  (* what follows the attempts: the failure notice, if any, and the rest *)
  assert (Hshape : exists F evs2 o2 st2,
             evs = evs1 ++ F ++ evs2
             /\ (F = [] /\ r = Fulfilled \/ exists error, F = [onFailure sets error i st1])
             /\ (evs2 = [] \/ send_loop pk sets cfg ledger fuel (S i) st1 = (o2, st2, evs2))).
  { destruct r as [|error].
    - destruct (send_loop pk sets cfg ledger fuel (S i) st1)
        as [[o2 st2] evs2] eqn:E2.
      injection H as <- <- <-. exists [], evs2, o2, st2. simpl. auto.
    - destruct (abortOnFailure cfg).
      + injection H as <- <- <-.
        exists [onFailure sets error i st1], [], Resolved, st1.
        rewrite app_nil_r.
        split; [reflexivity|split; [right; eexists; reflexivity|left; reflexivity]].
      + destruct (send_loop pk sets cfg ledger fuel (S i) st1)
          as [[o2 st2] evs2] eqn:E2.
        injection H as <- <- <-.
        exists [onFailure sets error i st1], evs2, o2, st2.
        split; [reflexivity|split; [right; eexists; reflexivity|right; reflexivity]]. }
  destruct Hshape as (F & evs2 & o2 & st2 & -> & HF & H2).
  assert (Hord2 : submissions_in_order (S i) evs2).
  { destruct H2 as [->|H2]; [|eapply IH; exact H2].
    intros [|? ?] j t post Hev; discriminate. }
  assert (Hfrom2 : Forall (fun e => from_item (S i) e = true) evs2).
  { destruct H2 as [->|H2]; [constructor|eapply send_loop_from_item; exact H2]. }
  assert (HfromF : Forall (fun e => from_item i e = true) F).
  { destruct HF as [[-> _]|(error & ->)]; [constructor|].
    constructor; [simpl; apply Nat.leb_refl|constructor]. }
  assert (HtermF : existsb (terminal_for i) (evs1 ++ F) = true).
  { rewrite existsb_app, Hterm.
    destruct HF as [[-> ->]|(error & ->)]; [reflexivity|].
    simpl. rewrite Nat.eqb_refl. apply orb_true_r. }
  intros pre j t post Hev.
  apply app_split in Hev. destruct Hev as [(post1 & Hev & ->)|(pre2 & -> & Hev)].
  - (* a submission among the attempts on item i *)
    assert (j = i) as ->.
    { destruct (Nat.eq_dec j i) as [|Hne]; [assumption|].
      specialize (Hother j Hne). rewrite Hev, submitted_at_app in Hother.
      simpl in Hother. rewrite Nat.eqb_refl in Hother.
      apply app_eq_nil in Hother. destruct Hother as [_ Hother]. discriminate. }
    split; [lia|]. split; [lia|].
    rewrite Hev in Hfrom. apply Forall_app in Hfrom. destruct Hfrom as [_ Hfrom].
    apply Forall_cons_iff in Hfrom. destruct Hfrom as [_ Hfrom].
    apply Forall_app; split; [exact Hfrom|].
    apply Forall_app; split; [exact HfromF|].
    eapply from_item_weaken; [|exact Hfrom2]. lia.
  - apply app_split in Hev. destruct Hev as [(post1 & Hev & ->)|(pre3 & -> & Hev)].
    + (* the failure notice is no submission *)
      destruct HF as [[-> _]|(error & ->)].
      * destruct pre2; discriminate.
      * destruct pre2 as [|? [|? ?]]; discriminate.
    + destruct (Hord2 _ _ _ _ Hev) as (Hle & Hprev & Hpost).
      split; [lia|]. split; [|exact Hpost].
      intros _. rewrite !app_assoc, existsb_app.
      destruct (Nat.eq_dec j (S i)) as [->|Hne].
      * simpl. rewrite Nat.sub_0_r, HtermF. reflexivity.
      * rewrite Hprev by lia. apply orb_true_r.
Qed.

(** *** Expiry of the window *)

Lemma slice_nonempty {A} (a : JsArray A) i :
  (0 <? length (js_slice_from a (i + 1))) = (i + 1 <? length a).
Proof.
  unfold js_slice_from. rewrite length_skipn.
  destruct (Nat.ltb_spec 0 (length a - (i + 1)));
    destruct (Nat.ltb_spec (i + 1) (length a)); auto; lia.
Qed.

(** After a confirmation the rebuild happens exactly when the window is
    expired and envelopes remain after the current one. *)
Lemma confirmed_rebuilds_iff i n txid sl st :
  (isExpired sl (slot st) && (i + 1 <? length (signedTXs st)) = true ->
     snd (confirmed pk sets ledger i n txid sl st)
     = [EvProgress i txid; EvGetSlotAndBlockhash; EvReSign 0 (i + 1);
        EvSignAll (skipn (i + 1)
                     (rebuild_loop pk sets (snd (refreshed ledger i n)) (i + 1)
                        (signedTXs st)))]
     /\ slot (fst (confirmed pk sets ledger i n txid sl st))
        = fst (refreshed ledger i n))
  /\ (isExpired sl (slot st) && (i + 1 <? length (signedTXs st)) = false ->
        confirmed pk sets ledger i n txid sl st = (bump st, [EvProgress i txid])).
Proof.
  unfold confirmed, signAndRebuildTransactionsFromInstructionSets.
  rewrite slice_nonempty.
  destruct (isExpired sl (slot st)); simpl andb;
    [|split; [discriminate|reflexivity]].
  destruct (i + 1 <? length (signedTXs st));
    [|split; [discriminate|reflexivity]].
  destruct (refreshed ledger i n) as [newSlot newBlock]. simpl.
  split; [split; reflexivity|discriminate].
Qed.

Lemma submit_inl i n tx txid sl :
  fst (submit ledger i n tx) = inl (txid, sl) ->
  exists t, tx = Some t
    /\ sendSignedTransaction (submission ledger i n t) = Returns (sent txid sl).
Proof.
  unfold submit. destruct tx as [t|]; [|discriminate].
  destruct (sendSignedTransaction _) as [[a b|e]|m] eqn:E; simpl;
    try discriminate.
  intros H. injection H as -> ->. eauto.
Qed.

(** With every reported and every polled slot inside the window of
    [slot0], the attempts on an item rebuild nothing. *)
Lemma retry_calm slot0 i :
  (forall j n t txid sl,
      sendSignedTransaction (submission ledger j n t) = Returns (sent txid sl) ->
      (sl < slot0 + 150)%Z) ->
  (forall j n, (polledSlot ledger j n < slot0 + 150)%Z) ->
  forall retries num rn tx st r k st' evs,
    retry pk sets cfg ledger i retries num rn tx st = (r, k, st', evs) ->
    slot st = slot0 ->
    slot st' = slot0 /\ resigns evs = [].
Proof.
  intros Hsent Hpoll.
  assert (Hfresh : forall c b, (c < b + 150)%Z -> isExpired c b = false).
  { intros c b H. unfold isExpired. rewrite Z.geb_leb. apply Z.leb_gt. lia. }
  assert (Hsub : forall n tx, resigns (snd (submit ledger i n tx)) = [])
    by (intros n [t|]; reflexivity).
  induction retries as [|retries IH]; intros num rn tx st r k st' evs;
    rewrite retry_eq; cbv zeta;
    pose proof (@submit_inl i (S rn) tx) as Hinl;
    pose proof (Hsub (S rn) tx) as Hs0;
    destruct (submit ledger i (S rn) tx) as [[[txid sl]|e] sent_evs];
    simpl in Hinl, Hs0.
  1,3: destruct (Hinl _ _ eq_refl) as (t & -> & Hok);
       destruct (confirmed pk sets ledger i (S rn) txid sl st) as [st1 evs1] eqn:Ec;
       intros H; injection H as <- <- <- <-; intros Hslot;
       destruct (confirmed_rebuilds_iff i (S rn) txid sl st) as [_ Hno];
       rewrite Hno in Ec
         by (rewrite Hslot, (Hfresh _ _ (Hsent _ _ _ _ _ Hok)); reflexivity);
       injection Ec as <- <-; rewrite resigns_app, Hs0; auto.
  - destruct (is_timeout e && _); [|destruct (is_timeout e)];
      intros H; injection H as <- <- <- <-; auto.
  - destruct (is_timeout e && _);
      [intros H; injection H as <- <- <- <-; auto|].
    destruct (is_timeout e) eqn:Et;
      [|intros H; injection H as <- <- <- <-; auto].
    destruct (onRetry pk sets ledger i e num tx st) as [[tx1 st1] evs1] eqn:Eo.
    destruct (retry pk sets cfg ledger i retries (S num) (S rn) tx1 st1)
      as [[[r2 k2] st2] evs2] eqn:E.
    intros H; injection H as <- <- <- <-. intros Hslot.
    unfold onRetry in Eo.
    rewrite Et, Hslot, (Hfresh _ _ (Hpoll i num)) in Eo.
    injection Eo as <- <- <-.
    destruct (IH _ _ _ _ _ _ _ _ E Hslot) as (Hslot2 & Hre2).
    rewrite !resigns_app, Hs0, Hre2. auto.
Qed.


(** *** An item that keeps timing out *)

(** A run that reaches a stuck item while the slot never leaves the first
    window. *)
Lemma send_loop_reaches_stuck slot0 k :
  (1 <= maxSigningAttempts cfg)%Z ->
  (forall j n t txid sl,
      sendSignedTransaction (submission ledger j n t) = Returns (sent txid sl) ->
      (sl < slot0 + 150)%Z) ->
  (forall j n, (polledSlot ledger j n < slot0 + 150)%Z) ->
  (forall n t, exists inner txid,
      sendSignedTransaction (submission ledger k n t)
      = Returns (failed (timeout inner txid))) ->
  forall fuel i st o st' evs,
    send_loop pk sets cfg ledger fuel i st = (o, st', evs) ->
    slot st = slot0 ->
    i <= k ->
    (exists t, In (EvSubmit k t) evs) ->
    failures_at k evs = [MAX_RESIGN_ATTEMPTS_REACHED]
    /\ length (submitted_at k evs) = Z.to_nat (maxSigningAttempts cfg)
    /\ (abortOnFailure cfg = true ->
          Forall (fun j => j < k) (progress_indices evs)).
Proof.
  intros Hmax Hsent Hpoll Hto.
  induction fuel as [|fuel IH]; intros i st o st' evs H Hslot Hik (t0 & Hreach).
  { simpl in H. destruct (i <? _); injection H as <- <- <-; destruct Hreach. }
  destruct (le_lt_dec (length (signedTXs st)) i) as [Hd|Hlt].
  { rewrite send_loop_done in H by lia. injection H as <- <- <-. destruct Hreach. }
  destruct (Nat.eq_dec i k) as [->|Hne].
  - (* the stuck item itself *)
    destruct (js_get (signedTXs st) k) as [tx|] eqn:Hget.
    + pose proof (@stuck_loop fuel k st tx Hmax Hget Hto) as Hst.
      rewrite <- Hslot in Hpoll. specialize (Hst (Hpoll k)).
      cbv zeta in Hst. destruct Hst as [_ Hst]. rewrite H in Hst.
      destruct Hst as (Hs & Hf & _ & Hab).
      split; [exact Hf|]. split; [rewrite Hs; apply repeat_length|].
      intros Habort. destruct (Hab Habort) as (_ & -> & _). constructor.
    + (* no envelope at k: nothing is submitted for k *)
      exfalso. rewrite send_loop_step in H by exact Hlt. rewrite Hget in H.
      rewrite retry_eq in H. cbv zeta in H. simpl in H.
      assert (Hrest : forall fuel' st2 o2 st2' evs2,
                 send_loop pk sets cfg ledger fuel' (S k) st2 = (o2, st2', evs2) ->
                 ~ In (EvSubmit k t0) evs2).
      { intros fuel' st2 o2 st2' evs2 E2 Hin. apply send_loop_from_item in E2.
        rewrite Forall_forall in E2. specialize (E2 _ Hin). simpl in E2.
        apply Nat.leb_le in E2. lia. }
      destruct (abortOnFailure cfg).
      * injection H as <- <- <-. destruct Hreach as [Hr|[]]. discriminate.
      * destruct (send_loop pk sets cfg ledger fuel (S k) st)
          as [[o2 st2] evs2] eqn:E2.
        injection H as <- <- <-. destruct Hreach as [Hr|Hr]; [discriminate|].
        eapply Hrest; eauto.
  - (* an earlier item *)
    rewrite send_loop_step in H by exact Hlt.
    destruct (retry pk sets cfg ledger i _ 1 0 _ st) as [[[r n] st1] evs1] eqn:E.
    pose proof E as Hobs. apply retry_observed in Hobs.
    destruct Hobs as (Hp & _ & Hfa & Hother & _).
    destruct (@retry_calm slot0 i Hsent Hpoll _ _ _ _ _ _ _ _ _ E Hslot)
      as (Hslot1 & _).
    assert (Hnot1 : ~ In (EvSubmit k t0) evs1).
    { intros Hin. apply submitted_at_in in Hin.
      rewrite (Hother k) in Hin by congruence. destruct Hin. }
    assert (Hp1 : Forall (fun j => j < k) (progress_indices evs1)).
    { rewrite Hp. destruct r; repeat constructor. lia. }
    assert (Hs1 : submitted_at k evs1 = []) by (apply Hother; congruence).
    destruct r as [|error].
    + destruct (send_loop pk sets cfg ledger fuel (S i) st1)
        as [[o2 st2] evs2] eqn:E2.
      injection H as <- <- <-.
      apply in_app_iff in Hreach. destruct Hreach as [Hr|Hr]; [contradiction|].
      destruct (IH _ _ _ _ _ E2 Hslot1) as (F & S2 & P); [lia|eauto|].
      rewrite failures_at_app, submitted_at_app, progress_indices_app.
      rewrite Hfa, Hs1. simpl. split; [exact F|]. split; [exact S2|].
      intros Hab. apply Forall_app; auto.
    + assert (HF : failures_at k [onFailure sets error i st1] = []).
      { simpl. destruct (Nat.eqb_spec i k); [congruence|reflexivity]. }
      destruct (abortOnFailure cfg).
      * injection H as <- <- <-.
        apply in_app_iff in Hreach.
        destruct Hreach as [Hr|[Hr|[]]]; [contradiction|discriminate].
      * destruct (send_loop pk sets cfg ledger fuel (S i) st1)
          as [[o2 st2] evs2] eqn:E2.
        injection H as <- <- <-.
        apply in_app_iff in Hreach.
        destruct Hreach as [Hr|[Hr|Hr]]; [contradiction|discriminate|].
        destruct (IH _ _ _ _ _ E2 Hslot1) as (F & S2 & _); [lia|eauto|].
        rewrite failures_at_app, submitted_at_app.
        rewrite Hfa, Hs1. simpl.
        destruct (Nat.eqb_spec i k); [congruence|]. simpl.
        split; [exact F|]. split; [exact S2|discriminate].
Qed.

End Item.

(** ** The whole run *)

Lemma filter_all_kept sets :
  Forall has_instructions sets ->
  filter (fun s => negb (length (instructions s) =? 0)) sets = sets.
Proof.
  induction 1 as [|s l Hs _ IH]; simpl; [reflexivity|].
  unfold has_instructions in Hs.
  destruct (instructions s); [congruence|]. simpl. rewrite IH. reflexivity.
Qed.

Lemma initial_run_signed pk sets ledger :
  signedTXs (initial_run pk sets ledger)
  = map (fun s => Some (buildTransaction pk (snd (baseline0 ledger)) s))
        (filter (fun s => negb (length (instructions s) =? 0)) sets)
  /\ slot (initial_run pk sets ledger) = fst (baseline0 ledger).
Proof.
  unfold initial_run, unsignedTXs. destruct (baseline0 ledger) as [slot0 bh0].
  simpl. rewrite map_map. auto.
Qed.

Lemma initial_run_bound pk sets ledger :
  length (signedTXs (initial_run pk sets ledger)) <= length sets.
Proof.
  destruct (initial_run_signed pk sets ledger) as [-> _].
  rewrite length_map. apply filter_length_le.
Qed.

Lemma initial_run_aligned pk sets ledger :
  Forall has_instructions sets ->
  aligned pk sets (signedTXs (initial_run pk sets ledger)).
Proof.
  intros H. destruct (initial_run_signed pk sets ledger) as [-> _].
  rewrite (filter_all_kept H). unfold aligned.
  induction sets as [|s l IH]; simpl; constructor.
  - eexists. reflexivity.
  - apply IH. inversion H; assumption.
Qed.


Lemma send_body_unfold pk sets cfg ledger :
  send_body pk sets cfg ledger
  = let '(o, st', evs) :=
      send_loop pk sets cfg ledger (length sets) 0 (initial_run pk sets ledger) in
    (o, st',
     [EvGetSlotAndBlockhash; EvSignAll (signedTXs (initial_run pk sets ledger))]
     ++ evs).
Proof. reflexivity. Qed.

(** C4. When every submission of index [k] times out, with
    maxSigningAttempts at least 1:
    - at the loop, in whatever state it reaches index [k] with an envelope
      there, if the polled slot does not pass the window of the baseline,
      the envelope is submitted maxSigningAttempts times and no more (the
      attempt counter ends at maxSigningAttempts), the retry is rejected
      with MAX_RESIGN_ATTEMPTS_REACHED, the failure callback is fired
      exactly once by the iteration of index [k], with that reason,
      progress never fires for [k], and with abortOnFailure the loop stops
      there and fires no progress at all;
    - in a run of [send] in which no slot passes the first window and an
      envelope is submitted for index [k], there are exactly
      maxSigningAttempts submissions for [k], exactly one failure call by
      the iteration of [k], with that reason, and with abortOnFailure
      progress fires for indices below [k] only. *)
Theorem timeouts_end_in_max_attempts pk sets cfg ledger k :
  (1 <= maxSigningAttempts cfg)%Z ->
  (forall n t, exists inner txid,
      sendSignedTransaction (submission ledger k n t)
      = Returns (failed (timeout inner txid))) ->
  let m := Z.to_nat (maxSigningAttempts cfg) in
  (forall fuel st tx,
      js_get (signedTXs st) k = Some tx ->
      (forall n, (polledSlot ledger k n < slot st + 150)%Z) ->
      (exists evs,
          retry pk sets cfg ledger k m 1 0 (Some tx) st
          = (Rejected MAX_RESIGN_ATTEMPTS_REACHED, m, st, evs)
          /\ submitted_at k evs = repeat tx m)
      /\ let '(o, _, evs) := send_loop pk sets cfg ledger (S fuel) k st in
         submitted_at k evs = repeat tx m
         /\ failures_at k evs = [MAX_RESIGN_ATTEMPTS_REACHED]
         /\ ~ In k (progress_indices evs)
         /\ (abortOnFailure cfg = true ->
               o = Resolved
               /\ progress_indices evs = []
               /\ failures evs
                  = [EvFailure MAX_RESIGN_ATTEMPTS_REACHED k (successfulItems st)
                       (js_index sets (Z.of_nat (successfulItems st) - 1))]))
  /\ (forall s,
        wallet_publicKey s = Some pk ->
        sender_instructionSets s = Some sets ->
        sender_configuration s = cfg ->
        (forall j n t txid sl,
            sendSignedTransaction (submission ledger j n t) = Returns (sent txid sl) ->
            (sl < fst (baseline0 ledger) + 150)%Z) ->
        (forall j n, (polledSlot ledger j n < fst (baseline0 ledger) + 150)%Z) ->
        let '(o, evs) := send s ledger in
        (exists t, In (EvSubmit k t) evs) ->
        o = Resolved
        /\ failures_at k evs = [MAX_RESIGN_ATTEMPTS_REACHED]
        /\ length (submitted_at k evs) = m
        /\ (abortOnFailure cfg = true ->
              Forall (fun j => j < k) (progress_indices evs))).
Proof.
  intros Hmax Hto m. split.
  - intros fuel st tx Hget Hslot.
    exact (@stuck_loop pk sets cfg ledger fuel k st tx Hmax Hget Hto Hslot).
  - intros s Hw Hs Hcfg Hsent Hpoll.
    unfold send. rewrite Hw, Hs, Hcfg.
    destruct sets as [|s0 sets']; [intros (t & [])|].
    rewrite send_body_unfold.
    destruct (send_loop pk (s0 :: sets') cfg ledger _ 0 _)
      as [[o st'] evs] eqn:E.
    intros (t & [Hin|[Hin|Hin]]); try discriminate.
    assert (Hres := E). apply send_loop_resolves in Hres;
      [|apply initial_run_bound|lia].
    destruct (@send_loop_reaches_stuck pk (s0 :: sets') cfg ledger
                (fst (baseline0 ledger)) k Hmax Hsent Hpoll Hto
                _ _ _ _ _ _ E) as (F & S2 & P);
      [apply initial_run_signed|lia|eauto|].
    split; [apply Hres|]. split; [exact F|]. split; [exact S2|exact P].
Qed.

Lemma in_order_after_start evs txs :
  submissions_in_order 0 evs ->
  submissions_in_order 0 ([EvGetSlotAndBlockhash; EvSignAll txs] ++ evs).
Proof.
  intros H pre j t post Hev.
  destruct pre as [|a [|b pre]]; try discriminate.
  simpl in Hev. injection Hev as <- <- Hev.
  destruct (H _ _ _ _ Hev) as (Hle & Hprev & Hpost).
  split; [exact Hle|]. split; [|exact Hpost].
  intros Hj. simpl. apply Hprev, Hj.
Qed.

(** C2, as the code has it.  In every run the submissions follow the
    order of the batch: an envelope is submitted for index j only after
    index j-1 was confirmed or given up, and nothing of an earlier index
    follows it.  The envelopes signed at the start are one per instruction
    set that has instructions, in the order of the batch.  When every
    instruction set has instructions there is exactly one envelope per
    instruction set at the start of the run; the two steps that change the
    state, the one after a confirmation and the retry handler, keep it so,
    so that it holds all along and at the end of the run: the envelope at
    position j is built from the set at position j, and so is every
    envelope that is submitted for index j. *)
Theorem envelopes_follow_the_batch pk sets cfg ledger :
  (forall i n txid sl st,
      aligned pk sets (signedTXs st) ->
      aligned pk sets (signedTXs (fst (confirmed pk sets ledger i n txid sl st))))
  /\ (forall i e num tx st,
        aligned pk sets (signedTXs st) ->
        i < length sets ->
        aligned pk sets
          (signedTXs (snd (fst (onRetry pk sets ledger i e num tx st)))))
  /\ let '(_, st', evs) := send_body pk sets cfg ledger in
     submissions_in_order 0 evs
     /\ signedTXs (initial_run pk sets ledger)
        = map (fun s => Some (buildTransaction pk (snd (baseline0 ledger)) s))
              (filter (fun s => negb (length (instructions s) =? 0)) sets)
     /\ (Forall has_instructions sets ->
           aligned pk sets (signedTXs (initial_run pk sets ledger))
           /\ aligned pk sets (signedTXs st')
           /\ forall j t, In (EvSubmit j t) evs ->
                exists bh s, nth_error sets j = Some s
                             /\ t = buildTransaction pk bh s).
Proof.
  split; [intros i n txid sl st; apply confirmed_aligned|].
  split; [intros i e num tx st Ha Hi; apply onRetry_keeps_aligned; assumption|].
  rewrite send_body_unfold.
  destruct (send_loop pk sets cfg ledger (length sets) 0 (initial_run pk sets ledger))
    as [[o st'] evs] eqn:E.
  split; [|split].
  - apply in_order_after_start. eapply send_loop_in_order. exact E.
  - apply initial_run_signed.
  - intros Hall. pose proof (initial_run_aligned pk ledger Hall) as Ha.
    assert (Hal := E). apply send_loop_aligned in Hal; [|exact Ha].
    destruct Hal as (Ha' & Hin).
    split; [exact Ha|]. split; [exact Ha'|].
    intros j t [Hj|[Hj|Hj]]; try discriminate. apply Hin, Hj.
Qed.

(** C2, as it is stated, fails for a batch that holds an instruction set
    without instructions: of the batch (setE, setA) one envelope is signed,
    it sits at position 0 and is built from the set at position 1. *)
Lemma empty_set_shifts_the_envelopes :
  let st := initial_run "payer" [setE; setA] ledger_calm in
  ~ aligned "payer" [setE; setA] (signedTXs st)
  /\ length (signedTXs st) = 1
  /\ js_get (signedTXs st) 0 = Some (buildTransaction "payer" "h0" setA)
  /\ In (EvSubmit 0 (buildTransaction "payer" "h0" setA))
        (snd (send (sender 3 true [setE; setA]) ledger_calm)).
Proof.
  simpl. split; [|split; [reflexivity|split; [reflexivity|]]].
  - intros H. apply Forall2_length in H. discriminate.
  - vm_compute. auto.
Qed.



(** C1.  The failure callback is called with the loop index as second
    argument, the count of confirmed items as third and, as fourth, the
    instruction set at position count - 1.  With maxSigningAttempts = 1
    and item 0 timing out the call is (error, 0, 0, undefined); when item 0
    is given up and the run goes on, the call for item 1 is
    (error, 1, 0, undefined); when item 0 was confirmed and item 1 times
    out, the call is (error, 1, 1, item 0). *)
Theorem failure_callback_arguments :
  failures (snd (send (sender 1 true [setA; setB]) ledger_stuck))
  = [EvFailure MAX_RESIGN_ATTEMPTS_REACHED 0 0 None]
  /\ failures (snd (send (sender 1 false [setA; setB]) ledger_stuck))
     = [EvFailure MAX_RESIGN_ATTEMPTS_REACHED 0 0 None;
        EvFailure MAX_RESIGN_ATTEMPTS_REACHED 1 0 None]
  /\ failures (snd (send (sender 1 true [setA; setB]) ledger_stuck_after_first))
     = [EvFailure MAX_RESIGN_ATTEMPTS_REACHED 1 1 (Some setA)].
Proof. repeat split; vm_compute; reflexivity. Qed.

(** ** The theorems at work on the sample batch *)

Lemma missing_record_means_slot_zero_witness :
  sendSignedTransaction rpc_no_record = Returns (sent "sig" 0%Z)
  /\ retry "payer" [setA; setB] (config 3 true) ledger_no_record 0 3 1 0
       (Some envA) (run0 [Some envA; Some envB])
     = (Fulfilled, 1, bump (run0 [Some envA; Some envB]),
        [EvSubmit 0 envA; EvProgress 0 "sig"]).
Proof.
  destruct (@missing_record_means_slot_zero
              "payer" [setA; setB] (config 3 true) ledger_no_record
              rpc_no_record "sig" eq_refl eq_refl eq_refl) as [H1 H2].
  split; [exact H1|]. apply H2; [reflexivity|simpl; lia].
Defined.

Lemma rejected_is_not_retried_witness :
  retry "payer" [setA; setB] (config 3 true) ledger_rejecting 0 3 1 0
    (Some envA) (run0 [Some envA; Some envB])
  = (Rejected (send_error (tx_error "InstructionError" "sig")), 1,
     run0 [Some envA; Some envB], [EvSubmit 0 envA]).
Proof.
  apply (proj1 (@rejected_is_not_retried
                  "payer" [setA; setB] (config 3 true) ledger_rejecting
                  0 envA (run0 [Some envA; Some envB])
                  (send_error (tx_error "InstructionError" "sig"))));
    reflexivity.
Defined.

Lemma timeouts_end_in_max_attempts_witness :
  (let '(o, _, evs) :=
     send_loop "payer" [setA; setB] (config 3 true) ledger_stuck 2 0
       (run0 [Some envA; Some envB]) in
   submitted_at 0 evs = [envA; envA; envA]
   /\ failures_at 0 evs = [MAX_RESIGN_ATTEMPTS_REACHED]
   /\ o = Resolved
   /\ progress_indices evs = [])
  /\ (let '(o, evs) := send (sender 3 true [setA; setB]) ledger_stuck_after_first in
      o = Resolved
      /\ failures_at 1 evs = [MAX_RESIGN_ATTEMPTS_REACHED]
      /\ length (submitted_at 1 evs) = 3
      /\ Forall (fun j => j < 1) (progress_indices evs)).
Proof.
  assert (Hto : forall k, k <> 0 -> forall n t, exists inner txid,
             sendSignedTransaction (submission ledger_stuck_after_first k n t)
             = Returns (failed (timeout inner txid))).
  { intros k Hk n t. simpl. destruct (Nat.eqb_spec k 0); [contradiction|].
    eexists; eexists; reflexivity. }
  assert (Hto0 : forall n t, exists inner txid,
             sendSignedTransaction (submission ledger_stuck 0 n t)
             = Returns (failed (timeout inner txid)))
    by (intros n t; eexists; eexists; reflexivity).
  split.
  - destruct (@timeouts_end_in_max_attempts
                "payer" [setA; setB] (config 3 true) ledger_stuck 0
                ltac:(simpl; lia) Hto0) as [H _].
    destruct (H 1 (run0 [Some envA; Some envB]) envA eq_refl
                ltac:(intros n; simpl; lia)) as [_ H1].
    destruct (send_loop _ _ _ _ _ _ _) as [[o st'] evs].
    destruct H1 as (Hs & Hf & _ & Habort).
    destruct (Habort eq_refl) as (Ho & Hp & _).
    split; [exact Hs|]. split; [exact Hf|]. split; [exact Ho|exact Hp].
  - destruct (@timeouts_end_in_max_attempts
                "payer" [setA; setB] (config 3 true) ledger_stuck_after_first 1
                ltac:(simpl; lia) (Hto 1 ltac:(discriminate))) as [_ H].
    specialize (H (sender 3 true [setA; setB]) eq_refl eq_refl eq_refl).
    assert (Hsent : forall j n t txid sl,
               sendSignedTransaction (submission ledger_stuck_after_first j n t)
               = Returns (sent txid sl) ->
               (sl < fst (baseline0 ledger_stuck_after_first) + 150)%Z).
    { intros j n t txid sl. simpl. destruct (j =? 0); vm_compute; intros E.
      - injection E as _ <-. reflexivity.
      - discriminate. }
    specialize (H Hsent ltac:(intros j n; reflexivity)).
    destruct (send _ _) as [o evs] eqn:E.
    destruct H as (Ho & Hf & Hs & Hp).
    + exists envB. vm_compute in E. injection E as _ <-. simpl. auto 10.
    + split; [exact Ho|]. split; [exact Hf|]. split; [exact Hs|].
      apply Hp. reflexivity.
Defined.

Lemma envelopes_follow_the_batch_witness :
  Forall has_instructions [setA; setB]
  /\ aligned "payer" [setA; setB]
       (signedTXs (initial_run "payer" [setA; setB] ledger_late))
  /\ aligned "payer" [setA; setB]
       (signedTXs (snd (fst (send_body "payer" [setA; setB] (config 3 true)
                               ledger_late)))).
Proof.
  assert (Hall : Forall has_instructions [setA; setB])
    by (repeat constructor; discriminate).
  split; [exact Hall|].
  pose proof (envelopes_follow_the_batch
                "payer" [setA; setB] (config 3 true) ledger_late) as H.
  destruct H as (_ & _ & H).
  destruct (send_body _ _ _ _) as [[o st'] evs].
  destruct H as (_ & _ & H). destruct (H Hall) as (H0 & H1 & _).
  split; [exact H0|exact H1].
Defined.


(** * More of the package *)

(** ** tools/connectionTools.ts *)

Lemma prefix_spec needle : forall haystack,
  String.prefix needle haystack = true
  <-> exists post, haystack = (needle ++ post)%string.
Proof.
  induction needle as [|a needle IH]; intros haystack.
  - split; [intros _; exists haystack; reflexivity|].
    intros _. destruct haystack; reflexivity.
  - destruct haystack as [|b haystack]; simpl.
    + split; [discriminate|intros (post & H); discriminate].
    + destruct (Ascii.ascii_dec a b) as [->|Hne].
      * rewrite IH. split; intros (post & H); exists post.
        -- rewrite H. reflexivity.
        -- injection H as H. exact H.
      * split; [discriminate|]. intros (post & H). injection H as H _. congruence.
Qed.

Lemma includes_eq needle haystack :
  includes needle haystack
  = if String.prefix needle haystack then true
    else match haystack with
         | EmptyString => false
         | String _ rest => includes needle rest
         end.
Proof. destruct haystack; reflexivity. Qed.

Lemma includes_spec needle : forall haystack,
  includes needle haystack = true
  <-> exists pre post, haystack = (pre ++ needle ++ post)%string.
Proof.
  induction haystack as [|b haystack IH]; rewrite includes_eq;
    destruct (String.prefix needle _) eqn:E.
  - split; [intros _|reflexivity].
    apply prefix_spec in E. destruct E as (post & E). exists "", post. exact E.
  - split; [discriminate|]. intros (pre & post & H).
    destruct pre; [|discriminate].
    assert (String.prefix needle "" = true)
      by (apply prefix_spec; exists post; exact H).
    congruence.
  - split; [intros _|reflexivity].
    apply prefix_spec in E. destruct E as (post & E). exists "", post. exact E.
  - rewrite IH. split.
    + intros (pre & post & H). exists (String b pre), post. rewrite H. reflexivity.
    + intros (pre & post & H). destruct pre as [|c pre].
      * assert (String.prefix needle (String b haystack) = true)
          by (apply prefix_spec; exists post; exact H).
        congruence.
      * injection H as _ H. exists pre, post. exact H.
Qed.

(** X1. An exception of the send-and-confirm step is reported as a timeout
    exactly when its message contains the text "Transaction was not
    confirmed in" somewhere, and as a miscellaneous error otherwise; the
    message and the transaction id are passed on unchanged. *)
Theorem classify_by_message message txid :
  ((exists pre post,
       message = (pre ++ "Transaction was not confirmed in" ++ post)%string) ->
     classify message txid = timeout message txid)
  /\ (~ (exists pre post,
           message = (pre ++ "Transaction was not confirmed in" ++ post)%string) ->
        classify message txid = misc_error message txid).
Proof.
  unfold classify. split; intros H.
  - apply includes_spec in H. rewrite H. reflexivity.
  - destruct (includes _ message) eqn:E; [|reflexivity].
    apply includes_spec in E. contradiction.
Qed.

(** X2. [sendAndConfirmRawTransactionEx] succeeds exactly when the
    transaction was sent and confirmed without an error; a tx-error comes
    only from a confirmation that carries an error, never from an
    exception, and names the transaction that was sent; and an error object
    lacks a transaction id exactly when sending itself threw. *)
Theorem send_and_confirm_outcomes c :
  (forall txid,
      sendAndConfirmRawTransactionEx c = ok txid
      <-> sendRawTransaction c = Returns txid
          /\ confirmTransaction c = Returns None)
  /\ (forall inner txid,
        sendAndConfirmRawTransactionEx c = err (tx_error inner txid)
        <-> sendRawTransaction c = Returns txid
            /\ confirmTransaction c = Returns (Some inner))
  /\ (forall e,
        sendAndConfirmRawTransactionEx c = err e ->
        (error_txid e = None <-> exists m, sendRawTransaction c = Throws m)).
Proof.
  unfold sendAndConfirmRawTransactionEx, classify.
  destruct (sendRawTransaction c) as [t|m];
    [destruct (confirmTransaction c) as [[e0|]|m]|];
    repeat split; intros;
    repeat match goal with
           | H : _ /\ _ |- _ => destruct H
           | H : exists _, _ |- _ => destruct H
           | H : context [if ?b then _ else _] |- _ => destruct b
           | |- context [if ?b then _ else _] => destruct b
           end;
    try discriminate; try congruence; eauto;
    try (match goal with H : err _ = err _ |- _ => injection H as <- end;
         simpl in *; try discriminate; eauto).
Qed.

(** ** SmartInstructionSender.ts: every run of the loop *)

Section Coverage.

Variable pk : PublicKey.
Variable sets : list InstructionSet.
Variable cfg : SmartInstructionSenderConfiguration.
Variable ledger : Ledger.

(** Case analysis on the attempts on item [i], following [retry]. *)
Lemma retry_cases i
  (P : nat -> nat -> nat -> option Transaction -> Run ->
       Settled -> nat -> Run -> list Event -> Prop) :
  (forall retries num rn tx st txid sl sent_evs,
      submit ledger i (S rn) tx = (inl (txid, sl), sent_evs) ->
      P retries num rn tx st Fulfilled (S rn)
        (fst (confirmed pk sets ledger i (S rn) txid sl st))
        (sent_evs ++ snd (confirmed pk sets ledger i (S rn) txid sl st))) ->
  (forall retries num rn tx st e sent_evs,
      submit ledger i (S rn) tx = (inr e, sent_evs) ->
      is_timeout e = true ->
      (maxSigningAttempts cfg <= Z.of_nat (S rn))%Z ->
      P retries num rn tx st (Rejected MAX_RESIGN_ATTEMPTS_REACHED) (S rn) st
        sent_evs) ->
  (forall retries num rn tx st e sent_evs,
      submit ledger i (S rn) tx = (inr e, sent_evs) ->
      is_timeout e = false ->
      P retries num rn tx st (Rejected e) (S rn) st sent_evs) ->
  (forall num rn tx st e sent_evs,
      submit ledger i (S rn) tx = (inr e, sent_evs) ->
      is_timeout e = true ->
      (Z.of_nat (S rn) < maxSigningAttempts cfg)%Z ->
      P 0 num rn tx st (Rejected e) (S rn) st sent_evs) ->
  (forall retries num rn tx st e sent_evs tx' st' evs r k st'' evs',
      submit ledger i (S rn) tx = (inr e, sent_evs) ->
      is_timeout e = true ->
      (Z.of_nat (S rn) < maxSigningAttempts cfg)%Z ->
      onRetry pk sets ledger i e num tx st = (tx', st', evs) ->
      retry pk sets cfg ledger i retries (S num) (S rn) tx' st' = (r, k, st'', evs') ->
      P retries (S num) (S rn) tx' st' r k st'' evs' ->
      P (S retries) num rn tx st r k st'' (sent_evs ++ evs ++ evs')) ->
  forall retries num rn tx st r k st' evs,
    retry pk sets cfg ledger i retries num rn tx st = (r, k, st', evs) ->
    P retries num rn tx st r k st' evs.
Proof.
  intros Hok Hmax Hother Hout Hstep.
  induction retries as [|retries IH]; intros num rn tx st r k st' evs;
    rewrite retry_eq; cbv zeta;
    destruct (submit ledger i (S rn) tx) as [[[txid sl]|e] sent_evs] eqn:Es.
  1,3: destruct (confirmed pk sets ledger i (S rn) txid sl st) as [st1 evs1] eqn:Ec;
       intros H; injection H as <- <- <- <-;
       replace st1 with (fst (confirmed pk sets ledger i (S rn) txid sl st))
         by (rewrite Ec; reflexivity);
       replace evs1 with (snd (confirmed pk sets ledger i (S rn) txid sl st))
         by (rewrite Ec; reflexivity);
       apply Hok; exact Es.
  - destruct (is_timeout e) eqn:Et;
      destruct (Z.of_nat (S rn) >=? maxSigningAttempts cfg)%Z eqn:Hge;
      rewrite Z.geb_leb in Hge; cbn [andb]; cbv iota;
      intros H; injection H as <- <- <- <-.
    + apply Z.leb_le in Hge. eapply Hmax; eauto.
    + apply Z.leb_gt in Hge. eapply Hout; eauto.
    + apply Hother; auto.
    + apply Hother; auto.
  - destruct (is_timeout e) eqn:Et;
      destruct (Z.of_nat (S rn) >=? maxSigningAttempts cfg)%Z eqn:Hge;
      rewrite Z.geb_leb in Hge; cbn [andb]; cbv iota.
    + intros H; injection H as <- <- <- <-.
      apply Z.leb_le in Hge. eapply Hmax; eauto.
    + apply Z.leb_gt in Hge.
      destruct (onRetry pk sets ledger i e num tx st) as [[tx1 st1] evs1] eqn:Eo.
      destruct (retry pk sets cfg ledger i retries (S num) (S rn) tx1 st1)
        as [[[r2 k2] st2] evs2] eqn:E.
      intros H; injection H as <- <- <- <-.
      eapply Hstep; eauto.
    + intros H; injection H as <- <- <- <-. apply Hother; auto.
    + intros H; injection H as <- <- <- <-. apply Hother; auto.
Qed.

(** Case analysis on the loop, following [send_loop], for a loop that did
    not run out of fuel. *)
Lemma send_loop_cases (P : nat -> Run -> Run -> list Event -> Prop) :
  (forall i st, length (signedTXs st) <= i -> P i st st []) ->
  (forall i st k st1 evs1 st2 evs2,
      i < length (signedTXs st) ->
      retry pk sets cfg ledger i (Z.to_nat (maxSigningAttempts cfg)) 1 0
        (js_get (signedTXs st) i) st = (Fulfilled, k, st1, evs1) ->
      Forall (fun e => from_item (S i) e = true) evs2 ->
      P (S i) st1 st2 evs2 ->
      P i st st2 (evs1 ++ evs2)) ->
  (forall i st error k st1 evs1,
      i < length (signedTXs st) ->
      retry pk sets cfg ledger i (Z.to_nat (maxSigningAttempts cfg)) 1 0
        (js_get (signedTXs st) i) st = (Rejected error, k, st1, evs1) ->
      abortOnFailure cfg = true ->
      P i st st1 (evs1 ++ [onFailure sets error i st1])) ->
  (forall i st error k st1 evs1 st2 evs2,
      i < length (signedTXs st) ->
      retry pk sets cfg ledger i (Z.to_nat (maxSigningAttempts cfg)) 1 0
        (js_get (signedTXs st) i) st = (Rejected error, k, st1, evs1) ->
      abortOnFailure cfg = false ->
      Forall (fun e => from_item (S i) e = true) evs2 ->
      P (S i) st1 st2 evs2 ->
      P i st st2 (evs1 ++ [onFailure sets error i st1] ++ evs2)) ->
  forall fuel i st o st' evs,
    send_loop pk sets cfg ledger fuel i st = (o, st', evs) ->
    o <> OutOfFuel ->
    P i st st' evs.
Proof.
  intros Hdone Hok Habort Hgo.
  induction fuel as [|fuel IH]; intros i st o st' evs H Ho.
  { destruct (le_lt_dec (length (signedTXs st)) i) as [Hd|Hlt].
    - rewrite send_loop_done in H by lia. injection H as <- <- <-. auto.
    - simpl in H. destruct (Nat.ltb_spec i (length (signedTXs st))); [|lia].
      injection H as <- <- <-. congruence. }
  destruct (le_lt_dec (length (signedTXs st)) i) as [Hd|Hlt].
  { rewrite send_loop_done in H by lia. injection H as <- <- <-. auto. }
  rewrite send_loop_step in H by exact Hlt.
  destruct (retry pk sets cfg ledger i _ 1 0 _ st) as [[[r k] st1] evs1] eqn:E.
  destruct r as [|error].
  - destruct (send_loop pk sets cfg ledger fuel (S i) st1)
      as [[o2 st2] evs2] eqn:E2.
    injection H as <- <- <-.
    eapply Hok; eauto. eapply send_loop_from_item; exact E2.
  - destruct (abortOnFailure cfg) eqn:Ea.
    + injection H as <- <- <-. eapply Habort; eauto.
    + destruct (send_loop pk sets cfg ledger fuel (S i) st1)
        as [[o2 st2] evs2] eqn:E2.
      injection H as <- <- <-.
      eapply Hgo; eauto. eapply send_loop_from_item; exact E2.
Qed.

(** The loop of [send_body] does not run out of fuel. *)
Lemma send_body_loop :
  exists st' evs,
    send_loop pk sets cfg ledger (length sets) 0 (initial_run pk sets ledger)
    = (Resolved, st', evs)
    /\ send_body pk sets cfg ledger
       = (Resolved, st',
          [EvGetSlotAndBlockhash; EvSignAll (signedTXs (initial_run pk sets ledger))]
          ++ evs).
Proof.
  rewrite send_body_unfold.
  destruct (send_loop pk sets cfg ledger (length sets) 0 (initial_run pk sets ledger))
    as [[o st'] evs] eqn:E.
  assert (Hr := E). apply send_loop_resolves in Hr;
    [|apply initial_run_bound|lia].
  destruct Hr as [-> _]. eauto.
Qed.

(** *** The events and the state of the single steps *)

Lemma confirmed_shape i n txid sl st :
  confirmed pk sets ledger i n txid sl st = (bump st, [EvProgress i txid])
  \/ (i + 1 < length (signedTXs st)
      /\ exists newSlot newBlock,
           confirmed pk sets ledger i n txid sl st
           = ({| slot := newSlot; currentBlock := newBlock;
                 signedTXs := rebuild_loop pk sets newBlock (i + 1) (signedTXs st);
                 successfulItems := S (successfulItems st) |},
              [EvProgress i txid; EvGetSlotAndBlockhash; EvReSign 0 (i + 1);
               EvSignAll (skipn (i + 1)
                            (rebuild_loop pk sets newBlock (i + 1) (signedTXs st)))])).
Proof.
  unfold confirmed, signAndRebuildTransactionsFromInstructionSets.
  rewrite slice_nonempty.
  destruct (isExpired sl (slot st)); [|left; reflexivity].
  destruct (Nat.ltb_spec (i + 1) (length (signedTXs st))); [|left; reflexivity].
  destruct (refreshed ledger i n) as [newSlot newBlock].
  right. split; [assumption|]. exists newSlot, newBlock. reflexivity.
Qed.

Lemma onRetry_shape i e num tx st :
  onRetry pk sets ledger i e num tx st = (tx, st, [])
  \/ onRetry pk sets ledger i e num tx st = (tx, st, [EvGetSlot])
  \/ exists newSlot newBlock,
       onRetry pk sets ledger i e num tx st
       = (js_get (rebuild_loop pk sets newBlock i (signedTXs st)) i,
          {| slot := newSlot; currentBlock := newBlock;
             signedTXs := rebuild_loop pk sets newBlock i (signedTXs st);
             successfulItems := successfulItems st |},
          [EvGetSlot; EvGetSlotAndBlockhash; EvReSign num i;
           EvSignAll (skipn i (rebuild_loop pk sets newBlock i (signedTXs st)))]).
Proof.
  unfold onRetry, signAndRebuildTransactionsFromInstructionSets, js_slice_from.
  destruct (is_timeout e); [|left; reflexivity].
  destruct (isExpired _ _); [|right; left; reflexivity].
  destruct (refreshed ledger i num) as [newSlot newBlock].
  right; right. exists newSlot, newBlock.
  replace (js_get (skipn i (rebuild_loop pk sets newBlock i (signedTXs st))) 0)
    with (js_get (rebuild_loop pk sets newBlock i (signedTXs st)) i)
    by (unfold js_get; rewrite nth_error_skipn, Nat.add_0_r; reflexivity).
  reflexivity.
Qed.

Lemma confirmed_not_submitting i n txid sl st j :
  submitted_at j (snd (confirmed pk sets ledger i n txid sl st)) = [].
Proof.
  destruct (confirmed_shape i n txid sl st) as [->|(_ & a & b & ->)]; reflexivity.
Qed.

Lemma onRetry_not_submitting i e num tx st j :
  submitted_at j (snd (onRetry pk sets ledger i e num tx st)) = [].
Proof.
  destruct (onRetry_shape i e num tx st) as [->|[->|(a & b & ->)]]; reflexivity.
Qed.

(** *** Facts on the events of a run *)

Lemma from_item_not_submitted i j evs :
  Forall (fun e => from_item i e = true) evs -> j < i ->
  submitted_at j evs = [].
Proof. intros H Hj. apply (from_item_earlier H Hj). Qed.

Lemma no_failures_no_failure evs error a b c :
  failures evs = [] -> ~ In (EvFailure error a b c) evs.
Proof.
  intros H Hin.
  assert (In (EvFailure error a b c) (failures evs))
    by (apply filter_In; auto).
  rewrite H in *. contradiction.
Qed.

Lemma from_item_progress i evs :
  Forall (fun e => from_item i e = true) evs ->
  Forall (fun j => i <= j) (progress_indices evs).
Proof.
  induction 1 as [|e l He _ IH]; [constructor|].
  destruct e; simpl in *; auto. constructor; [apply Nat.leb_le, He|exact IH].
Qed.

Lemma rebuild_loop_grows bh index txs :
  length txs <= length (rebuild_loop pk sets bh index txs).
Proof.
  unfold rebuild_loop.
  destruct (le_lt_dec index (length sets)) as [Hle|Hgt].
  - rewrite rebuild_fold_length by lia.
    destruct (length sets - index); lia.
  - replace (length sets - index) with 0 by lia. simpl. lia.
Qed.

(** *** The arguments of the re-sign callback *)

Lemma retry_resign_range i retries num rn tx st r k st' evs :
  retry pk sets cfg ledger i retries num rn tx st = (r, k, st', evs) ->
  num = S rn ->
  length (signedTXs st) <= length sets ->
  i < length sets ->
  Forall (resign_in_range cfg (length sets)) evs.
Proof.
  intros H Hn Hb Hi. revert retries num rn tx st r k st' evs H Hn Hb.
  assert (Hsent : forall n tx,
             Forall (resign_in_range cfg (length sets)) (snd (submit ledger i n tx)))
    by (intros n [t|]; repeat constructor).
  apply (@retry_cases i
           (fun retries num rn tx st r k st' evs =>
              num = S rn ->
              length (signedTXs st) <= length sets ->
              Forall (resign_in_range cfg (length sets)) evs)).
  - intros retries num rn tx st txid sl sent_evs Hs _ Hb.
    pose proof (Hsent (S rn) tx) as H0. rewrite Hs in H0.
    apply Forall_app; split; [exact H0|].
    destruct (confirmed_shape i (S rn) txid sl st) as [->|(Hlt & a & b & ->)];
      simpl snd.
    + constructor; [exact I|constructor].
    + constructor; [exact I|]. constructor; [exact I|].
      constructor; [simpl; split; [lia|left; lia]|].
      constructor; [exact I|constructor].
  - intros retries num rn tx st e sent_evs Hs _ _ _ _.
    pose proof (Hsent (S rn) tx) as H0. rewrite Hs in H0. exact H0.
  - intros retries num rn tx st e sent_evs Hs _ _ _.
    pose proof (Hsent (S rn) tx) as H0. rewrite Hs in H0. exact H0.
  - intros num rn tx st e sent_evs Hs _ _ _ _.
    pose proof (Hsent (S rn) tx) as H0. rewrite Hs in H0. exact H0.
  - intros retries num rn tx st e sent_evs tx' st' evs r k st'' evs'
      Hs _ Hlt Ho _ IH -> Hb.
    pose proof (Hsent (S rn) tx) as H0. rewrite Hs in H0.
    apply Forall_app; split; [exact H0|].
    destruct (onRetry_shape i e (S rn) tx st) as [H|[H|(a & b & H)]];
      rewrite H in Ho; injection Ho as _ <- <-; simpl app.
    + apply IH; [reflexivity|assumption].
    + constructor; [exact I|]. apply IH; [reflexivity|assumption].
    + constructor; [exact I|]. constructor; [exact I|].
      constructor; [simpl; split; [lia|right; lia]|].
      constructor; [exact I|]. apply IH; [reflexivity|]. simpl.
      pose proof (rebuild_loop_length pk sets b i (signedTXs st)). lia.
Qed.

Lemma send_loop_resign_range fuel i st o st' evs :
  send_loop pk sets cfg ledger fuel i st = (o, st', evs) ->
  o <> OutOfFuel ->
  length (signedTXs st) <= length sets ->
  Forall (resign_in_range cfg (length sets)) evs.
Proof.
  revert fuel i st o st' evs.
  apply (send_loop_cases
           (fun i st st' evs =>
              length (signedTXs st) <= length sets ->
              Forall (resign_in_range cfg (length sets)) evs)).
  - constructor.
  - intros i st k st1 evs1 st2 evs2 Hlt E _ IH Hb.
    assert (Hb1 := E). apply retry_bound in Hb1; [|exact Hb].
    apply Forall_app; split; [|auto].
    eapply retry_resign_range; [exact E|reflexivity|exact Hb|lia].
  - intros i st error k st1 evs1 Hlt E _ Hb.
    apply Forall_app; split; [|repeat constructor].
    eapply retry_resign_range; [exact E|reflexivity|exact Hb|lia].
  - intros i st error k st1 evs1 st2 evs2 Hlt E _ _ IH Hb.
    assert (Hb1 := E). apply retry_bound in Hb1; [|exact Hb].
    apply Forall_app; split;
      [eapply retry_resign_range; [exact E|reflexivity|exact Hb|lia]|].
    constructor; [exact I|auto].
Qed.

(** *** Where the envelopes come from *)

Lemma Forall_firstn_keeps {A} (Q : A -> Prop) n : forall l,
  Forall Q l -> Forall Q (firstn n l).
Proof.
  induction n as [|n IH]; intros l H; simpl; [constructor|].
  destruct H; constructor; auto.
Qed.

Lemma in_skipn_in {A} (l : list A) n x : In x (skipn n l) -> In x l.
Proof.
  intros H. rewrite <- (firstn_skipn n l). apply in_app_iff. auto.
Qed.

Lemma rebuild_from_batch bh index txs :
  Forall (from_batch pk sets) txs ->
  index <= length txs ->
  length txs <= length sets ->
  Forall (from_batch pk sets) (rebuild_loop pk sets bh index txs).
Proof.
  intros H Hi Hl. rewrite rebuild_loop_dense by assumption.
  apply Forall_app; split; [apply Forall_firstn_keeps, H|].
  apply Forall_forall. intros o Ho. apply in_map_iff in Ho.
  destruct Ho as (s & <- & Hs). exists bh, s.
  split; [eapply in_skipn_in; exact Hs|reflexivity].
Qed.

Lemma from_batch_get txs i :
  Forall (from_batch pk sets) txs -> i < length txs ->
  exists t, js_get txs i = Some t /\ from_batch pk sets (Some t).
Proof.
  intros H Hi. destruct (nth_error txs i) as [o|] eqn:E;
    [|apply nth_error_None in E; lia].
  rewrite Forall_forall in H. pose proof (H o (nth_error_In _ _ E)) as Ho.
  destruct Ho as (bh & s & Hs & ->). unfold js_get. rewrite E.
  eexists. split; [reflexivity|]. exists bh, s. auto.
Qed.

Lemma retry_from_batch i retries num rn tx st r k st' evs :
  retry pk sets cfg ledger i retries num rn tx st = (r, k, st', evs) ->
  length (signedTXs st) <= length sets ->
  i < length (signedTXs st) ->
  Forall (from_batch pk sets) (signedTXs st) ->
  (exists t, tx = Some t /\ from_batch pk sets (Some t)) ->
  Forall (from_batch pk sets) (signedTXs st')
  /\ (forall t, In t (submitted_at i evs) -> from_batch pk sets (Some t))
  /\ submitted_at i evs <> [].
Proof.
  revert retries num rn tx st r k st' evs.
  assert (Hsent : forall n t, from_batch pk sets (Some t) ->
             forall sent_evs res, submit ledger i n (Some t) = (res, sent_evs) ->
             submitted_at i sent_evs = [t]).
  { intros n t _ sent_evs res H. unfold submit in H. injection H as _ <-.
    simpl. rewrite Nat.eqb_refl. reflexivity. }
  apply (@retry_cases i
           (fun retries num rn tx st r k st' evs =>
              length (signedTXs st) <= length sets ->
              i < length (signedTXs st) ->
              Forall (from_batch pk sets) (signedTXs st) ->
              (exists t, tx = Some t /\ from_batch pk sets (Some t)) ->
              Forall (from_batch pk sets) (signedTXs st')
              /\ (forall t, In t (submitted_at i evs) -> from_batch pk sets (Some t))
              /\ submitted_at i evs <> [])).
  - intros retries num rn tx st txid sl sent_evs Hs Hb Hi Hall (t & -> & Ht).
    rewrite submitted_at_app, confirmed_not_submitting, app_nil_r.
    rewrite (Hsent _ _ Ht _ _ Hs). split; [|split; [|discriminate]].
    + destruct (confirmed_shape i (S rn) txid sl st) as [->|(Hlt & a & b & ->)];
        simpl; [exact Hall|]. apply rebuild_from_batch; [exact Hall|lia|exact Hb].
    + intros t' [<-|[]]. exact Ht.
  - intros retries num rn tx st e sent_evs Hs _ _ Hb Hi Hall (t & -> & Ht).
    rewrite (Hsent _ _ Ht _ _ Hs). split; [exact Hall|split; [|discriminate]].
    intros t' [<-|[]]. exact Ht.
  - intros retries num rn tx st e sent_evs Hs _ Hb Hi Hall (t & -> & Ht).
    rewrite (Hsent _ _ Ht _ _ Hs). split; [exact Hall|split; [|discriminate]].
    intros t' [<-|[]]. exact Ht.
  - intros num rn tx st e sent_evs Hs _ _ Hb Hi Hall (t & -> & Ht).
    rewrite (Hsent _ _ Ht _ _ Hs). split; [exact Hall|split; [|discriminate]].
    intros t' [<-|[]]. exact Ht.
  - intros retries num rn tx st e sent_evs tx' st' evs r k st'' evs'
      Hs _ _ Ho _ IH Hb Hi Hall (t & -> & Ht).
    rewrite !submitted_at_app, (Hsent _ _ Ht _ _ Hs).
    pose proof (onRetry_not_submitting i e num (Some t) st i) as Hq.
    rewrite Ho in Hq. simpl in Hq. rewrite Hq. simpl.
    assert (Hnext : length (signedTXs st') <= length sets
                    /\ i < length (signedTXs st')
                    /\ Forall (from_batch pk sets) (signedTXs st')
                    /\ exists t', tx' = Some t' /\ from_batch pk sets (Some t')).
    { destruct (onRetry_shape i e num (Some t) st) as [H|[H|(a & b & H)]];
        rewrite H in Ho; injection Ho as <- <- _; simpl; eauto 6.
      pose proof (rebuild_loop_length pk sets b i (signedTXs st)).
      pose proof (rebuild_loop_grows b i (signedTXs st)).
      assert (Hf : Forall (from_batch pk sets)
                     (rebuild_loop pk sets b i (signedTXs st)))
        by (apply rebuild_from_batch; [exact Hall|lia|exact Hb]).
      split; [lia|]. split; [lia|]. split; [exact Hf|].
      apply from_batch_get; [exact Hf|lia]. }
    destruct Hnext as (Hb' & Hi' & Hall' & Htx').
    destruct (IH Hb' Hi' Hall' Htx') as (IH1 & IH2 & _).
    split; [exact IH1|]. split; [|discriminate].
    intros t' [<-|Hin]; [exact Ht|auto].
Qed.

Lemma send_loop_from_batch fuel i st o st' evs :
  send_loop pk sets cfg ledger fuel i st = (o, st', evs) ->
  o <> OutOfFuel ->
  length (signedTXs st) <= length sets ->
  Forall (from_batch pk sets) (signedTXs st) ->
  Forall (from_batch pk sets) (signedTXs st')
  /\ (forall j t, In (EvSubmit j t) evs -> from_batch pk sets (Some t))
  /\ (forall j, existsb (terminal_for j) evs = true -> submitted_at j evs <> []).
Proof.
  revert fuel i st o st' evs.
  apply (send_loop_cases
           (fun i st st' evs =>
              length (signedTXs st) <= length sets ->
              Forall (from_batch pk sets) (signedTXs st) ->
              Forall (from_batch pk sets) (signedTXs st')
              /\ (forall j t, In (EvSubmit j t) evs -> from_batch pk sets (Some t))
              /\ (forall j, existsb (terminal_for j) evs = true ->
                            submitted_at j evs <> []))).
  - intros i st _ _ Hall. split; [exact Hall|]. split.
    + intros j t [].
    + simpl. discriminate.
  - intros i st k st1 evs1 st2 evs2 Hlt E _ IH Hb Hall.
    destruct (from_batch_get Hall Hlt) as (t0 & Hget & Ht0). rewrite Hget in E.
    assert (Hb1 := E). apply retry_bound in Hb1; [|exact Hb].
    assert (Hobs := E). apply retry_observed in Hobs.
    destruct Hobs as (_ & _ & _ & Hother & Hterm & _).
    assert (Hfb := E). apply retry_from_batch in Hfb; eauto.
    destruct Hfb as (Hall1 & Hsub1 & Hne1).
    destruct (IH Hb1 Hall1) as (Hall2 & Hsub2 & Hterm2).
    split; [exact Hall2|]. split.
    + intros j t Hin. apply in_app_iff in Hin. destruct Hin as [Hin|Hin]; [|eauto].
      apply submitted_at_in in Hin.
      destruct (Nat.eq_dec j i) as [->|Hne]; [auto|].
      rewrite (Hother j Hne) in Hin. destruct Hin.
    + intros j Hj. rewrite submitted_at_app. rewrite existsb_app in Hj.
      destruct (Nat.eq_dec j i) as [->|Hne].
      * intros H. apply app_eq_nil in H. tauto.
      * rewrite (Hterm j Hne) in Hj. simpl in Hj.
        intros H. apply app_eq_nil in H. destruct H as [_ H].
        exact (Hterm2 j Hj H).
  - intros i st error k st1 evs1 Hlt E _ Hb Hall.
    destruct (from_batch_get Hall Hlt) as (t0 & Hget & Ht0). rewrite Hget in E.
    assert (Hobs := E). apply retry_observed in Hobs.
    destruct Hobs as (_ & _ & _ & Hother & Hterm & _).
    assert (Hfb := E). apply retry_from_batch in Hfb; eauto.
    destruct Hfb as (Hall1 & Hsub1 & Hne1).
    split; [exact Hall1|]. split.
    + intros j t Hin. apply in_app_iff in Hin.
      destruct Hin as [Hin|[Hin|[]]]; [|discriminate].
      apply submitted_at_in in Hin.
      destruct (Nat.eq_dec j i) as [->|Hne]; [auto|].
      rewrite (Hother j Hne) in Hin. destruct Hin.
    + intros j Hj. rewrite submitted_at_app. rewrite existsb_app in Hj.
      destruct (Nat.eq_dec j i) as [->|Hne].
      * intros H. apply app_eq_nil in H. tauto.
      * rewrite (Hterm j Hne) in Hj. simpl in Hj.
        destruct (Nat.eqb_spec i j); [congruence|discriminate].
  - intros i st error k st1 evs1 st2 evs2 Hlt E _ _ IH Hb Hall.
    destruct (from_batch_get Hall Hlt) as (t0 & Hget & Ht0). rewrite Hget in E.
    assert (Hb1 := E). apply retry_bound in Hb1; [|exact Hb].
    assert (Hobs := E). apply retry_observed in Hobs.
    destruct Hobs as (_ & _ & _ & Hother & Hterm & _).
    assert (Hfb := E). apply retry_from_batch in Hfb; eauto.
    destruct Hfb as (Hall1 & Hsub1 & Hne1).
    destruct (IH Hb1 Hall1) as (Hall2 & Hsub2 & Hterm2).
    split; [exact Hall2|]. split.
    + intros j t Hin. apply in_app_iff in Hin.
      destruct Hin as [Hin|[Hin|Hin]]; [|discriminate|eauto].
      apply submitted_at_in in Hin.
      destruct (Nat.eq_dec j i) as [->|Hne]; [auto|].
      rewrite (Hother j Hne) in Hin. destruct Hin.
    + intros j Hj. rewrite submitted_at_app. rewrite existsb_app in Hj.
      destruct (Nat.eq_dec j i) as [->|Hne].
      * intros H. apply app_eq_nil in H. tauto.
      * rewrite (Hterm j Hne) in Hj. simpl in Hj.
        destruct (Nat.eqb_spec i j); [congruence|]. simpl in Hj.
        intros H. apply app_eq_nil in H. destruct H as [_ H].
        simpl in H. exact (Hterm2 j Hj H).
Qed.

End Coverage.

(** ** SmartInstructionSender.ts: every run of [send] *)


(** X10. Every re-sign notice of a run names an index of the batch; its
    attempt number is 0, with an index of at least 1, when it follows a
    confirmation, and otherwise lies between 1 and
    maxSigningAttempts - 1. *)
Theorem resign_arguments_in_range pk sets cfg ledger attempt index :
  In (EvReSign attempt index) (snd (send_body pk sets cfg ledger)) ->
  index < length sets
  /\ ((attempt = 0 /\ 1 <= index)
      \/ (1 <= attempt /\ (Z.of_nat attempt < maxSigningAttempts cfg)%Z)).
Proof.
  destruct (send_body_loop pk sets cfg ledger) as (st' & evs & E & ->).
  simpl snd. intros [H|[H|H]]; try discriminate.
  assert (Hr := E). apply send_loop_resign_range in Hr;
    [|discriminate|apply initial_run_bound].
  rewrite Forall_forall in Hr. exact (Hr _ H).
Qed.


(** X15. In every run the envelopes of the array are transactions built,
    under the wallet's key, from instruction sets of the batch, with no
    hole among them; so is every envelope that is submitted; and no
    progress or failure call is made for an index for which nothing was
    submitted. *)
Theorem envelopes_come_from_the_batch pk sets cfg ledger :
  let '(_, st', evs) := send_body pk sets cfg ledger in
  Forall (from_batch pk sets) (signedTXs st')
  /\ (forall j t, In (EvSubmit j t) evs -> from_batch pk sets (Some t))
  /\ (forall j, existsb (terminal_for j) evs = true -> submitted_at j evs <> []).
Proof.
  destruct (send_body_loop pk sets cfg ledger) as (st' & evs & E & ->).
  assert (H0 : Forall (from_batch pk sets) (signedTXs (initial_run pk sets ledger))).
  { destruct (initial_run_signed pk sets ledger) as [-> _].
    apply Forall_forall. intros o Ho. apply in_map_iff in Ho.
    destruct Ho as (x & <- & Hx). apply filter_In in Hx.
    exists (snd (baseline0 ledger)), x. tauto. }
  assert (P := E). apply send_loop_from_batch in P;
    [|discriminate|apply initial_run_bound|exact H0].
  destruct P as (H1 & H2 & H3).
  split; [exact H1|]. split.
  - intros j t [H|[H|H]]; try discriminate. eauto.
  - intros j Hj. simpl in Hj. simpl. auto.
Qed.

(** ** The builder and the default configuration *)




(** ** Nothing is rebuilt without a re-sign notice *)

Section Unchanged.

Variable pk : PublicKey.
Variable sets : list InstructionSet.
Variable cfg : SmartInstructionSenderConfiguration.
Variable ledger : Ledger.

Lemma confirmed_without_resign i n txid sl st :
  resigns (snd (confirmed pk sets ledger i n txid sl st)) = [] ->
  confirmed pk sets ledger i n txid sl st = (bump st, [EvProgress i txid]).
Proof.
  destruct (confirmed_shape pk sets ledger i n txid sl st)
    as [H|(_ & ns & nb & H)]; rewrite H; [reflexivity|discriminate].
Qed.

Lemma onRetry_without_resign i e num tx st :
  resigns (snd (onRetry pk sets ledger i e num tx st)) = [] ->
  fst (onRetry pk sets ledger i e num tx st) = (tx, st).
Proof.
  destruct (onRetry_shape pk sets ledger i e num tx st)
    as [H|[H|(ns & nb & H)]]; rewrite H; [reflexivity|reflexivity|discriminate].
Qed.

Lemma submit_submits i n tx j t :
  In (EvSubmit j t) (snd (submit ledger i n tx)) -> j = i /\ tx = Some t.
Proof.
  destruct tx as [t0|]; simpl; [|intros []].
  intros [H|[]]. injection H as <- <-. auto.
Qed.

Lemma retry_without_resign i retries num rn tx st r k st' evs :
  retry pk sets cfg ledger i retries num rn tx st = (r, k, st', evs) ->
  resigns evs = [] ->
  signedTXs st' = signedTXs st /\ slot st' = slot st
  /\ currentBlock st' = currentBlock st
  /\ forall j t, In (EvSubmit j t) evs -> j = i /\ tx = Some t.
Proof.
  revert retries num rn tx st r k st' evs.
  apply (@retry_cases pk sets cfg ledger i
    (fun retries num rn tx st r k st' evs =>
       resigns evs = [] ->
       signedTXs st' = signedTXs st /\ slot st' = slot st
       /\ currentBlock st' = currentBlock st
       /\ forall j t, In (EvSubmit j t) evs -> j = i /\ tx = Some t)).
  - intros retries num rn tx st txid sl sent_evs Es Hr.
    rewrite resigns_app in Hr. apply app_eq_nil in Hr. destruct Hr as [_ Hr].
    rewrite (confirmed_without_resign _ _ _ _ _ Hr). simpl.
    repeat split; try reflexivity.
    + apply (@submit_submits i (S rn) tx j t). rewrite Es. simpl.
      apply in_app_or in H. destruct H as [H|[H|[]]]; [exact H|discriminate].
    + apply (@submit_submits i (S rn) tx j t). rewrite Es. simpl.
      apply in_app_or in H. destruct H as [H|[H|[]]]; [exact H|discriminate].
  - intros retries num rn tx st e sent_evs Es _ _ _.
    repeat split; try reflexivity;
      apply (@submit_submits i (S rn) tx j t); rewrite Es; exact H.
  - intros retries num rn tx st e sent_evs Es _ _.
    repeat split; try reflexivity;
      apply (@submit_submits i (S rn) tx j t); rewrite Es; exact H.
  - intros num rn tx st e sent_evs Es _ _ _.
    repeat split; try reflexivity;
      apply (@submit_submits i (S rn) tx j t); rewrite Es; exact H.
  - intros retries num rn tx st e sent_evs tx' st' evs r k st'' evs'
      Es _ _ Eo _ IH Hr.
    rewrite !resigns_app in Hr. apply app_eq_nil in Hr. destruct Hr as [_ Hr].
    apply app_eq_nil in Hr. destruct Hr as [Hr1 Hr2].
    assert (Hf : fst (onRetry pk sets ledger i e num tx st) = (tx, st)).
    { apply onRetry_without_resign. rewrite Eo. exact Hr1. }
    rewrite Eo in Hf. simpl in Hf. injection Hf as -> ->.
    destruct (IH Hr2) as (H1 & H2 & H3 & H4).
    repeat split; try assumption.
    + apply in_app_or in H. destruct H as [H|H].
      * apply (@submit_submits i (S rn) tx j t). rewrite Es. exact H.
      * apply in_app_or in H. destruct H as [H|H]; [|apply (H4 _ _ H)].
        assert (Hq := onRetry_events pk sets ledger i e num tx st).
        rewrite Eo in Hq. simpl in Hq. rewrite Forall_forall in Hq.
        specialize (Hq _ H). discriminate.
    + apply in_app_or in H. destruct H as [H|H].
      * apply (@submit_submits i (S rn) tx j t). rewrite Es. exact H.
      * apply in_app_or in H. destruct H as [H|H]; [|apply (H4 _ _ H)].
        assert (Hq := onRetry_events pk sets ledger i e num tx st).
        rewrite Eo in Hq. simpl in Hq. rewrite Forall_forall in Hq.
        specialize (Hq _ H). discriminate.
Qed.

Lemma send_loop_without_resign fuel i st o st' evs :
  send_loop pk sets cfg ledger fuel i st = (o, st', evs) ->
  o <> OutOfFuel ->
  resigns evs = [] ->
  signedTXs st' = signedTXs st /\ slot st' = slot st
  /\ currentBlock st' = currentBlock st
  /\ forall j t, In (EvSubmit j t) evs -> js_get (signedTXs st) j = Some t.
Proof.
  revert fuel i st o st' evs.
  apply (@send_loop_cases pk sets cfg ledger
    (fun i st st' evs =>
       resigns evs = [] ->
       signedTXs st' = signedTXs st /\ slot st' = slot st
       /\ currentBlock st' = currentBlock st
       /\ forall j t, In (EvSubmit j t) evs -> js_get (signedTXs st) j = Some t)).
  - intros i st _ _. repeat split. intros j t [].
  - intros i st k st1 evs1 st2 evs2 _ Er _ IH Hr.
    rewrite resigns_app in Hr. apply app_eq_nil in Hr. destruct Hr as [Hr1 Hr2].
    assert (Q := Er). apply retry_without_resign in Q; [|exact Hr1].
    destruct Q as (H1 & H2 & H3 & H4).
    destruct (IH Hr2) as (G1 & G2 & G3 & G4).
    repeat split; try congruence.
    intros j t H. apply in_app_or in H. destruct H as [H|H].
    + destruct (H4 _ _ H) as [-> ->]. reflexivity.
    + rewrite <- H1. apply (G4 _ _ H).
  - intros i st error k st1 evs1 _ Er _ Hr.
    rewrite resigns_app in Hr. apply app_eq_nil in Hr. destruct Hr as [Hr1 _].
    assert (Q := Er). apply retry_without_resign in Q; [|exact Hr1].
    destruct Q as (H1 & H2 & H3 & H4).
    repeat split; try congruence.
    intros j t H. apply in_app_or in H. destruct H as [H|[H|[]]]; [|discriminate].
    destruct (H4 _ _ H) as [-> ->]. reflexivity.
  - intros i st error k st1 evs1 st2 evs2 _ Er _ _ IH Hr.
    rewrite resigns_app in Hr. apply app_eq_nil in Hr. destruct Hr as [Hr1 Hr2].
    simpl in Hr2.
    assert (Q := Er). apply retry_without_resign in Q; [|exact Hr1].
    destruct Q as (H1 & H2 & H3 & H4).
    destruct (IH Hr2) as (G1 & G2 & G3 & G4).
    repeat split; try congruence.
    intros j t H. apply in_app_or in H. destruct H as [H|[H|H]]; [|discriminate|].
    + destruct (H4 _ _ H) as [-> ->]. reflexivity.
    + rewrite <- H1. apply (G4 _ _ H).
Qed.

End Unchanged.

(** X16. A run in which no re-sign notice is given changes neither the
    envelopes nor the baseline: at its end the array holds the envelopes
    signed at the start, slot and blockhash are the ones fetched first, and
    every envelope that was submitted for an index is the one signed at the
    start for that index. *)
Theorem no_rebuild_without_a_notice pk sets cfg ledger :
  resigns (snd (send_body pk sets cfg ledger)) = [] ->
  let '(_, st', evs) := send_body pk sets cfg ledger in
  signedTXs st' = signedTXs (initial_run pk sets ledger)
  /\ slot st' = fst (baseline0 ledger)
  /\ currentBlock st' = snd (baseline0 ledger)
  /\ forall j t, In (EvSubmit j t) evs ->
       js_get (signedTXs (initial_run pk sets ledger)) j = Some t.
Proof.
  destruct (send_body_loop pk sets cfg ledger) as (st' & evs & E & ->).
  simpl snd. intros Hr.
  assert (P := E). apply send_loop_without_resign in P; [|discriminate|exact Hr].
  destruct P as (H1 & H2 & H3 & H4).
  assert (H0 : slot (initial_run pk sets ledger) = fst (baseline0 ledger)
               /\ currentBlock (initial_run pk sets ledger) = snd (baseline0 ledger))
    by (unfold initial_run; destruct (baseline0 ledger); split; reflexivity).
  destruct H0 as [Hs Hb].
  repeat split; try congruence.
  intros j t [H|[H|H]]; try discriminate. apply (H4 _ _ H).
Qed.

(** ** The properties above at sample runs *)

Lemma classify_by_message_witness :
  classify "Transaction was not confirmed in 30.00 seconds" (Some "sig")
  = timeout "Transaction was not confirmed in 30.00 seconds" (Some "sig")
  /\ classify "Blockhash not found" None = misc_error "Blockhash not found" None.
Proof.
  split.
  - apply (proj1 (classify_by_message _ _)).
    exists "", " 30.00 seconds". reflexivity.
  - reflexivity.
Defined.

Lemma resign_arguments_in_range_witness :
  In (EvReSign 1 0) (snd (send_body "payer" [setA; setB] (config 3 true) ledger_late))
  /\ 0 < length [setA; setB]
  /\ ((1 = 0 /\ 1 <= 0)
      \/ (1 <= 1 /\ (Z.of_nat 1 < maxSigningAttempts (config 3 true))%Z)).
Proof.
  assert (H : In (EvReSign 1 0)
                 (snd (send_body "payer" [setA; setB] (config 3 true) ledger_late))).
  { vm_compute. do 5 right. left. reflexivity. }
  split; [exact H|].
  exact (@resign_arguments_in_range "payer" [setA; setB] (config 3 true)
           ledger_late 1 0 H).
Defined.



Lemma no_rebuild_without_a_notice_witness :
  let '(_, st', evs) :=
    send_body "payer" [setA; setB] (config 3 false) ledger_stuck in
  signedTXs st' = [Some envA; Some envB]
  /\ slot st' = 100%Z
  /\ currentBlock st' = "h0"
  /\ forall j t, In (EvSubmit j t) evs ->
       js_get [Some envA; Some envB] j = Some t.
Proof.
  apply (@no_rebuild_without_a_notice "payer" [setA; setB] (config 3 false)
           ledger_stuck).
  reflexivity.
Defined.

(** * The event loop *)

Ltac splits := repeat match goal with |- _ /\ _ => split end.

Section AsyncFacts.

Variable pk : PublicKey.
Variable sets : list InstructionSet.
Variable cfg : SmartInstructionSenderConfiguration.
Variable w : Async.World.

(** ** The rebuilder with its exception *)

Lemma async_rebuild_loop_bound bh N : forall js txs,
  Forall (fun j => j < N) js ->
  length txs <= N ->
  length (snd (Async.rebuild_loop pk sets bh js txs)) <= N.
Proof.
  induction js as [|j js IH]; intros txs Hjs Hlen; simpl; [exact Hlen|].
  inversion Hjs as [|? ? Hj Hjs']; subst.
  destruct (nth_error sets j) as [s|]; [|exact Hlen].
  destruct (Async.newTransaction pk bh s) as [t|m]; [|exact Hlen].
  apply IH; [exact Hjs'|]. rewrite js_set_length. lia.
Qed.

Lemma async_rebuild_request_array txs index bh attempt :
  snd (fst (Async.rebuild_request pk sets txs index bh attempt))
  = snd (Async.rebuild_loop pk sets bh (seq index (length sets - index)) txs).
Proof.
  unfold Async.rebuild_request.
  destruct (Async.rebuild_loop pk sets bh _ txs) as [[u|m] txs']; reflexivity.
Qed.

Lemma async_rebuild_request_bound txs index bh attempt :
  length txs <= length sets ->
  length (snd (fst (Async.rebuild_request pk sets txs index bh attempt)))
  <= length sets.
Proof.
  intros H. rewrite async_rebuild_request_array.
  apply async_rebuild_loop_bound; [|exact H].
  apply Forall_forall. intros j Hj. apply in_seq in Hj. lia.
Qed.

(** The events of the rebuilder up to its [await]: the notice, then the
    request to the wallet unless the loop threw. *)
Lemma async_rebuild_request_events txs index bh attempt :
  let '(r, txs', evs) := Async.rebuild_request pk sets txs index bh attempt in
  match r with
  | Throws _ => evs = [EvReSign attempt index]
  | Returns _ =>
      evs = [EvReSign attempt index; EvSignAll (js_slice_from txs' index)]
  end.
Proof.
  unfold Async.rebuild_request.
  destruct (Async.rebuild_loop pk sets bh _ txs) as [[u|m] txs']; reflexivity.
Qed.

(** ** Handlers *)

(** What a handler does when it goes on: nothing that is seen, or the read
    of slot and blockhash, or the rebuild up to the request to the wallet,
    or the assignment to [tx]. *)
Lemma async_resume_cases current h tx v :
  let '(h', tx', v', evs) := Async.resume pk sets w current h tx v in
  (v' = v /\ evs = []
   /\ (tx' = tx \/ (Async.item h = current
                    /\ tx' = Async.rebuild_result (signedTXs v) (Async.item h))))
  \/ (v' = v /\ tx' = tx /\ evs = [EvGetSlotAndBlockhash])
  \/ (tx' = tx
      /\ exists newSlot newBlock,
           v' = {| slot := newSlot; currentBlock := newBlock;
                   signedTXs :=
                     snd (fst (Async.rebuild_request pk sets (signedTXs v)
                                 (Async.item h) newBlock (Async.attempt h)));
                   successfulItems := successfulItems v |}
           /\ evs = snd (Async.rebuild_request pk sets (signedTXs v)
                           (Async.item h) newBlock (Async.attempt h))).
Proof.
  unfold Async.resume. destruct (Async.stage h).
  - destruct (Async.polledSlot w _ _) as [s|m]; [|left; auto].
    destruct (isExpired s (slot v)); [right; left; auto|left; auto].
  - destruct (Async.handlerRefreshed w _ _) as [[ns nb]|m]; [|left; auto].
    destruct (Async.rebuild_request pk sets (signedTXs v) _ nb _)
      as [[r txs'] evs] eqn:E.
    destruct r as [u|m]; right; right; (split; [reflexivity|]);
      exists ns, nb; rewrite E; simpl; auto.
  - destruct (Async.handlerSignature w _ _) as [u|m]; [|left; auto].
    left. split; [reflexivity|]. split; [reflexivity|].
    destruct (Nat.eqb_spec (Async.item h) current); auto.
Qed.

(** An invariant of the variables that the rebuilder keeps is kept by the
    handlers, whatever arrives. *)
Lemma async_deliver_keeps (I : Run -> Prop) (E : Event -> Prop) :
  (forall v index bh attempt newSlot,
      I v ->
      I {| slot := newSlot; currentBlock := bh;
           signedTXs := snd (fst (Async.rebuild_request pk sets (signedTXs v)
                                    index bh attempt));
           successfulItems := successfulItems v |}) ->
  E EvGetSlotAndBlockhash ->
  (forall txs index bh attempt,
      Forall E (snd (Async.rebuild_request pk sets txs index bh attempt))) ->
  forall current ks tx st,
    I (Async.vars st) ->
    let '(_, st', evs) := Async.deliver pk sets w current ks tx st in
    I (Async.vars st') /\ Forall E evs.
Proof.
  intros Hreb Hfetch Hevs current ks.
  induction ks as [|k ks IH]; intros tx st HI; simpl; [auto|].
  destruct (nth_error (Async.handlers st) k) as [h|]; [|apply IH, HI].
  assert (Hc := async_resume_cases current h tx (Async.vars st)).
  destruct (Async.resume pk sets w current h tx (Async.vars st))
    as [[[h' tx'] v'] evs].
  match goal with
  | |- context [Async.deliver pk sets w current ks tx' ?s] =>
      specialize (IH tx' s); destruct (Async.deliver pk sets w current ks tx' s)
        as [[tx'' st''] evs'] eqn:Ed
  end.
  simpl in IH.
  assert (Hv : I v' /\ Forall E evs).
  { destruct Hc as [(-> & -> & _)|[(-> & _ & ->)|(_ & ns & nb & -> & ->)]].
    - auto.
    - split; [exact HI|]. constructor; [exact Hfetch|constructor].
    - split; [apply Hreb, HI|apply Hevs]. }
  destruct Hv as [Hv He]. destruct (IH Hv) as [H1 H2].
  split; [exact H1|]. apply Forall_app. auto.
Qed.

Lemma async_deliver_nothing current ks tx st :
  Async.handlers st = [] ->
  Async.deliver pk sets w current ks tx st = (tx, st, []).
Proof.
  intros H. induction ks as [|k ks IH]; simpl; [reflexivity|].
  rewrite H. destruct k; simpl; exact IH.
Qed.

Lemma async_rebuild_request_rebuilding txs index bh attempt :
  Forall (fun e => rebuilding e = true)
         (snd (Async.rebuild_request pk sets txs index bh attempt)).
Proof.
  assert (H := async_rebuild_request_events txs index bh attempt).
  destruct (Async.rebuild_request pk sets txs index bh attempt) as [[[u|m] txs'] evs];
    simpl; subst evs; repeat constructor.
Qed.

(** The handlers leave the counter alone, keep the array within the number
    of instruction sets, and are seen only through rebuilds. *)
Lemma async_deliver_quiet current ks tx st :
  let '(_, st', evs) := Async.deliver pk sets w current ks tx st in
  successfulItems (Async.vars st') = successfulItems (Async.vars st)
  /\ (within sets (Async.vars st) -> within sets (Async.vars st'))
  /\ Forall (fun e => rebuilding e = true) evs.
Proof.
  assert (H := @async_deliver_keeps
    (fun v => successfulItems v = successfulItems (Async.vars st)
              /\ (within sets (Async.vars st) -> within sets v))
    (fun e => rebuilding e = true)).
  specialize (H).
  assert (H1 := H).
  clear H.
  specialize (H1 ltac:(intros v index bh attempt newSlot [Ha Hb]; simpl; split;
                        [exact Ha|intros Hw; apply async_rebuild_request_bound;
                                  apply Hb, Hw])
                 eq_refl
                 ltac:(intros; apply async_rebuild_request_rebuilding)
                 current ks tx st (conj eq_refl (fun x => x))).
  destruct (Async.deliver pk sets w current ks tx st) as [[tx' st'] evs].
  destruct H1 as [[Ha Hb] Hc]. auto.
Qed.

(** ** One attempt *)

(** After a confirmation: the progress call comes first and the counter
    goes up by one, whatever follows; what follows is seen only through
    rebuilds, and ends the attempt or makes it throw an exception. *)
Lemma async_confirmed_cases i rn txid sl tx st :
  let '(r, _, st', evs) := Async.confirmed pk sets w i rn txid sl tx st in
  successfulItems (Async.vars st') = S (successfulItems (Async.vars st))
  /\ (within sets (Async.vars st) -> within sets (Async.vars st'))
  /\ (exists bg, evs = EvProgress i txid :: bg
                 /\ Forall (fun e => rebuilding e = true) bg)
  /\ (r = Async.Completed \/ exists m, r = Async.Threw (js_error m)).
Proof.
  unfold Async.confirmed.
  destruct (isExpired sl (slot (Async.vars st)));
    [|simpl; repeat split; eauto].
  destruct (0 <? length (js_slice_from (signedTXs (Async.vars st)) (i + 1)));
    [|simpl; repeat split; eauto].
  match goal with
  | |- context [Async.deliver pk sets w i ?ks tx ?s] =>
      assert (H2 := async_deliver_quiet i ks tx s);
      destruct (Async.deliver pk sets w i ks tx s) as [[tx2 st2] evs2]
  end.
  simpl in H2. destruct H2 as (Hs2 & Hw2 & He2).
  destruct (Async.refreshed w i rn) as [[ns nb]|m].
  2:{ repeat split; [exact Hs2|exact Hw2| |eauto].
      eexists. split; [reflexivity|]. constructor; [reflexivity|exact He2]. }
  assert (Hb := @async_rebuild_request_bound (signedTXs (Async.vars st2)) (i + 1) nb 0).
  assert (Hr := async_rebuild_request_rebuilding (signedTXs (Async.vars st2)) (i + 1) nb 0).
  destruct (Async.rebuild_request pk sets (signedTXs (Async.vars st2)) (i + 1) nb 0)
    as [[r txs'] evs3].
  simpl in Hb, Hr.
  destruct r as [u|m].
  2:{ simpl. repeat split; [exact Hs2|intros Hw; apply Hb, Hw2, Hw| |eauto].
      eexists. split; [reflexivity|].
      constructor; [reflexivity|]. apply Forall_app. auto. }
  match goal with
  | |- context [Async.deliver pk sets w i ?ks tx2 ?s] =>
      assert (H4 := async_deliver_quiet i ks tx2 s);
      destruct (Async.deliver pk sets w i ks tx2 s) as [[tx4 st4] evs4]
  end.
  simpl in H4. destruct H4 as (Hs4 & Hw4 & He4).
  repeat split.
  - rewrite Hs4. exact Hs2.
  - intros Hw. apply Hw4. apply Hb, Hw2, Hw.
  - eexists. split; [reflexivity|].
    constructor; [reflexivity|]. repeat (apply Forall_app; split); auto.
  - destruct (Async.signature w i rn); eauto.
Qed.

(** One attempt on item [i].  Either the submission did not succeed: the
    counter stays, the attempt bails out or throws a timeout, which it does
    only below maxSigningAttempts.  Or the submission succeeded, and
    [confirmed] is what follows. *)
Lemma async_attempt_cases i rn tx st :
  let '(r, _, st', evs) := Async.attemptItem pk sets cfg w i rn tx st in
  (within sets (Async.vars st) -> within sets (Async.vars st'))
  /\ ((successfulItems (Async.vars st') = successfulItems (Async.vars st)
       /\ (exists sub bg,
              evs = sub ++ bg
              /\ (sub = [] \/ exists t, tx = Some t /\ sub = [EvSubmit i t])
              /\ Forall (fun e => rebuilding e = true) bg)
       /\ ((exists e, r = Async.Bailed e)
           \/ (exists e, r = Async.Threw e /\ is_timeout e = true
                         /\ (Z.of_nat rn < maxSigningAttempts cfg)%Z)))
      \/ (successfulItems (Async.vars st') = S (successfulItems (Async.vars st))
          /\ (exists t txid sl bg1 bg2,
                 tx = Some t
                 /\ Async.sendSignedTransaction (Async.submission w i rn t)
                    = Returns (sent txid sl)
                 /\ evs = EvSubmit i t :: bg1 ++ EvProgress i txid :: bg2
                 /\ Forall (fun e => rebuilding e = true) bg1
                 /\ Forall (fun e => rebuilding e = true) bg2)
          /\ (r = Async.Completed \/ exists m, r = Async.Threw (js_error m)))).
Proof.
  unfold Async.attemptItem.
  destruct tx as [t|].
  2:{ split; [auto|]. left. split; [reflexivity|]. split; [|eauto].
      exists [], []. auto. }
  destruct (Async.serialize (Async.submission w i rn t)) as [u|m] eqn:Eser.
  2:{ split; [auto|]. left. split; [reflexivity|]. split; [|eauto].
      exists [EvSubmit i t], []. split; [reflexivity|]. split; [|constructor].
      right. eauto. }
  match goal with
  | |- context [Async.deliver pk sets w i ?ks (Some t) st] =>
      assert (H1 := async_deliver_quiet i ks (Some t) st);
      destruct (Async.deliver pk sets w i ks (Some t) st) as [[tx1 st1] evs1]
  end.
  simpl in H1. destruct H1 as (Hs1 & Hw1 & He1).
  assert (Hfail : forall r,
    (exists e, r = Async.Bailed e)
    \/ (exists e, r = Async.Threw e /\ is_timeout e = true
                  /\ (Z.of_nat rn < maxSigningAttempts cfg)%Z) ->
    (within sets (Async.vars st) -> within sets (Async.vars st1))
    /\ ((successfulItems (Async.vars st1) = successfulItems (Async.vars st)
         /\ (exists sub bg,
                EvSubmit i t :: evs1 = sub ++ bg
                /\ (sub = [] \/ exists t0, Some t = Some t0 /\ sub = [EvSubmit i t0])
                /\ Forall (fun e => rebuilding e = true) bg)
         /\ ((exists e, r = Async.Bailed e)
             \/ (exists e, r = Async.Threw e /\ is_timeout e = true
                           /\ (Z.of_nat rn < maxSigningAttempts cfg)%Z)))
        \/ (successfulItems (Async.vars st1) = S (successfulItems (Async.vars st))
            /\ (exists t0 txid sl bg1 bg2,
                   Some t = Some t0
                   /\ Async.sendSignedTransaction (Async.submission w i rn t0)
                      = Returns (sent txid sl)
                   /\ EvSubmit i t :: evs1
                      = EvSubmit i t0 :: bg1 ++ EvProgress i txid :: bg2
                   /\ Forall (fun e => rebuilding e = true) bg1
                   /\ Forall (fun e => rebuilding e = true) bg2)
            /\ (r = Async.Completed \/ exists m, r = Async.Threw (js_error m))))).
  { intros r Hr. split; [exact Hw1|]. left. split; [exact Hs1|]. split; [|exact Hr].
    exists [EvSubmit i t], evs1. split; [reflexivity|]. split; [|exact He1].
    right. eauto. }
  destruct (Async.sendSignedTransaction (Async.submission w i rn t))
    as [[txid sl|e]|m] eqn:Esend.
  - assert (Hc := async_confirmed_cases i rn txid sl tx1 st1).
    destruct (Async.confirmed pk sets w i rn txid sl tx1 st1)
      as [[[r tx2] st2] evs2].
    destruct Hc as (Hs2 & Hw2 & (bg & -> & Hbg) & Hr).
    split; [auto|]. right. split; [rewrite Hs2, Hs1; reflexivity|].
    split; [|exact Hr].
    exists t, txid, sl, evs1, bg. auto.
  - destruct (is_timeout (send_error e)) eqn:Et;
      destruct (Z.of_nat rn >=? maxSigningAttempts cfg)%Z eqn:Hge;
      rewrite Z.geb_leb in Hge; cbn [andb]; cbv iota; apply Hfail; eauto.
    apply Z.leb_gt in Hge. right. eauto.
  - apply Hfail. eauto.
Qed.

(** ** The attempts on one item *)

Lemma async_retry_eq i retries num rn errors tx st :
  Async.retry pk sets cfg w i retries num rn errors tx st
  = let retryNumber := S rn in
    let '(r, tx1, st1, evs1) := Async.attemptItem pk sets cfg w i retryNumber tx st in
    match r with
    | Async.Completed => (Fulfilled, retryNumber, st1, evs1)
    | Async.Bailed e => (Rejected e, retryNumber, st1, evs1)
    | Async.Threw e =>
        let errors := errors ++ [e] in
        match retries with
        | O =>
            (Rejected (match Async.mainError errors with
                       | Some x => x
                       | None => e
                       end),
             retryNumber, st1, evs1)
        | S retries' =>
            let '(st2, evs2) := Async.onRetry i e num st1 in
            let '(tx3, st3, evs3) :=
              Async.deliver pk sets w i (Async.arrivals w (Async.AtTimer i num))
                            tx1 st2 in
            let '(s, k, st4, evs4) :=
              Async.retry pk sets cfg w i retries' (S num) retryNumber errors tx3 st3 in
            (s, k, st4, evs1 ++ evs2 ++ evs3 ++ evs4)
        end
    end.
Proof. destruct retries; reflexivity. Qed.

(** Case analysis on the attempts on item [i], following [Async.retry]. *)
Lemma async_retry_cases i
  (P : nat -> nat -> nat -> list Failure -> option Transaction -> Async.Task ->
       Settled -> nat -> Async.Task -> list Event -> Prop) :
  (forall retries num rn errors tx st tx1 st1 evs1,
      Async.attemptItem pk sets cfg w i (S rn) tx st
      = (Async.Completed, tx1, st1, evs1) ->
      P retries num rn errors tx st Fulfilled (S rn) st1 evs1) ->
  (forall retries num rn errors tx st e tx1 st1 evs1,
      Async.attemptItem pk sets cfg w i (S rn) tx st
      = (Async.Bailed e, tx1, st1, evs1) ->
      P retries num rn errors tx st (Rejected e) (S rn) st1 evs1) ->
  (forall num rn errors tx st e tx1 st1 evs1,
      Async.attemptItem pk sets cfg w i (S rn) tx st
      = (Async.Threw e, tx1, st1, evs1) ->
      P 0 num rn errors tx st
        (Rejected (match Async.mainError (errors ++ [e]) with
                   | Some x => x
                   | None => e
                   end))
        (S rn) st1 evs1) ->
  (forall retries num rn errors tx st e tx1 st1 evs1 st2 evs2 tx3 st3 evs3
          s k st4 evs4,
      Async.attemptItem pk sets cfg w i (S rn) tx st
      = (Async.Threw e, tx1, st1, evs1) ->
      Async.onRetry i e num st1 = (st2, evs2) ->
      Async.deliver pk sets w i (Async.arrivals w (Async.AtTimer i num)) tx1 st2
      = (tx3, st3, evs3) ->
      Async.retry pk sets cfg w i retries (S num) (S rn) (errors ++ [e]) tx3 st3
      = (s, k, st4, evs4) ->
      P retries (S num) (S rn) (errors ++ [e]) tx3 st3 s k st4 evs4 ->
      P (S retries) num rn errors tx st s k st4 (evs1 ++ evs2 ++ evs3 ++ evs4)) ->
  forall retries num rn errors tx st s k st' evs,
    Async.retry pk sets cfg w i retries num rn errors tx st = (s, k, st', evs) ->
    P retries num rn errors tx st s k st' evs.
Proof.
  intros Hdone Hbail Hout Hstep.
  induction retries as [|retries IH]; intros num rn errors tx st s k st' evs;
    rewrite async_retry_eq; cbv zeta;
    destruct (Async.attemptItem pk sets cfg w i (S rn) tx st)
      as [[[r tx1] st1] evs1] eqn:Ea;
    destruct r as [|e|e]; intros H.
  1-3,4-5: injection H as <- <- <- <-; eauto.
  destruct (Async.onRetry i e num st1) as [st2 evs2] eqn:Eo.
  destruct (Async.deliver pk sets w i _ tx1 st2) as [[tx3 st3] evs3] eqn:Ed.
  destruct (Async.retry pk sets cfg w i retries (S num) (S rn) (errors ++ [e]) tx3 st3)
    as [[[s4 k4] st4] evs4] eqn:Er.
  injection H as <- <- <- <-. eapply Hstep; eauto.
Qed.

Lemma async_onRetry_cases i e num st :
  (is_timeout e = true
   /\ Async.onRetry i e num st
      = ({| Async.vars := Async.vars st;
            Async.handlers :=
              Async.handlers st
              ++ [{| Async.item := i; Async.attempt := num;
                     Async.stage := Async.AwaitSlot |}] |},
         [EvGetSlot]))
  \/ (is_timeout e = false /\ Async.onRetry i e num st = (st, [])).
Proof.
  unfold Async.onRetry. destruct (is_timeout e); auto.
Qed.

Lemma rebuilding_observed bg :
  Forall (fun e => rebuilding e = true) bg ->
  progress_indices bg = [] /\ failures bg = [] /\ polls bg = []
  /\ (forall k, submitted_at k bg = [])
  /\ (forall i, Forall (fun e => during_item i e = true) bg)
  /\ (forall i txid, ~ In (EvProgress i txid) bg)
  /\ (forall i t, ~ In (EvSubmit i t) bg).
Proof.
  induction 1 as [|e bg He _ IH].
  - split; [reflexivity|]. split; [reflexivity|]. split; [reflexivity|].
    split; [reflexivity|]. split; [constructor|].
    split; intros ? ? [].
  - destruct IH as (H1 & H2 & H3 & H4 & H5 & H6 & H7).
    assert (Hd : forall i, during_item i e = true)
      by (destruct e; try discriminate; reflexivity).
    split; [|split; [|split; [|split; [|split; [|split]]]]].
    + destruct e; try discriminate; exact H1.
    + destruct e; try discriminate; exact H2.
    + destruct e; try discriminate; exact H3.
    + intros k. destruct e; try discriminate; apply H4.
    + intros i. constructor; [apply Hd|apply H5].
    + intros i txid [H|H]; [subst; discriminate|exact (H6 _ _ H)].
    + intros i t [H|H]; [subst; discriminate|exact (H7 _ _ H)].
Qed.

(** What one attempt on item [i] shows. *)
Lemma async_attempt_observed i rn tx st :
  let '(r, _, st', evs) := Async.attemptItem pk sets cfg w i rn tx st in
  (within sets (Async.vars st) -> within sets (Async.vars st'))
  /\ successfulItems (Async.vars st')
     = successfulItems (Async.vars st) + length (progress_indices evs)
  /\ Forall (fun e => during_item i e = true) evs
  /\ (r = Async.Completed -> In i (progress_indices evs))
  /\ length (submitted_at i evs) <= 1
  /\ failures evs = [] /\ polls evs = []
  /\ (forall txid, In (EvProgress i txid) evs ->
        exists t sl, In (EvSubmit i t) evs
                     /\ Async.sendSignedTransaction (Async.submission w i rn t)
                        = Returns (sent txid sl)).
Proof.
  assert (H := async_attempt_cases i rn tx st).
  destruct (Async.attemptItem pk sets cfg w i rn tx st) as [[[r tx1] st1] evs].
  destruct H as (Hw & [(Hs & (sub & bg & -> & Hsub & Hbg) & Hr)
                      |(Hs & (t & txid & sl & bg1 & bg2 & -> & Hsend & -> & Hb1 & Hb2)
                        & Hr)]).
  - destruct (rebuilding_observed Hbg) as (B1 & B2 & B3 & B4 & B5 & B6 & B7).
    split; [exact Hw|].
    assert (Hsub' : progress_indices sub = [] /\ failures sub = [] /\ polls sub = []
                    /\ length (submitted_at i sub) <= 1
                    /\ Forall (fun e => during_item i e = true) sub
                    /\ forall txid, ~ In (EvProgress i txid) sub).
    { destruct Hsub as [->|(t & -> & ->)].
      - splits; auto.
      - simpl. rewrite Nat.eqb_refl. splits; auto.
        + constructor; [simpl; apply Nat.eqb_refl|constructor].
        + intros txid [H|[]]. discriminate. }
    destruct Hsub' as (S1 & S2 & S3 & S4 & S5 & S6).
    rewrite progress_indices_app, failures_app, submitted_at_app, S1, B1, S2, B2, B4.
    unfold polls in *. rewrite filter_app, S3, B3. rewrite app_nil_r.
    splits; auto.
    + rewrite Hs. simpl. lia.
    + apply Forall_app. auto.
    + intros ->. destruct Hr as [[e H]|(e & H & _)]; discriminate.
    + rewrite app_nil_r. exact S4.
    + intros txid Hin. apply in_app_or in Hin. destruct Hin as [Hin|Hin].
      * elim (S6 _ Hin).
      * elim (B6 _ _ Hin).
  - destruct (rebuilding_observed Hb1) as (B1 & B2 & B3 & B4 & B5 & B6 & B7).
    destruct (rebuilding_observed Hb2) as (C1 & C2 & C3 & C4 & C5 & C6 & C7).
    split; [exact Hw|].
    change (EvSubmit i t :: bg1 ++ EvProgress i txid :: bg2)
      with ([EvSubmit i t] ++ bg1 ++ [EvProgress i txid] ++ bg2).
    rewrite !progress_indices_app, !failures_app, !submitted_at_app, B1, B2, B4,
      C1, C2, C4.
    unfold polls in *. rewrite !filter_app, B3, C3.
    simpl. rewrite Nat.eqb_refl. simpl.
    splits; auto.
    + rewrite Hs. lia.
    + constructor; [simpl; apply Nat.eqb_refl|].
      apply Forall_app. split; [apply B5|].
      constructor; [simpl; apply Nat.eqb_refl|apply C5].
    + intros txid' [Hin|Hin]; [discriminate|].
      apply in_app_or in Hin. destruct Hin as [Hin|[Hin|Hin]].
      * elim (B6 _ _ Hin).
      * injection Hin as <-. exists t, sl. split; [left; reflexivity|exact Hsend].
      * elim (C6 _ _ Hin).
Qed.

Lemma polls_app a b : polls (a ++ b) = polls a ++ polls b.
Proof. apply filter_app. Qed.

Lemma async_onRetry_observed i e num st :
  let '(st', evs) := Async.onRetry i e num st in
  Async.vars st' = Async.vars st
  /\ progress_indices evs = [] /\ failures evs = []
  /\ (forall k, submitted_at k evs = [])
  /\ Forall (fun e => during_item i e = true) evs
  /\ (forall j txid, ~ In (EvProgress j txid) evs)
  /\ (forall j t, ~ In (EvSubmit j t) evs)
  /\ (is_timeout e = false -> st' = st /\ evs = []).
Proof.
  destruct (async_onRetry_cases i e num st) as [[Ht ->]|[Ht ->]]; simpl;
    splits; auto; try discriminate; try congruence.
  - intros j txid [H|[]]. discriminate.
  - intros j t [H|[]]. discriminate.
Qed.

(** What the attempts on item [i] show: submissions and progress calls
    for [i] only and no failure call; every progress call raises the
    counter by one and follows a submission that succeeded; at most one
    submission for each attempt the library grants; a fulfilled promise
    has made a progress call. *)
Lemma async_retry_observed i retries num rn errors tx st s k st' evs :
  Async.retry pk sets cfg w i retries num rn errors tx st = (s, k, st', evs) ->
  (within sets (Async.vars st) -> within sets (Async.vars st'))
  /\ successfulItems (Async.vars st')
     = successfulItems (Async.vars st) + length (progress_indices evs)
  /\ Forall (fun e => during_item i e = true) evs
  /\ (s = Fulfilled -> In i (progress_indices evs))
  /\ length (submitted_at i evs) <= S retries
  /\ failures evs = []
  /\ (forall txid, In (EvProgress i txid) evs ->
        exists n t sl, In (EvSubmit i t) evs
                       /\ Async.sendSignedTransaction (Async.submission w i n t)
                          = Returns (sent txid sl)).
Proof.
  revert retries num rn errors tx st s k st' evs.
  apply (@async_retry_cases i
    (fun retries num rn errors tx st s k st' evs =>
       (within sets (Async.vars st) -> within sets (Async.vars st'))
       /\ successfulItems (Async.vars st')
          = successfulItems (Async.vars st) + length (progress_indices evs)
       /\ Forall (fun e => during_item i e = true) evs
       /\ (s = Fulfilled -> In i (progress_indices evs))
       /\ length (submitted_at i evs) <= S retries
       /\ failures evs = []
       /\ (forall txid, In (EvProgress i txid) evs ->
             exists n t sl, In (EvSubmit i t) evs
                            /\ Async.sendSignedTransaction (Async.submission w i n t)
                               = Returns (sent txid sl)))).
  - intros retries num rn errors tx st tx1 st1 evs1 Ea.
    assert (H := async_attempt_observed i (S rn) tx st). rewrite Ea in H.
    destruct H as (H1 & H2 & H3 & H4 & H5 & H6 & _ & H7).
    splits; auto; [lia|].
    intros txid Hin. destruct (H7 _ Hin) as (t & sl & Ht). eauto.
  - intros retries num rn errors tx st e tx1 st1 evs1 Ea.
    assert (H := async_attempt_observed i (S rn) tx st). rewrite Ea in H.
    destruct H as (H1 & H2 & H3 & H4 & H5 & H6 & _ & H7).
    splits; auto; [discriminate|lia|].
    intros txid Hin. destruct (H7 _ Hin) as (t & sl & Ht). eauto.
  - intros num rn errors tx st e tx1 st1 evs1 Ea.
    assert (H := async_attempt_observed i (S rn) tx st). rewrite Ea in H.
    destruct H as (H1 & H2 & H3 & H4 & H5 & H6 & _ & H7).
    splits; auto; [discriminate|].
    intros txid Hin. destruct (H7 _ Hin) as (t & sl & Ht). eauto.
  - intros retries num rn errors tx st e tx1 st1 evs1 st2 evs2 tx3 st3 evs3
      s k st4 evs4 Ea Eo Ed Er (I1 & I2 & I3 & I4 & I5 & I6 & I7).
    assert (H := async_attempt_observed i (S rn) tx st). rewrite Ea in H.
    destruct H as (H1 & H2 & H3 & H4 & H5 & H6 & _ & H7).
    assert (Ho := async_onRetry_observed i e num st1). rewrite Eo in Ho.
    destruct Ho as (O1 & O2 & O3 & O4 & O5 & O6 & O7 & _).
    assert (Hd := async_deliver_quiet i (Async.arrivals w (Async.AtTimer i num)) tx1 st2).
    rewrite Ed in Hd. destruct Hd as (D1 & D2 & D3).
    destruct (rebuilding_observed D3) as (B1 & B2 & B3 & B4 & B5 & B6 & B7).
    rewrite !progress_indices_app, !failures_app, !submitted_at_app,
      O2, O3, O4, B1, B2, B4, H6, I6.
    simpl. rewrite !length_app.
    splits; auto.
    + intros Hw. apply I1, D2. rewrite O1. apply H1, Hw.
    + rewrite I2, D1, O1, H2. lia.
    + repeat (apply Forall_app; split); auto.
    + intros Hs. apply in_or_app. right. apply I4, Hs.
    + lia.
    + intros txid Hin. apply in_app_or in Hin. destruct Hin as [Hin|Hin].
      { destruct (H7 _ Hin) as (t & sl & Ht & Hsend).
        exists (S rn), t, sl. split; [apply in_or_app; left; exact Ht|exact Hsend]. }
      apply in_app_or in Hin. destruct Hin as [Hin|Hin]; [elim (O6 _ _ Hin)|].
      apply in_app_or in Hin. destruct Hin as [Hin|Hin]; [elim (B6 _ _ Hin)|].
      destruct (I7 _ Hin) as (n & t & sl & Ht & Hsend).
      exists n, t, sl. split; [|exact Hsend].
      apply in_or_app. right. apply in_or_app. right. apply in_or_app. right.
      exact Ht.
Qed.

(** ** The loop *)

Lemma async_send_loop_done fuel i st :
  length (signedTXs (Async.vars st)) <= i ->
  Async.send_loop pk sets cfg w fuel i st = (Resolved, st, []).
Proof.
  intros H. destruct fuel; simpl;
    destruct (Nat.ltb_spec i (length (signedTXs (Async.vars st))));
    try reflexivity; lia.
Qed.

Lemma async_send_loop_step fuel i st :
  i < length (signedTXs (Async.vars st)) ->
  Async.send_loop pk sets cfg w (S fuel) i st
  = let '(r, _, st', evs) :=
      Async.retry pk sets cfg w i (Z.to_nat (maxSigningAttempts cfg)) 1 0 []
                  (js_get (signedTXs (Async.vars st)) i) st in
    match r with
    | Fulfilled =>
        let '(o, st'', evs') := Async.send_loop pk sets cfg w fuel (S i) st' in
        (o, st'', evs ++ evs')
    | Rejected error =>
        if abortOnFailure cfg
        then (Resolved, st', evs ++ [Async.onFailure sets error i st'])
        else
          let '(o, st'', evs') := Async.send_loop pk sets cfg w fuel (S i) st' in
          (o, st'', evs ++ [Async.onFailure sets error i st'] ++ evs')
    end.
Proof.
  intros H. simpl.
  destruct (Nat.ltb_spec i (length (signedTXs (Async.vars st)))); [reflexivity|lia].
Qed.

(** The loop stops: the array never grows past the number of instruction
    sets, so that many turns are enough. *)
Lemma async_send_loop_resolves fuel : forall i st o st' evs,
  Async.send_loop pk sets cfg w fuel i st = (o, st', evs) ->
  within sets (Async.vars st) ->
  length sets <= i + fuel ->
  o = Resolved /\ within sets (Async.vars st').
Proof.
  unfold within.
  induction fuel as [|fuel IH]; intros i st o st' evs H Hl Hf.
  - rewrite async_send_loop_done in H by lia. injection H as <- <- <-. auto.
  - destruct (le_lt_dec (length (signedTXs (Async.vars st))) i) as [Hd|Hlt].
    { rewrite async_send_loop_done in H by lia. injection H as <- <- <-. auto. }
    rewrite async_send_loop_step in H by exact Hlt.
    destruct (Async.retry pk sets cfg w i _ 1 0 [] _ st)
      as [[[r k] st1] evs1] eqn:E.
    pose proof E as Hl1. apply async_retry_observed in Hl1.
    destruct Hl1 as (Hl1 & _). specialize (Hl1 Hl). unfold within in Hl1.
    destruct r as [|error].
    + destruct (Async.send_loop pk sets cfg w fuel (S i) st1)
        as [[o2 st2] evs2] eqn:E2.
      injection H as <- <- <-. eapply IH; [exact E2|exact Hl1|lia].
    + destruct (abortOnFailure cfg).
      * injection H as <- <- <-. auto.
      * destruct (Async.send_loop pk sets cfg w fuel (S i) st1)
          as [[o2 st2] evs2] eqn:E2.
        injection H as <- <- <-. eapply IH; [exact E2|exact Hl1|lia].
Qed.

Lemma during_item_from_item i j e :
  i <= j -> during_item j e = true -> from_item i e = true.
Proof.
  intros Hij. destruct e; simpl; try reflexivity; try discriminate;
    intros H; apply Nat.eqb_eq in H; subst; apply Nat.leb_le; exact Hij.
Qed.

(** The events of the loop from index [i] belong to items from [i] on. *)
Lemma async_send_loop_from_item fuel : forall i st o st' evs,
  Async.send_loop pk sets cfg w fuel i st = (o, st', evs) ->
  Forall (fun e => from_item i e = true) evs.
Proof.
  induction fuel as [|fuel IH]; intros i st o st' evs H.
  - simpl in H. destruct (i <? _); injection H as <- <- <-; constructor.
  - destruct (le_lt_dec (length (signedTXs (Async.vars st))) i) as [Hd|Hlt].
    { rewrite async_send_loop_done in H by lia. injection H as <- <- <-. constructor. }
    rewrite async_send_loop_step in H by exact Hlt.
    destruct (Async.retry pk sets cfg w i _ 1 0 [] _ st)
      as [[[r k] st1] evs1] eqn:E.
    pose proof E as Hobs. apply async_retry_observed in Hobs.
    destruct Hobs as (_ & _ & Hd & _).
    assert (Hd' : Forall (fun e => from_item i e = true) evs1).
    { eapply Forall_impl; [|exact Hd]. intros e. apply during_item_from_item. lia. }
    assert (Hnext : forall o2 st2 evs2,
      Async.send_loop pk sets cfg w fuel (S i) st1 = (o2, st2, evs2) ->
      Forall (fun e => from_item i e = true) evs2).
    { intros o2 st2 evs2 E2. apply IH in E2.
      eapply from_item_weaken; [|exact E2]. lia. }
    assert (HF : forall error, from_item i (Async.onFailure sets error i st1) = true)
      by (intros; simpl; apply Nat.leb_refl).
    destruct r as [|error].
    + destruct (Async.send_loop pk sets cfg w fuel (S i) st1)
        as [[o2 st2] evs2] eqn:E2.
      injection H as <- <- <-. apply Forall_app. eauto.
    + destruct (abortOnFailure cfg).
      * injection H as <- <- <-. apply Forall_app. split; [exact Hd'|].
        constructor; [apply HF|constructor].
      * destruct (Async.send_loop pk sets cfg w fuel (S i) st1)
          as [[o2 st2] evs2] eqn:E2.
        injection H as <- <- <-. apply Forall_app. split; [exact Hd'|].
        constructor; [apply HF|eauto].
Qed.

(** Case analysis on the loop, following [Async.send_loop], for a loop
    that did not run out of fuel. *)
Lemma async_send_loop_cases (P : nat -> Async.Task -> Async.Task -> list Event -> Prop) :
  (forall i st, length (signedTXs (Async.vars st)) <= i -> P i st st []) ->
  (forall i st k st1 evs1 st2 evs2,
      i < length (signedTXs (Async.vars st)) ->
      Async.retry pk sets cfg w i (Z.to_nat (maxSigningAttempts cfg)) 1 0 []
        (js_get (signedTXs (Async.vars st)) i) st = (Fulfilled, k, st1, evs1) ->
      Forall (fun e => from_item (S i) e = true) evs2 ->
      P (S i) st1 st2 evs2 ->
      P i st st2 (evs1 ++ evs2)) ->
  (forall i st error k st1 evs1,
      i < length (signedTXs (Async.vars st)) ->
      Async.retry pk sets cfg w i (Z.to_nat (maxSigningAttempts cfg)) 1 0 []
        (js_get (signedTXs (Async.vars st)) i) st = (Rejected error, k, st1, evs1) ->
      abortOnFailure cfg = true ->
      P i st st1 (evs1 ++ [Async.onFailure sets error i st1])) ->
  (forall i st error k st1 evs1 st2 evs2,
      i < length (signedTXs (Async.vars st)) ->
      Async.retry pk sets cfg w i (Z.to_nat (maxSigningAttempts cfg)) 1 0 []
        (js_get (signedTXs (Async.vars st)) i) st = (Rejected error, k, st1, evs1) ->
      abortOnFailure cfg = false ->
      Forall (fun e => from_item (S i) e = true) evs2 ->
      P (S i) st1 st2 evs2 ->
      P i st st2 (evs1 ++ [Async.onFailure sets error i st1] ++ evs2)) ->
  forall fuel i st o st' evs,
    Async.send_loop pk sets cfg w fuel i st = (o, st', evs) ->
    o <> OutOfFuel ->
    P i st st' evs.
Proof.
  intros Hdone Hok Habort Hgo.
  induction fuel as [|fuel IH]; intros i st o st' evs H Ho.
  { destruct (le_lt_dec (length (signedTXs (Async.vars st))) i) as [Hd|Hlt].
    - rewrite async_send_loop_done in H by lia. injection H as <- <- <-. auto.
    - simpl in H.
      destruct (Nat.ltb_spec i (length (signedTXs (Async.vars st)))); [|lia].
      injection H as <- <- <-. congruence. }
  destruct (le_lt_dec (length (signedTXs (Async.vars st))) i) as [Hd|Hlt].
  { rewrite async_send_loop_done in H by lia. injection H as <- <- <-. auto. }
  rewrite async_send_loop_step in H by exact Hlt.
  destruct (Async.retry pk sets cfg w i _ 1 0 [] _ st) as [[[r k] st1] evs1] eqn:E.
  destruct r as [|error].
  - destruct (Async.send_loop pk sets cfg w fuel (S i) st1)
      as [[o2 st2] evs2] eqn:E2.
    injection H as <- <- <-.
    eapply Hok; eauto. eapply async_send_loop_from_item; exact E2.
  - destruct (abortOnFailure cfg) eqn:Ea.
    + injection H as <- <- <-. eapply Habort; eauto.
    + destruct (Async.send_loop pk sets cfg w fuel (S i) st1)
        as [[o2 st2] evs2] eqn:E2.
      injection H as <- <- <-.
      eapply Hgo; eauto. eapply async_send_loop_from_item; exact E2.
Qed.


Lemma during_item_progress i j txid evs :
  Forall (fun e => during_item i e = true) evs ->
  In (EvProgress j txid) evs -> j = i.
Proof.
  intros H Hin. rewrite Forall_forall in H. specialize (H _ Hin).
  simpl in H. apply Nat.eqb_eq in H. exact H.
Qed.



End AsyncFacts.

(** ** [send] at the level of the event loop *)

Lemma async_unsigned_within pk sets bh :
  length (Async.unsignedTXs pk sets bh) <= length sets.
Proof.
  unfold Async.unsignedTXs. rewrite length_map. apply filter_length_le.
Qed.

(** A run that passed the guards and got its first answers is the run of
    the loop, which resolves. *)
Lemma async_send_runs_the_loop s w pk sets slot0 block0 u :
  wallet_publicKey s = Some pk ->
  sender_instructionSets s = Some sets ->
  sets <> [] ->
  Async.firstRefresh w = Returns (slot0, block0) ->
  Async.firstSignature w = Returns u ->
  exists st' evs,
    Async.send_loop pk sets (sender_configuration s) w (length sets) 0
      (Async.initial_task pk sets slot0 block0) = (Resolved, st', evs)
    /\ Async.send s w
       = (Resolved,
          [EvGetSlotAndBlockhash; EvSignAll (Async.unsignedTXs pk sets block0)]
          ++ evs).
Proof.
  intros Hw Hs Hne Hf Hg.
  destruct (Async.send_loop pk sets (sender_configuration s) w (length sets) 0
              (Async.initial_task pk sets slot0 block0)) as [[o st'] evs] eqn:E.
  assert (Ho : o = Resolved).
  { eapply async_send_loop_resolves; [exact E| |lia].
    apply async_unsigned_within. }
  subst o. exists st', evs. split; [reflexivity|].
  unfold Async.send. rewrite Hw, Hs.
  destruct sets as [|s0 sets']; [congruence|].
  unfold Async.send_body. rewrite Hf, Hg, E. reflexivity.
Qed.



(** C5.  The retry handler is not waited for.  On the batch (setA, setB),
    with the first attempt of item 0 timing out and the polled slot past
    the window, the handler reads slot and blockhash, fires the re-sign
    callback with (1, 0), rebuilds both envelopes and asks the wallet for
    signatures; the wallet answers only after the library has started the
    second attempt, and the second attempt submits the envelope of the
    first, built on the old blockhash.  The same happens, whenever the
    answers arrive, on the batch (setA, setE, setB): the rebuild throws at
    the set without instructions, the handler ends there, and the second
    attempt submits the old envelope. *)
Theorem stale_envelope_is_resubmitted :
  Async.send (sender 3 true [setA; setB]) world_slow_wallet
  = (Resolved,
     [EvGetSlotAndBlockhash; EvSignAll [Some envA; Some envB];
      EvSubmit 0 envA;
      EvGetSlot; EvGetSlotAndBlockhash; EvReSign 1 0;
      EvSignAll [Some envA1; Some envB1];
      EvSubmit 0 envA; EvProgress 0 "sig";
      EvSubmit 1 envB1; EvGetSlot; EvSubmit 1 envB1; EvProgress 1 "sig"])
  /\ Async.send (sender 3 true [setA; setE; setB]) (orderly ledger_late)
     = (Resolved,
        [EvGetSlotAndBlockhash; EvSignAll [Some envA; Some envB];
         EvSubmit 0 envA;
         EvGetSlot; EvGetSlotAndBlockhash; EvReSign 1 0;
         EvSubmit 0 envA; EvProgress 0 "sig";
         EvSubmit 1 envB; EvGetSlot; EvSubmit 1 envB; EvProgress 1 "sig"])
  /\ recentBlockhash envA = "h0"
  /\ recentBlockhash envA1 = "h1".
Proof. repeat split. Qed.

(** C9.  The rebuilder walks the instruction sets as they were given,
    without the filter [send] applies before the first signature.  With
    the instruction sets (setA, setE, setB) and the array (envA, envB), a
    call from index 1 fires the re-sign callback and then throws
    "No instructions": no envelope is replaced, the wallet is not asked,
    nothing is returned; a call from index 0 replaces the envelope at 0 and
    throws at 1, leaving the envelope at 1 as it was.  With the instruction
    sets (setE, setA, setB) a call from index 1 puts an envelope built from
    setA at position 1, where the envelope of setB was, and makes the
    array one longer. *)
Theorem rebuild_meets_an_empty_set :
  Async.signAndRebuildTransactionsFromInstructionSets "payer" [setA; setE; setB]
    [Some envA; Some envB] 1 "h1" 0 (Returns tt)
  = (Throws "No instructions", [Some envA; Some envB], [EvReSign 0 1])
  /\ Async.signAndRebuildTransactionsFromInstructionSets "payer" [setA; setE; setB]
       [Some envA; Some envB] 0 "h1" 2 (Returns tt)
     = (Throws "No instructions", [Some envA1; Some envB], [EvReSign 2 0])
  /\ Async.signAndRebuildTransactionsFromInstructionSets "payer" [setE; setA; setB]
       [Some envA; Some envB] 1 "h1" 0 (Returns tt)
     = (Returns (Some envA1), [Some envA; Some envA1; Some envB1],
        [EvReSign 0 1; EvSignAll [Some envA1; Some envB1]]).
Proof. repeat split. Qed.


(** ** Batches whose instruction sets all have instructions *)

Section AsyncCalm.

Variable pk : PublicKey.
Variable sets : list InstructionSet.
Variable cfg : SmartInstructionSenderConfiguration.
Variable w : Async.World.

Hypothesis sets_have_instructions : Forall has_instructions sets.

(** The loop of the rebuilder does not throw, and does what the loop of
    the first part does. *)
Lemma async_rebuild_loop_total bh : forall js txs,
  Forall (fun j => j < length sets) js ->
  Async.rebuild_loop pk sets bh js txs
  = (Returns tt, fold_left (rebuild_at pk sets bh) js txs).
Proof.
  induction js as [|j js IH]; intros txs Hjs; simpl; [reflexivity|].
  inversion Hjs as [|? ? Hj Hjs']; subst.
  unfold rebuild_at at 2.
  destruct (nth_error sets j) as [s|] eqn:Es;
    [|apply nth_error_None in Es; lia].
  assert (Hs : has_instructions s).
  { rewrite Forall_forall in sets_have_instructions.
    apply sets_have_instructions. eapply nth_error_In, Es. }
  unfold Async.newTransaction. unfold has_instructions in Hs.
  destruct (instructions s) eqn:Ei; [congruence|].
  apply IH, Hjs'.
Qed.

Lemma async_rebuild_request_total txs index bh attempt :
  Async.rebuild_request pk sets txs index bh attempt
  = (Returns tt, rebuild_loop pk sets bh index txs,
     [EvReSign attempt index;
      EvSignAll (js_slice_from (rebuild_loop pk sets bh index txs) index)]).
Proof.
  unfold Async.rebuild_request. rewrite async_rebuild_loop_total.
  - reflexivity.
  - apply Forall_forall. intros j Hj. apply in_seq in Hj. lia.
Qed.


Hypothesis first_attempts_succeed :
  forall j t, exists txid sl,
    Async.sendSignedTransaction (Async.submission w j 1 t) = Returns (sent txid sl).
Hypothesis reads_return : forall j, exists b, Async.refreshed w j 1 = Returns b.
Hypothesis wallet_signs : forall j, exists u, Async.signature w j 1 = Returns u.



End AsyncCalm.


(** ** The theorems of the event loop at work *)



(** ** connectionTools.ts with [serialize] *)

(** X3. [sendSignedTransaction], with the [serialize] it starts with,
    returns a failure exactly when [serialize] returned and the
    send-and-confirm step failed, with the error of that step; it returns a
    success exactly when [serialize] returned, that step succeeded and the
    lookup returned, with the slot of the record found, 0 when there is
    none; and it throws exactly when [serialize] threw, or [serialize]
    returned, the step succeeded and the lookup threw. *)
Theorem send_signed_outcomes_with_serialize c :
  (forall e,
      Async.sendSignedTransaction c = Returns (failed e)
      <-> (exists u, Async.serialize c = Returns u)
          /\ sendAndConfirmRawTransactionEx (Async.connection c) = err e)
  /\ (forall txid s,
        Async.sendSignedTransaction c = Returns (sent txid s)
        <-> (exists u, Async.serialize c = Returns u)
            /\ sendAndConfirmRawTransactionEx (Async.connection c) = ok txid
            /\ (getConfirmedTransaction (Async.connection c) = Returns (Some s)
                \/ getConfirmedTransaction (Async.connection c) = Returns None
                   /\ s = 0%Z))
  /\ (forall m,
        Async.sendSignedTransaction c = Throws m
        <-> Async.serialize c = Throws m
            \/ ((exists u, Async.serialize c = Returns u)
                /\ (exists txid,
                       sendAndConfirmRawTransactionEx (Async.connection c) = ok txid)
                /\ getConfirmedTransaction (Async.connection c) = Throws m)).
Proof.
  unfold Async.sendSignedTransaction.
  destruct (Async.serialize c) as [u|m0].
  2:{ splits; intros; split; intros H; try discriminate.
      - destruct H as ((u & H) & _). discriminate.
      - destruct H as ((u & H) & _). discriminate.
      - injection H as ->. auto.
      - destruct H as [H|((u & H) & _)]; [congruence|discriminate]. }
  destruct (sendAndConfirmRawTransactionEx (Async.connection c)) as [txid0|e0].
  2:{ splits; intros; split; intros H; try discriminate.
      - injection H as ->. eauto.
      - destruct H as (_ & H). congruence.
      - destruct H as (_ & H & _). discriminate.
      - destruct H as [H|(_ & (txid & H) & _)]; discriminate. }
  destruct (getConfirmedTransaction (Async.connection c)) as [[s0|]|m0];
    splits; intros; split; intros H; try discriminate;
    try (destruct H as (_ & H); discriminate).
  - injection H as <- <-. eauto.
  - destruct H as (_ & H & [H1|[H1 _]]); [|discriminate].
    injection H as <-. injection H1 as <-. reflexivity.
  - destruct H as [H|(_ & _ & H)]; discriminate.
  - injection H as <- <-. eauto 6.
  - destruct H as (_ & H & [H1|[_ ->]]); [discriminate|].
    injection H as <-. reflexivity.
  - destruct H as [H|(_ & _ & H)]; discriminate.
  - destruct H as (_ & _ & [H|[H _]]); discriminate.
  - injection H as <-. right. eauto.
  - destruct H as [H|(_ & _ & H)]; [discriminate|]. congruence.
Qed.

(** ** The rebuilder, with the exception of [add] *)

Section AsyncRebuilder.

Variable pk : PublicKey.
Variable sets : list InstructionSet.

Lemma seq_split index n : forall done k rest,
  seq index n = done ++ k :: rest ->
  done = seq index (length done) /\ k = index + length done.
Proof.
  revert index. induction n as [|n IH]; intros index done k rest H.
  - destruct done; discriminate.
  - destruct done as [|d done]; simpl in H.
    + injection H as <- _. simpl. split; [reflexivity|lia].
    + injection H as <- H. apply IH in H. destruct H as [H1 H2].
      simpl. split; [f_equal; exact H1|lia].
Qed.

(** The loop stops at the first index whose instruction set makes [add]
    throw; up to there it does what the loop of the first part does. *)
Lemma async_rebuild_loop_stops bh : forall js txs r txs',
  Async.rebuild_loop pk sets bh js txs = (r, txs') ->
  exists done rest,
    js = done ++ rest
    /\ txs' = fold_left (rebuild_at pk sets bh) done txs
    /\ Forall (fun j => exists s, nth_error sets j = Some s /\ has_instructions s)
              done
    /\ ((rest = [] /\ r = Returns tt)
        \/ (exists k rest', rest = k :: rest'
              /\ ((nth_error sets k = None /\ r = Throws "TypeError")
                  \/ (exists s, nth_error sets k = Some s /\ instructions s = []
                        /\ r = Throws "No instructions")))).
Proof.
  induction js as [|j js IH]; intros txs r txs' H; simpl in H.
  - injection H as <- <-. exists [], []. splits; auto.
  - destruct (nth_error sets j) as [s|] eqn:Es.
    2:{ injection H as <- <-. exists [], (j :: js). splits; auto.
        right. eauto 6. }
    unfold Async.newTransaction in H.
    destruct (instructions s) as [|x l] eqn:Ei.
    { injection H as <- <-. exists [], (j :: js). splits; auto.
      right. exists j, js. split; [reflexivity|]. right. eauto. }
    apply IH in H. destruct H as (done & rest & -> & -> & Hall & Hr).
    exists (j :: done), rest. splits; auto.
    + simpl. f_equal. unfold rebuild_at. rewrite Es. reflexivity.
    + constructor; [|exact Hall]. exists s. split; [exact Es|].
      unfold has_instructions. congruence.
Qed.

Lemma rebuild_fold_above bh n : forall index txs j,
  index + n <= j ->
  js_get (fold_left (rebuild_at pk sets bh) (seq index n) txs) j = js_get txs j.
Proof.
  induction n as [|n IH]; intros index txs j Hj; simpl; [reflexivity|].
  rewrite IH by lia. unfold rebuild_at.
  destruct (nth_error sets index); [|reflexivity].
  apply js_get_set_other. lia.
Qed.

Lemma js_get_slice_first {A} (a : JsArray A) index :
  js_get (js_slice_from a index) 0 = js_get a index.
Proof.
  unfold js_get, js_slice_from. rewrite nth_error_skipn, Nat.add_0_r. reflexivity.
Qed.

End AsyncRebuilder.

(** X14. A call of the rebuilder, in every case: the re-sign callback is
    fired first with (attempt, index), and the envelopes below [index] are
    left as they are.  When every instruction set from [index] on has
    instructions, the wallet is asked for the envelopes from [index] on,
    each of them is a new one built from the instruction set at its
    position and the blockhash, and the call returns the envelope at
    [index], or throws what the wallet threw.  When [k] is the first index
    from [index] on whose instruction set has no instructions, the call
    throws "No instructions" without asking the wallet: the envelopes from
    [index] up to [k] are new, those from [k] on are left as they are. *)
Theorem rebuilder_with_its_exception pk sets txs index bh attempt signed :
  let '(r, txs', evs) :=
    Async.signAndRebuildTransactionsFromInstructionSets pk sets txs index bh
      attempt signed in
  (exists rest, evs = EvReSign attempt index :: rest)
  /\ (forall j, j < index -> js_get txs' j = js_get txs j)
  /\ ((forall j s, index <= j -> nth_error sets j = Some s -> has_instructions s) ->
      evs = [EvReSign attempt index; EvSignAll (js_slice_from txs' index)]
      /\ (forall j s, index <= j -> nth_error sets j = Some s ->
            js_get txs' j = Some (buildTransaction pk bh s))
      /\ r = match signed with
             | Returns _ => Returns (js_get txs' index)
             | Throws m => Throws m
             end)
  /\ (forall k sk,
        index <= k -> nth_error sets k = Some sk -> instructions sk = [] ->
        (forall j s, index <= j < k -> nth_error sets j = Some s ->
                     has_instructions s) ->
        r = Throws "No instructions"
        /\ evs = [EvReSign attempt index]
        /\ (forall j s, index <= j < k -> nth_error sets j = Some s ->
              js_get txs' j = Some (buildTransaction pk bh s))
        /\ (forall j, k <= j -> js_get txs' j = js_get txs j)).
Proof.
  unfold Async.signAndRebuildTransactionsFromInstructionSets, Async.rebuild_request.
  destruct (Async.rebuild_loop pk sets bh (seq index (length sets - index)) txs)
    as [r0 txs0] eqn:Eloop.
  apply async_rebuild_loop_stops in Eloop.
  destruct Eloop as (done & rest & Hseq & -> & Hall & Hr).
  assert (Hdone : done = seq index (length done)).
  { destruct rest as [|k rest'].
    - rewrite app_nil_r in Hseq. rewrite <- Hseq, length_seq. reflexivity.
    - apply (seq_split _ _ _ _ _ Hseq). }
  assert (Hbelow : forall j, j < index ->
            js_get (fold_left (rebuild_at pk sets bh) done txs) j = js_get txs j).
  { intros j Hj. rewrite Hdone. apply rebuild_fold_below, Hj. }
  assert (Hat : forall j s, index <= j < index + length done ->
            nth_error sets j = Some s ->
            js_get (fold_left (rebuild_at pk sets bh) done txs) j
            = Some (buildTransaction pk bh s)).
  { intros j s Hj Hs. rewrite Hdone. apply rebuild_fold_at; assumption. }
  assert (Habove : forall j, index + length done <= j ->
            js_get (fold_left (rebuild_at pk sets bh) done txs) j = js_get txs j).
  { intros j Hj. rewrite Hdone. apply rebuild_fold_above, Hj. }
  destruct Hr as [[-> ->]|(k0 & rest' & -> & Hk0)].
  - (* the loop went through *)
    rewrite app_nil_r in Hseq.
    assert (Hlen : length done = length sets - index)
      by (rewrite <- Hseq, length_seq; reflexivity).
    assert (Hres : match signed with
                   | Returns _ =>
                       (Returns (Async.rebuild_result
                                   (fold_left (rebuild_at pk sets bh) done txs) index),
                        fold_left (rebuild_at pk sets bh) done txs,
                        [EvReSign attempt index]
                        ++ [EvSignAll (js_slice_from
                                         (fold_left (rebuild_at pk sets bh) done txs)
                                         index)])
                   | Throws m =>
                       (Throws m, fold_left (rebuild_at pk sets bh) done txs,
                        [EvReSign attempt index]
                        ++ [EvSignAll (js_slice_from
                                         (fold_left (rebuild_at pk sets bh) done txs)
                                         index)])
                   end
                   = (match signed with
                      | Returns _ =>
                          Returns (js_get (fold_left (rebuild_at pk sets bh) done txs)
                                          index)
                      | Throws m => Throws m
                      end,
                      fold_left (rebuild_at pk sets bh) done txs,
                      [EvReSign attempt index;
                       EvSignAll (js_slice_from
                                    (fold_left (rebuild_at pk sets bh) done txs)
                                    index)])).
    { unfold Async.rebuild_result. rewrite js_get_slice_first.
      destruct signed; reflexivity. }
    rewrite Hres. splits.
    + eexists. reflexivity.
    + exact Hbelow.
    + intros _. splits; auto.
      intros j s Hj Hs. apply Hat; [|exact Hs].
      assert (j < length sets) by (apply nth_error_Some; congruence). lia.
    + intros k sk Hk Hsk Hempty _. exfalso.
      assert (Hin : In k done).
      { rewrite <- Hseq. apply in_seq.
        assert (k < length sets) by (apply nth_error_Some; congruence). lia. }
      rewrite Forall_forall in Hall. destruct (Hall _ Hin) as (s & Hs & Hi).
      rewrite Hsk in Hs. injection Hs as <-. exact (Hi Hempty).
  - (* the loop stopped at [k0] *)
    destruct (seq_split _ _ _ _ _ Hseq) as [_ Hk0eq].
    assert (Hk0in : index <= k0 < length sets).
    { assert (In k0 (seq index (length sets - index)))
        by (rewrite Hseq; apply in_or_app; right; left; reflexivity).
      apply in_seq in H. lia. }
    destruct Hk0 as [[Hnone _]|(s0 & Hs0 & Hempty0 & ->)].
    { apply nth_error_None in Hnone. lia. }
    splits.
    + eexists. reflexivity.
    + exact Hbelow.
    + intros Hall'. exfalso.
      exact (Hall' k0 s0 (proj1 Hk0in) Hs0 Hempty0).
    + intros k sk Hk Hsk Hempty Hbefore.
      assert (Hkk : k = k0).
      { destruct (Nat.lt_trichotomy k k0) as [Hlt|[Heq|Hgt]]; [|exact Heq|].
        - exfalso. assert (Hin : In k done).
          { rewrite Hdone. apply in_seq. lia. }
          rewrite Forall_forall in Hall. destruct (Hall _ Hin) as (s & Hs & Hi).
          rewrite Hsk in Hs. injection Hs as <-. exact (Hi Hempty).
        - exfalso. exact (Hbefore k0 s0 (conj (proj1 Hk0in) Hgt) Hs0 Hempty0). }
      subst k. splits; auto.
      * intros j s Hj Hs. apply Hat; [lia|exact Hs].
      * intros j Hj. apply Habove. lia.
Qed.

(** ** Every run of the event loop *)

Section AsyncCoverage.

Variable pk : PublicKey.
Variable sets : list InstructionSet.
Variable cfg : SmartInstructionSenderConfiguration.
Variable w : Async.World.

Lemma during_item_elsewhere i j evs :
  Forall (fun e => during_item i e = true) evs -> j <> i ->
  submitted_at j evs = [].
Proof.
  induction 1 as [|e l He _ IH]; intros Hj; [reflexivity|].
  simpl. rewrite (IH Hj), app_nil_r.
  destruct e; try reflexivity. simpl in He. apply Nat.eqb_eq in He. subst.
  destruct (Nat.eqb_spec i j); [congruence|reflexivity].
Qed.

Lemma during_item_progress_indices i evs :
  Forall (fun e => during_item i e = true) evs ->
  Forall (fun j => j = i) (progress_indices evs).
Proof.
  induction 1 as [|e l He _ IH]; [constructor|].
  destruct e; simpl in *; auto. constructor; [apply Nat.eqb_eq, He|exact IH].
Qed.

(** The library runs the attempt function at most retries + 1 times, and
    each run hands the envelope over at most once. *)
Lemma async_send_loop_attempts fuel i st o st' evs :
  Async.send_loop pk sets cfg w fuel i st = (o, st', evs) ->
  o <> OutOfFuel ->
  forall j, length (submitted_at j evs) <= S (Z.to_nat (maxSigningAttempts cfg)).
Proof.
  revert fuel i st o st' evs.
  apply (@async_send_loop_cases pk sets cfg w
           (fun i st st' evs =>
              forall j, length (submitted_at j evs)
                        <= S (Z.to_nat (maxSigningAttempts cfg)))).
  - intros i st _ j. simpl. lia.
  - intros i st k st1 evs1 st2 evs2 Hlt E Hfrom IH j.
    apply async_retry_observed in E. destruct E as (_ & _ & Hd & _ & Hn & _).
    rewrite submitted_at_app, length_app.
    destruct (Nat.eq_dec j i) as [->|Hne].
    + rewrite (from_item_not_submitted Hfrom) by lia. simpl. lia.
    + rewrite (during_item_elsewhere Hd Hne). simpl. apply IH.
  - intros i st error k st1 evs1 Hlt E _ j.
    apply async_retry_observed in E. destruct E as (_ & _ & Hd & _ & Hn & _).
    rewrite submitted_at_app, length_app. simpl.
    destruct (Nat.eq_dec j i) as [->|Hne].
    + lia.
    + rewrite (during_item_elsewhere Hd Hne). simpl. lia.
  - intros i st error k st1 evs1 st2 evs2 Hlt E _ Hfrom IH j.
    apply async_retry_observed in E. destruct E as (_ & _ & Hd & _ & Hn & _).
    rewrite !submitted_at_app, !length_app. simpl.
    destruct (Nat.eq_dec j i) as [->|Hne].
    + rewrite (from_item_not_submitted Hfrom) by lia. simpl. lia.
    + rewrite (during_item_elsewhere Hd Hne). simpl. apply IH.
Qed.

(** The indices of the progress calls never go down. *)
Lemma async_send_loop_progress_sorted fuel i st o st' evs :
  Async.send_loop pk sets cfg w fuel i st = (o, st', evs) ->
  o <> OutOfFuel ->
  StronglySorted le (progress_indices evs)
  /\ Forall (fun j => i <= j) (progress_indices evs).
Proof.
  revert fuel i st o st' evs.
  assert (Hrep : forall i l rest,
    Forall (fun j => j = i) l -> StronglySorted le rest ->
    Forall (fun j => S i <= j) rest ->
    StronglySorted le (l ++ rest) /\ Forall (fun j => i <= j) (l ++ rest)).
  { intros i l rest Hl Hs Hr.
    assert (Hr' : Forall (fun j => i <= j) rest)
      by (eapply Forall_impl; [|exact Hr]; simpl; intros; lia).
    induction Hl as [|x l Hx Hl IH]; simpl; [auto|].
    destruct IH as [IH1 IH2]. subst x. split; constructor; auto. }
  apply (@async_send_loop_cases pk sets cfg w
           (fun i st st' evs =>
              StronglySorted le (progress_indices evs)
              /\ Forall (fun j => i <= j) (progress_indices evs))).
  - intros; split; constructor.
  - intros i st k st1 evs1 st2 evs2 _ E Hfrom [IH _].
    apply async_retry_observed in E. destruct E as (_ & _ & Hd & _).
    rewrite progress_indices_app.
    apply Hrep; [apply during_item_progress_indices, Hd|exact IH|].
    apply from_item_progress, Hfrom.
  - intros i st error k st1 evs1 _ E _.
    apply async_retry_observed in E. destruct E as (_ & _ & Hd & _).
    rewrite progress_indices_app. simpl.
    apply Hrep; [apply during_item_progress_indices, Hd|constructor|constructor].
  - intros i st error k st1 evs1 st2 evs2 _ E _ Hfrom [IH _].
    apply async_retry_observed in E. destruct E as (_ & _ & Hd & _).
    rewrite !progress_indices_app. simpl.
    apply Hrep; [apply during_item_progress_indices, Hd|exact IH|].
    apply from_item_progress, Hfrom.
Qed.

(** A progress call follows a submission of its index that
    [sendSignedTransaction] reported as sent, with the transaction id of
    that report. *)
Lemma async_send_loop_progress_is_confirmed fuel i st o st' evs :
  Async.send_loop pk sets cfg w fuel i st = (o, st', evs) ->
  o <> OutOfFuel ->
  forall j txid, In (EvProgress j txid) evs ->
    exists n t sl,
      In (EvSubmit j t) evs
      /\ Async.sendSignedTransaction (Async.submission w j n t)
         = Returns (sent txid sl).
Proof.
  revert fuel i st o st' evs.
  assert (Hitem : forall i evs1 j txid,
    Forall (fun e => during_item i e = true) evs1 ->
    (forall txid, In (EvProgress i txid) evs1 ->
       exists n t sl, In (EvSubmit i t) evs1
                      /\ Async.sendSignedTransaction (Async.submission w i n t)
                         = Returns (sent txid sl)) ->
    In (EvProgress j txid) evs1 ->
    exists n t sl, In (EvSubmit j t) evs1
                   /\ Async.sendSignedTransaction (Async.submission w j n t)
                      = Returns (sent txid sl)).
  { intros i evs1 j txid Hd Hp Hin.
    assert (j = i) by (eapply during_item_progress; eauto). subst j.
    apply Hp, Hin. }
  apply (@async_send_loop_cases pk sets cfg w
           (fun i st st' evs =>
              forall j txid, In (EvProgress j txid) evs ->
                exists n t sl,
                  In (EvSubmit j t) evs
                  /\ Async.sendSignedTransaction (Async.submission w j n t)
                     = Returns (sent txid sl))).
  - intros i st _ j txid [].
  - intros i st k st1 evs1 st2 evs2 _ E _ IH j txid Hin.
    apply async_retry_observed in E. destruct E as (_ & _ & Hd & _ & _ & _ & Hp).
    apply in_app_or in Hin. destruct Hin as [Hin|Hin].
    + destruct (Hitem _ _ _ _ Hd Hp Hin) as (n & t & sl & H1 & H2).
      exists n, t, sl. split; [apply in_or_app; left; exact H1|exact H2].
    + destruct (IH _ _ Hin) as (n & t & sl & H1 & H2).
      exists n, t, sl. split; [apply in_or_app; right; exact H1|exact H2].
  - intros i st error k st1 evs1 _ E _ j txid Hin.
    apply async_retry_observed in E. destruct E as (_ & _ & Hd & _ & _ & _ & Hp).
    apply in_app_or in Hin. destruct Hin as [Hin|[Hin|[]]]; [|discriminate].
    destruct (Hitem _ _ _ _ Hd Hp Hin) as (n & t & sl & H1 & H2).
    exists n, t, sl. split; [apply in_or_app; left; exact H1|exact H2].
  - intros i st error k st1 evs1 st2 evs2 _ E _ _ IH j txid Hin.
    apply async_retry_observed in E. destruct E as (_ & _ & Hd & _ & _ & _ & Hp).
    apply in_app_or in Hin. destruct Hin as [Hin|[Hin|Hin]]; [|discriminate|].
    + destruct (Hitem _ _ _ _ Hd Hp Hin) as (n & t & sl & H1 & H2).
      exists n, t, sl. split; [apply in_or_app; left; exact H1|exact H2].
    + destruct (IH _ _ Hin) as (n & t & sl & H1 & H2).
      exists n, t, sl. split; [|exact H2].
      apply in_or_app. right. right. exact H1.
Qed.

(** The counter passed to the failure callback is the number of progress
    calls made so far; the loop index passed before it is at most the
    number of calls, of either callback, made so far. *)
Lemma async_send_loop_failure_arguments fuel i st o st' evs :
  Async.send_loop pk sets cfg w fuel i st = (o, st', evs) ->
  o <> OutOfFuel ->
  forall pre error a b c post,
    evs = pre ++ EvFailure error a b c :: post ->
    b = successfulItems (Async.vars st) + length (progress_indices pre)
    /\ c = js_index sets (Z.of_nat b - 1)
    /\ i <= a <= i + length (progress_indices pre) + length (failures pre).
Proof.
  revert fuel i st o st' evs.
  apply (@async_send_loop_cases pk sets cfg w
           (fun i st st' evs =>
              forall pre error a b c post,
                evs = pre ++ EvFailure error a b c :: post ->
                b = successfulItems (Async.vars st) + length (progress_indices pre)
                /\ c = js_index sets (Z.of_nat b - 1)
                /\ i <= a <= i + length (progress_indices pre)
                              + length (failures pre))).
  - intros i st _ [|? ?] error a b c post H; discriminate.
  - intros i st k st1 evs1 st2 evs2 _ E _ IH pre error a b c post H.
    apply async_retry_observed in E.
    destruct E as (_ & Hc & _ & Hp & _ & Hf & _).
    assert (Hp1 : 1 <= length (progress_indices evs1)).
    { specialize (Hp eq_refl). destruct (progress_indices evs1); [destruct Hp|].
      simpl. lia. }
    apply app_split in H. destruct H as [(post1 & H & _)|(pre2 & -> & H)].
    + exfalso. eapply no_failures_no_failure; [exact Hf|].
      rewrite H. apply in_app_iff. right. left. reflexivity.
    + destruct (IH _ _ _ _ _ _ H) as (Hb & Hc' & Ha).
      rewrite progress_indices_app, failures_app, !length_app.
      splits; [lia|exact Hc'|lia|lia].
  - intros i st error0 k st1 evs1 _ E _ pre error a b c post H.
    apply async_retry_observed in E. destruct E as (_ & Hc & _ & _ & _ & Hf & _).
    apply app_split in H. destruct H as [(post1 & H & _)|(pre2 & -> & H)].
    + exfalso. eapply no_failures_no_failure; [exact Hf|].
      rewrite H. apply in_app_iff. right. left. reflexivity.
    + destruct pre2 as [|? [|? ?]]; try discriminate.
      injection H as <- <- <- <- _.
      rewrite app_nil_r. splits; [exact Hc|reflexivity|lia|lia].
  - intros i st error0 k st1 evs1 st2 evs2 _ E _ _ IH pre error a b c post H.
    apply async_retry_observed in E. destruct E as (_ & Hc & _ & _ & _ & Hf & _).
    apply app_split in H. destruct H as [(post1 & H & _)|(pre2 & -> & H)].
    + exfalso. eapply no_failures_no_failure; [exact Hf|].
      rewrite H. apply in_app_iff. right. left. reflexivity.
    + destruct pre2 as [|e0 pre2]; simpl in H.
      * injection H as <- <- <- <- _.
        rewrite app_nil_r. splits; [exact Hc|reflexivity|lia|lia].
      * injection H as <- H.
        destruct (IH _ _ _ _ _ _ H) as (Hb & Hc' & Ha).
        rewrite progress_indices_app, failures_app, !length_app. simpl.
        splits; [lia|exact Hc'|lia|lia].
Qed.

(** With abortOnFailure the first failure call ends the run. *)
Lemma async_send_loop_failure_ends_run fuel i st o st' evs :
  Async.send_loop pk sets cfg w fuel i st = (o, st', evs) ->
  o <> OutOfFuel ->
  abortOnFailure cfg = true ->
  forall pre error a b c post,
    evs = pre ++ EvFailure error a b c :: post ->
    post = [] /\ failures pre = [].
Proof.
  intros H Ho Hab. revert fuel i st o st' evs H Ho.
  apply (@async_send_loop_cases pk sets cfg w
           (fun i st st' evs =>
              forall pre error a b c post,
                evs = pre ++ EvFailure error a b c :: post ->
                post = [] /\ failures pre = [])).
  - intros i st _ [|? ?] error a b c post H; discriminate.
  - intros i st k st1 evs1 st2 evs2 _ E _ IH pre error a b c post H.
    apply async_retry_observed in E. destruct E as (_ & _ & _ & _ & _ & Hf & _).
    apply app_split in H. destruct H as [(post1 & H & _)|(pre2 & -> & H)].
    + exfalso. eapply no_failures_no_failure; [exact Hf|].
      rewrite H. apply in_app_iff. right. left. reflexivity.
    + destruct (IH _ _ _ _ _ _ H) as (-> & Hf2).
      rewrite failures_app, Hf, Hf2. auto.
  - intros i st error0 k st1 evs1 _ E _ pre error a b c post H.
    apply async_retry_observed in E. destruct E as (_ & _ & _ & _ & _ & Hf & _).
    apply app_split in H. destruct H as [(post1 & H & _)|(pre2 & -> & H)].
    + exfalso. eapply no_failures_no_failure; [exact Hf|].
      rewrite H. apply in_app_iff. right. left. reflexivity.
    + destruct pre2 as [|? [|? ?]]; try discriminate.
      injection H as _ _ _ _ <-. rewrite app_nil_r. auto.
  - intros i st error k st1 evs1 st2 evs2 _ _ Ha. congruence.
Qed.

End AsyncCoverage.

(** ** maxSigningAttempts at 1 or below *)

Section AsyncSingleAttempt.

Variable pk : PublicKey.
Variable sets : list InstructionSet.
Variable cfg : SmartInstructionSenderConfiguration.
Variable w : Async.World.

(** While no handler is running, an attempt starts none, and its re-sign
    notices are those of the rebuild after a confirmation. *)
Lemma async_attempt_without_handlers i rn tx st :
  Async.handlers st = [] ->
  let '(_, _, st', evs) := Async.attemptItem pk sets cfg w i rn tx st in
  Async.handlers st' = []
  /\ forall a index, In (EvReSign a index) evs -> a = 0.
Proof.
  intros Hh. unfold Async.attemptItem.
  destruct tx as [t|]; [|split; [exact Hh|intros a index []]].
  destruct (Async.serialize (Async.submission w i rn t)) as [u|m].
  2:{ split; [exact Hh|]. intros a index [H|[]]. discriminate. }
  rewrite async_deliver_nothing by exact Hh.
  assert (Hsub : forall a index, In (EvReSign a index) [EvSubmit i t] -> a = 0)
    by (intros a index [H|[]]; discriminate).
  destruct (Async.sendSignedTransaction (Async.submission w i rn t))
    as [[txid sl|e]|m].
  2:{ destruct (is_timeout (send_error e)
                && (Z.of_nat rn >=? maxSigningAttempts cfg)%Z);
        [|destruct (is_timeout (send_error e))]; auto. }
  2:{ auto. }
  unfold Async.confirmed.
  destruct (isExpired sl (slot (Async.vars st))).
  2:{ simpl. split; [exact Hh|]. intros a index [H|[H|[]]]; discriminate. }
  destruct (0 <? length (js_slice_from (signedTXs (Async.vars st)) (i + 1))).
  2:{ simpl. split; [exact Hh|]. intros a index [H|[H|[]]]; discriminate. }
  rewrite async_deliver_nothing by exact Hh.
  destruct (Async.refreshed w i rn) as [[ns nb]|m].
  2:{ simpl. split; [exact Hh|]. intros a index [H|[H|[H|[]]]]; discriminate. }
  cbn [Async.vars Async.handlers signedTXs].
  assert (He := async_rebuild_request_events pk sets (signedTXs (Async.vars st))
                  (i + 1) nb 0).
  destruct (Async.rebuild_request pk sets (signedTXs (Async.vars st)) (i + 1) nb 0)
    as [[r txs'] evs3].
  destruct r as [u'|m]; subst evs3.
  2:{ simpl. split; [exact Hh|].
      intros a index [H|[H|[H|[H|[]]]]]; try discriminate.
      injection H as <- _. reflexivity. }
  rewrite async_deliver_nothing by exact Hh.
  simpl. split; [exact Hh|].
  intros a index [H|[H|[H|[H|[H|[]]]]]]; try discriminate.
  injection H as <- _. reflexivity.
Qed.

Hypothesis single_attempt : (maxSigningAttempts cfg <= 1)%Z.

(** No timeout is thrown, so no handler is started and the slot is never
    polled. *)
Lemma async_retry_single_attempt i retries num rn errors tx st s k st' evs :
  Async.retry pk sets cfg w i retries num rn errors tx st = (s, k, st', evs) ->
  Async.handlers st = [] ->
  Async.handlers st' = []
  /\ polls evs = []
  /\ forall a index, In (EvReSign a index) evs -> a = 0.
Proof.
  revert retries num rn errors tx st s k st' evs.
  assert (Hatt : forall rn tx st r tx1 st1 evs1,
    Async.attemptItem pk sets cfg w i (S rn) tx st = (r, tx1, st1, evs1) ->
    Async.handlers st = [] ->
    Async.handlers st1 = [] /\ polls evs1 = []
    /\ (forall a index, In (EvReSign a index) evs1 -> a = 0)
    /\ (forall e, r = Async.Threw e -> is_timeout e = false)).
  { intros rn tx st r tx1 st1 evs1 Ea Hh.
    assert (H1 := @async_attempt_without_handlers i (S rn) tx st Hh).
    assert (H2 := async_attempt_observed pk sets cfg w i (S rn) tx st).
    assert (H3 := async_attempt_cases pk sets cfg w i (S rn) tx st).
    rewrite Ea in H1, H2, H3.
    destruct H1 as [G1 G2].
    destruct H2 as (_ & _ & _ & _ & _ & _ & G3 & _).
    splits; auto.
    intros e ->.
    destruct H3 as (_ & [(_ & _ & [[e' H]|(e' & H & _ & Hlt)])
                        |(_ & _ & [H|(m & H)])]);
      try discriminate.
    - lia.
    - injection H as ->. reflexivity. }
  apply (@async_retry_cases pk sets cfg w i
    (fun retries num rn errors tx st s k st' evs =>
       Async.handlers st = [] ->
       Async.handlers st' = []
       /\ polls evs = []
       /\ forall a index, In (EvReSign a index) evs -> a = 0)).
  - intros retries num rn errors tx st tx1 st1 evs1 Ea Hh.
    destruct (Hatt _ _ _ _ _ _ _ Ea Hh) as (H1 & H2 & H3 & _). auto.
  - intros retries num rn errors tx st e tx1 st1 evs1 Ea Hh.
    destruct (Hatt _ _ _ _ _ _ _ Ea Hh) as (H1 & H2 & H3 & _). auto.
  - intros num rn errors tx st e tx1 st1 evs1 Ea Hh.
    destruct (Hatt _ _ _ _ _ _ _ Ea Hh) as (H1 & H2 & H3 & _). auto.
  - intros retries num rn errors tx st e tx1 st1 evs1 st2 evs2 tx3 st3 evs3
      s k st4 evs4 Ea Eo Ed Er IH Hh.
    destruct (Hatt _ _ _ _ _ _ _ Ea Hh) as (H1 & H2 & H3 & H4).
    assert (Ho := async_onRetry_observed i e num st1). rewrite Eo in Ho.
    destruct Ho as (_ & _ & _ & _ & _ & _ & _ & Ho).
    destruct (Ho (H4 e eq_refl)) as [-> ->].
    rewrite async_deliver_nothing in Ed by exact H1.
    injection Ed as <- <- <-.
    destruct (IH H1) as (I1 & I2 & I3).
    rewrite !polls_app, H2, I2. splits; auto.
    intros a index Hin. simpl in Hin. apply in_app_or in Hin.
    destruct Hin as [Hin|Hin]; eauto.
Qed.

Lemma async_send_loop_single_attempt fuel i st o st' evs :
  Async.send_loop pk sets cfg w fuel i st = (o, st', evs) ->
  o <> OutOfFuel ->
  Async.handlers st = [] ->
  Async.handlers st' = []
  /\ polls evs = []
  /\ forall a index, In (EvReSign a index) evs -> a = 0.
Proof.
  revert fuel i st o st' evs.
  apply (@async_send_loop_cases pk sets cfg w
    (fun i st st' evs =>
       Async.handlers st = [] ->
       Async.handlers st' = []
       /\ polls evs = []
       /\ forall a index, In (EvReSign a index) evs -> a = 0)).
  - intros i st _ Hh. splits; auto. intros a index [].
  - intros i st k st1 evs1 st2 evs2 _ E _ IH Hh.
    apply async_retry_single_attempt in E; [|exact Hh].
    destruct E as (H1 & H2 & H3). destruct (IH H1) as (I1 & I2 & I3).
    rewrite polls_app, H2, I2. splits; auto.
    intros a index Hin. apply in_app_or in Hin. destruct Hin; eauto.
  - intros i st error k st1 evs1 _ E _ Hh.
    apply async_retry_single_attempt in E; [|exact Hh].
    destruct E as (H1 & H2 & H3).
    rewrite polls_app, H2. splits; auto.
    intros a index Hin. apply in_app_or in Hin.
    destruct Hin as [Hin|[Hin|[]]]; [eauto|discriminate].
  - intros i st error k st1 evs1 st2 evs2 _ E _ _ IH Hh.
    apply async_retry_single_attempt in E; [|exact Hh].
    destruct E as (H1 & H2 & H3). destruct (IH H1) as (I1 & I2 & I3).
    rewrite !polls_app, H2, I2. splits; auto.
    intros a index Hin. apply in_app_or in Hin.
    destruct Hin as [Hin|[Hin|Hin]]; [eauto|discriminate|eauto].
Qed.

End AsyncSingleAttempt.

(** ** Every run of [send] at the level of the event loop *)

(** [send] is rejected before the loop, having made at most the first
    read and the first request, or it is the run of the loop. *)
Lemma async_send_cases s w :
  (exists e evs0,
      Async.send s w = (Raised e, evs0)
      /\ Forall (fun e => rebuilding e = true) evs0
      /\ resigns evs0 = [])
  \/ (exists pk sets slot0 block0 st' evs,
         wallet_publicKey s = Some pk
         /\ sender_instructionSets s = Some sets
         /\ Async.send_loop pk sets (sender_configuration s) w (length sets) 0
              (Async.initial_task pk sets slot0 block0) = (Resolved, st', evs)
         /\ Async.send s w
            = (Resolved,
               [EvGetSlotAndBlockhash; EvSignAll (Async.unsignedTXs pk sets block0)]
               ++ evs)).
Proof.
  destruct (wallet_publicKey s) as [pk|] eqn:Hw.
  2:{ left. exists WALLET_NOT_CONNECTED, []. unfold Async.send. rewrite Hw.
      splits; [reflexivity|constructor|reflexivity]. }
  destruct (sender_instructionSets s) as [sets|] eqn:Hs.
  2:{ left. exists NO_INSTRUCTION_SETS, []. unfold Async.send. rewrite Hw, Hs.
      splits; [reflexivity|constructor|reflexivity]. }
  destruct sets as [|s0 sets'].
  { left. exists NO_INSTRUCTION_SETS, []. unfold Async.send. rewrite Hw, Hs.
    splits; [reflexivity|constructor|reflexivity]. }
  destruct (Async.firstRefresh w) as [[slot0 block0]|m] eqn:Hf.
  2:{ left. exists (js_error m), [EvGetSlotAndBlockhash].
      unfold Async.send, Async.send_body. rewrite Hw, Hs, Hf.
      splits; [reflexivity|repeat constructor|reflexivity]. }
  destruct (Async.firstSignature w) as [u|m] eqn:Hg.
  2:{ left. exists (js_error m). eexists.
      unfold Async.send, Async.send_body. rewrite Hw, Hs, Hf, Hg.
      splits; [reflexivity|repeat constructor|reflexivity]. }
  right.
  assert (Hne : s0 :: sets' <> []) by discriminate.
  destruct (async_send_runs_the_loop s w Hw Hs Hne Hf Hg) as (st' & evs & E & H).
  exists pk, (s0 :: sets'), slot0, block0, st', evs. auto.
Qed.

(** X4. In every run of [send], whatever the outside answers and whenever
    its answers arrive, no index is handed to [sendSignedTransaction] more
    than maxSigningAttempts + 1 times: the library grants maxSigningAttempts
    retries after the first attempt. *)
Theorem submissions_are_bounded_by_the_retries s w j :
  length (submitted_at j (snd (Async.send s w)))
  <= S (Z.to_nat (maxSigningAttempts (sender_configuration s))).
Proof.
  destruct (async_send_cases s w)
    as [(e & evs0 & -> & H0 & Hr0)|(pk & sets & slot0 & block0 & st' & evs & _ & _ & E & ->)].
  - destruct (rebuilding_observed H0) as (_ & _ & _ & H & _).
    simpl. rewrite H. simpl. lia.
  - simpl. eapply async_send_loop_attempts; [exact E|discriminate].
Qed.

(** X6. The indices of the progress calls of a run never go down, and
    every progress call is for an index one of whose submissions
    [sendSignedTransaction] reported as sent, with the transaction id of
    that report. *)
Theorem progress_follows_a_confirmation s w :
  StronglySorted le (progress_indices (snd (Async.send s w)))
  /\ forall j txid, In (EvProgress j txid) (snd (Async.send s w)) ->
       exists n t sl,
         In (EvSubmit j t) (snd (Async.send s w))
         /\ Async.sendSignedTransaction (Async.submission w j n t)
            = Returns (sent txid sl).
Proof.
  destruct (async_send_cases s w)
    as [(e & evs0 & -> & H0 & Hr0)|(pk & sets & slot0 & block0 & st' & evs & _ & _ & E & ->)].
  - destruct (rebuilding_observed H0) as (H1 & _ & _ & _ & _ & H2 & _).
    simpl. rewrite H1. split; [constructor|].
    intros j txid Hin. elim (H2 _ _ Hin).
  - simpl snd. split.
    + simpl. eapply async_send_loop_progress_sorted; [exact E|discriminate].
    + intros j txid [H|[H|H]]; try discriminate.
      assert (P := E). eapply async_send_loop_progress_is_confirmed in P;
        [|discriminate|exact H].
      destruct P as (n & t & sl & H1 & H2).
      exists n, t, sl. split; [right; right; exact H1|exact H2].
Qed.

(** X7. At every call of the failure callback in a run, the third
    argument is the number of progress calls made before it, the fourth is
    the instruction set at position (that number - 1) of the batch,
    undefined when the number is 0, and the second, the loop index, is at
    most the number of progress and failure calls made before it. *)
Theorem failure_arguments_count_progress s w sets pre error a b c post :
  sender_instructionSets s = Some sets ->
  snd (Async.send s w) = pre ++ EvFailure error a b c :: post ->
  b = length (progress_indices pre)
  /\ c = js_index sets (Z.of_nat b - 1)
  /\ a <= length (progress_indices pre) + length (failures pre).
Proof.
  intros Hs.
  destruct (async_send_cases s w)
    as [(e & evs0 & -> & H0 & Hr0)
       |(pk & sets' & slot0 & block0 & st' & evs & _ & Hs' & E & ->)].
  - simpl. intros H. exfalso.
    destruct (rebuilding_observed H0) as (_ & Hf & _).
    eapply no_failures_no_failure; [exact Hf|].
    rewrite H. apply in_or_app. right. left. reflexivity.
  - rewrite Hs in Hs'. injection Hs' as <-.
    simpl snd. intros H.
    destruct pre as [|e1 [|e2 pre]]; try discriminate.
    simpl in H. injection H as <- <- H.
    assert (P := E). eapply async_send_loop_failure_arguments in P;
      [|discriminate|exact H].
    simpl in P. destruct P as (Hb & Hc & Ha). simpl. splits; auto. lia.
Qed.

(** X8. With abortOnFailure a call of the failure callback is the last
    thing a run does, and no failure call comes before it. *)
Theorem first_failure_ends_the_run s w pre error a b c post :
  abortOnFailure (sender_configuration s) = true ->
  snd (Async.send s w) = pre ++ EvFailure error a b c :: post ->
  post = [] /\ failures pre = [].
Proof.
  intros Hab.
  destruct (async_send_cases s w)
    as [(e & evs0 & -> & H0 & Hr0)|(pk & sets & slot0 & block0 & st' & evs & _ & _ & E & ->)].
  - simpl. intros H. exfalso.
    destruct (rebuilding_observed H0) as (_ & Hf & _).
    eapply no_failures_no_failure; [exact Hf|].
    rewrite H. apply in_or_app. right. left. reflexivity.
  - simpl snd. intros H.
    destruct pre as [|e1 [|e2 pre]]; try discriminate.
    simpl in H. injection H as <- <- H.
    assert (P := E). eapply async_send_loop_failure_ends_run in P;
      [|discriminate|exact Hab|exact H].
    destruct P as (-> & Hf). split; [reflexivity|exact Hf].
Qed.

(** X12. With maxSigningAttempts at 1 or below no timeout is thrown to the
    library: the retry handler never polls the slot, and every re-sign
    notice is the one of a rebuild after a confirmation, with attempt
    number 0. *)
Theorem single_attempt_never_polls s w :
  (maxSigningAttempts (sender_configuration s) <= 1)%Z ->
  polls (snd (Async.send s w)) = []
  /\ forall attempt index,
       In (EvReSign attempt index) (snd (Async.send s w)) -> attempt = 0.
Proof.
  intros Hm.
  destruct (async_send_cases s w)
    as [(e & evs0 & -> & H0 & Hr0)|(pk & sets & slot0 & block0 & st' & evs & _ & _ & E & ->)].
  - simpl. destruct (rebuilding_observed H0) as (_ & _ & Hp & _).
    split; [exact Hp|].
    intros attempt index Hin. exfalso.
    assert (Hin' : In (EvReSign attempt index) (resigns evs0))
      by (apply filter_In; split; [exact Hin|reflexivity]).
    rewrite Hr0 in Hin'. destruct Hin'.
  - simpl snd.
    assert (P := E). eapply async_send_loop_single_attempt in P;
      [|exact Hm|discriminate|reflexivity].
    destruct P as (_ & Hp & Hr). split; [exact Hp|].
    intros attempt index [H|[H|H]]; try discriminate. eauto.
Qed.

Lemma failure_arguments_count_progress_witness :
  snd (Async.send (sender 1 true [setA; setE; setB]) (orderly ledger_racing))
  = [EvGetSlotAndBlockhash; EvSignAll [Some envA; Some envB];
     EvSubmit 0 envA; EvProgress 0 "sig"; EvGetSlotAndBlockhash; EvReSign 0 1;
     EvSubmit 0 envA; EvProgress 0 "sig"; EvGetSlotAndBlockhash; EvReSign 0 1]
    ++ EvFailure (js_error "No instructions") 0 2 (Some setE) :: []
  /\ 2 = length (progress_indices
                   [EvGetSlotAndBlockhash; EvSignAll [Some envA; Some envB];
                    EvSubmit 0 envA; EvProgress 0 "sig"; EvGetSlotAndBlockhash;
                    EvReSign 0 1; EvSubmit 0 envA; EvProgress 0 "sig";
                    EvGetSlotAndBlockhash; EvReSign 0 1])
  /\ Some setE = js_index [setA; setE; setB] (Z.of_nat 2 - 1)
  /\ 0 <= length (progress_indices
                    [EvGetSlotAndBlockhash; EvSignAll [Some envA; Some envB];
                     EvSubmit 0 envA; EvProgress 0 "sig"; EvGetSlotAndBlockhash;
                     EvReSign 0 1; EvSubmit 0 envA; EvProgress 0 "sig";
                     EvGetSlotAndBlockhash; EvReSign 0 1])
          + length (failures
                    [EvGetSlotAndBlockhash; EvSignAll [Some envA; Some envB];
                     EvSubmit 0 envA; EvProgress 0 "sig"; EvGetSlotAndBlockhash;
                     EvReSign 0 1; EvSubmit 0 envA; EvProgress 0 "sig";
                     EvGetSlotAndBlockhash; EvReSign 0 1]).
Proof.
  assert (H : snd (Async.send (sender 1 true [setA; setE; setB])
                     (orderly ledger_racing))
              = [EvGetSlotAndBlockhash; EvSignAll [Some envA; Some envB];
                 EvSubmit 0 envA; EvProgress 0 "sig"; EvGetSlotAndBlockhash;
                 EvReSign 0 1; EvSubmit 0 envA; EvProgress 0 "sig";
                 EvGetSlotAndBlockhash; EvReSign 0 1]
                ++ EvFailure (js_error "No instructions") 0 2 (Some setE) :: [])
    by reflexivity.
  split; [exact H|].
  exact (@failure_arguments_count_progress
           (sender 1 true [setA; setE; setB]) (orderly ledger_racing)
           [setA; setE; setB] _ _ _ _ _ _ eq_refl H).
Defined.

Lemma first_failure_ends_the_run_witness :
  snd (Async.send (sender 3 true [setA; setB]) (orderly ledger_rejecting))
  = [EvGetSlotAndBlockhash; EvSignAll [Some envA; Some envB]; EvSubmit 0 envA]
    ++ EvFailure (send_error (tx_error "InstructionError" "sig")) 0 0 None :: []
  /\ [] = @nil Event
  /\ failures [EvGetSlotAndBlockhash; EvSignAll [Some envA; Some envB];
               EvSubmit 0 envA] = [].
Proof.
  assert (H : snd (Async.send (sender 3 true [setA; setB]) (orderly ledger_rejecting))
              = [EvGetSlotAndBlockhash; EvSignAll [Some envA; Some envB];
                 EvSubmit 0 envA]
                ++ EvFailure (send_error (tx_error "InstructionError" "sig")) 0 0 None
                   :: [])
    by reflexivity.
  split; [exact H|].
  exact (@first_failure_ends_the_run
           (sender 3 true [setA; setB]) (orderly ledger_rejecting)
           _ _ _ _ _ _ eq_refl H).
Defined.

Lemma single_attempt_never_polls_witness :
  polls (snd (Async.send (sender 1 false [setA; setB]) (orderly ledger_stuck))) = []
  /\ forall attempt index,
       In (EvReSign attempt index)
          (snd (Async.send (sender 1 false [setA; setB]) (orderly ledger_stuck))) ->
       attempt = 0.
Proof.
  apply (single_attempt_never_polls (sender 1 false [setA; setB])
           (orderly ledger_stuck)).
  simpl. lia.
Defined.

(** * The two levels agree on orderly worlds *)

(** When all the errors the library has recorded are error objects of
    [connectionTools], which carry no message, [mainError] is the latest of
    them. *)
Lemma mainError_from_latest counts best bestCount : forall errors e,
  Forall (fun x => Async.message_of x = "undefined") (errors ++ [e]) ->
  bestCount <= counts "undefined" ->
  Async.mainError_from counts best bestCount (errors ++ [e]) = Some e.
Proof.
  intros errors. revert counts best bestCount.
  induction errors as [|x errors IH]; intros counts best bestCount e Hall Hc;
    simpl in *; inversion Hall as [|? ? Hx Hrest]; subst.
  - rewrite Hx. destruct (Nat.leb_spec bestCount (S (counts "undefined")));
      [reflexivity|lia].
  - rewrite Hx. destruct (Nat.leb_spec bestCount (S (counts "undefined"))); [|lia].
    apply IH; [exact Hrest|]. simpl. lia.
Qed.

Lemma mainError_of_timeouts errors e :
  Forall (fun x => is_timeout x = true) (errors ++ [e]) ->
  Async.mainError (errors ++ [e]) = Some e.
Proof.
  intros H. apply mainError_from_latest; [|lia].
  eapply Forall_impl; [|exact H]. intros x Hx.
  destruct x as [[| |]|]; try discriminate; reflexivity.
Qed.

Lemma wire_sendSignedTransaction c :
  Async.sendSignedTransaction (wire c) = sendSignedTransaction c.
Proof. reflexivity. Qed.

Section Agreement.

Variable pk : PublicKey.
Variable sets : list InstructionSet.
Variable cfg : SmartInstructionSenderConfiguration.
Variable ledger : Ledger.

Hypothesis sets_have_instructions : Forall has_instructions sets.

Lemma orderly_confirmed i rn txid sl tx v :
  Async.confirmed pk sets (orderly ledger) i rn txid sl tx (idle v)
  = (Async.Completed, tx, idle (fst (confirmed pk sets ledger i rn txid sl v)),
     snd (confirmed pk sets ledger i rn txid sl v)).
Proof.
  unfold Async.confirmed, confirmed, idle. cbn [Async.vars Async.handlers].
  destruct (isExpired sl (slot v)); [|reflexivity].
  destruct (0 <? length (js_slice_from (signedTXs v) (i + 1))); [|reflexivity].
  rewrite async_deliver_nothing by reflexivity.
  cbn [orderly Async.refreshed Async.signature Async.vars Async.handlers signedTXs].
  destruct (refreshed ledger i rn) as [newSlot newCurrentBlock].
  rewrite (async_rebuild_request_total pk sets_have_instructions).
  rewrite async_deliver_nothing by reflexivity.
  unfold signAndRebuildTransactionsFromInstructionSets. simpl.
  reflexivity.
Qed.

Lemma orderly_attempt i rn tx v :
  Async.attemptItem pk sets cfg (orderly ledger) i rn tx (idle v)
  = match submit ledger i rn tx with
    | (inr e, sent_evs) =>
        if is_timeout e && (Z.of_nat rn >=? maxSigningAttempts cfg)%Z
        then (Async.Bailed MAX_RESIGN_ATTEMPTS_REACHED, tx, idle v, sent_evs)
        else if is_timeout e
        then (Async.Threw e, tx, idle v, sent_evs)
        else (Async.Bailed e, tx, idle v, sent_evs)
    | (inl (txid, sl), sent_evs) =>
        (Async.Completed, tx,
         idle (fst (confirmed pk sets ledger i rn txid sl v)),
         sent_evs ++ snd (confirmed pk sets ledger i rn txid sl v))
    end.
Proof.
  unfold Async.attemptItem, submit.
  destruct tx as [t|]; [|reflexivity].
  change (Async.submission (orderly ledger) i rn t)
    with (wire (submission ledger i rn t)).
  rewrite wire_sendSignedTransaction.
  cbn [wire Async.serialize].
  rewrite async_deliver_nothing by reflexivity.
  destruct (sendSignedTransaction (submission ledger i rn t)) as [[txid sl|e]|m].
  - fold (idle v). rewrite orderly_confirmed. reflexivity.
  - destruct (is_timeout (send_error e)
              && (Z.of_nat rn >=? maxSigningAttempts cfg)%Z); [reflexivity|].
    destruct (is_timeout (send_error e)); reflexivity.
  - reflexivity.
Qed.

Lemma async_deliver_head w current ks tx v h rest :
  Async.deliver pk sets w current (0 :: ks) tx
    {| Async.vars := v; Async.handlers := h :: rest |}
  = let '(h', tx', v', evs) := Async.resume pk sets w current h tx v in
    let '(tx'', st'', evs') :=
      Async.deliver pk sets w current ks tx'
        {| Async.vars := v';
           Async.handlers := match h' with
                             | Some x => [x]
                             | None => []
                             end ++ rest |} in
    (tx'', st'', evs ++ evs').
Proof. reflexivity. Qed.

(** The handler of a timeout whose answers all arrive while [send] waits
    for the timer does what the handler of the first part does. *)
Lemma orderly_handler i e num tx v :
  is_timeout e = true ->
  Async.deliver pk sets (orderly ledger) i [0; 0; 0] tx
    (fst (Async.onRetry i e num (idle v)))
  = (fst (fst (onRetry pk sets ledger i e num tx v)),
     idle (snd (fst (onRetry pk sets ledger i e num tx v))),
     tl (snd (onRetry pk sets ledger i e num tx v)))
  /\ snd (Async.onRetry i e num (idle v)) = [EvGetSlot]
  /\ hd_error (snd (onRetry pk sets ledger i e num tx v)) = Some EvGetSlot.
Proof.
  intros Ht. unfold Async.onRetry, onRetry. rewrite Ht.
  unfold idle. cbn [fst snd Async.vars Async.handlers app].
  rewrite async_deliver_head.
  assert (R1 :
    Async.resume pk sets (orderly ledger) i
      {| Async.item := i; Async.attempt := num; Async.stage := Async.AwaitSlot |}
      tx v
    = if isExpired (polledSlot ledger i num) (slot v)
      then (Some {| Async.item := i; Async.attempt := num;
                    Async.stage := Async.AwaitRefresh |},
            tx, v, [EvGetSlotAndBlockhash])
      else (None, tx, v, [])) by reflexivity.
  rewrite R1. clear R1.
  destruct (isExpired (polledSlot ledger i num) (slot v)).
  2:{ cbn [app]. rewrite async_deliver_nothing by reflexivity.
      cbn [fst snd tl hd_error]. auto. }
  cbn [app]. rewrite async_deliver_head.
  assert (R2 :
    Async.resume pk sets (orderly ledger) i
      {| Async.item := i; Async.attempt := num; Async.stage := Async.AwaitRefresh |}
      tx v
    = let '(newSlot, newCurrentBlock) := refreshed ledger i num in
      let '(r, txs', evs) :=
        Async.rebuild_request pk sets (signedTXs v) i newCurrentBlock num in
      let v' := {| slot := newSlot; currentBlock := newCurrentBlock;
                   signedTXs := txs';
                   successfulItems := successfulItems v |} in
      match r with
      | Throws _ => (None, tx, v', evs)
      | Returns _ =>
          (Some {| Async.item := i; Async.attempt := num;
                   Async.stage := Async.AwaitSignature |},
           tx, v', evs)
      end) by reflexivity.
  rewrite R2. clear R2.
  destruct (refreshed ledger i num) as [newSlot newCurrentBlock].
  rewrite (async_rebuild_request_total pk sets_have_instructions).
  cbn [app]. rewrite async_deliver_head.
  assert (R3 : forall v',
    Async.resume pk sets (orderly ledger) i
      {| Async.item := i; Async.attempt := num;
         Async.stage := Async.AwaitSignature |}
      tx v'
    = (None, if i =? i then Async.rebuild_result (signedTXs v') i else tx, v', []))
    by reflexivity.
  rewrite R3, Nat.eqb_refl. clear R3.
  cbn [app]. rewrite async_deliver_nothing by reflexivity.
  unfold signAndRebuildTransactionsFromInstructionSets, Async.rebuild_result.
  cbn [fst snd tl hd_error signedTXs app]. auto.
Qed.

Lemma orderly_retry i : forall retries num rn errors tx v,
  Forall (fun x => is_timeout x = true) errors ->
  Async.retry pk sets cfg (orderly ledger) i retries num rn errors tx (idle v)
  = let '(s, k, v', evs) := retry pk sets cfg ledger i retries num rn tx v in
    (s, k, idle v', evs).
Proof.
  induction retries as [|retries IH]; intros num rn errors tx v Herr;
    rewrite async_retry_eq, retry_eq; cbv zeta; rewrite orderly_attempt;
    destruct (submit ledger i (S rn) tx) as [[[txid sl]|e] sent_evs].
  1,3: destruct (confirmed pk sets ledger i (S rn) txid sl v) as [v1 evs1];
       reflexivity.
  - destruct (is_timeout e) eqn:Et;
      destruct (Z.of_nat (S rn) >=? maxSigningAttempts cfg)%Z;
      cbn [andb]; cbv iota; try reflexivity.
    rewrite mainError_of_timeouts; [reflexivity|].
    apply Forall_app. split; [exact Herr|]. constructor; [exact Et|constructor].
  - destruct (is_timeout e) eqn:Et;
      destruct (Z.of_nat (S rn) >=? maxSigningAttempts cfg)%Z;
      cbn [andb]; cbv iota; try reflexivity.
    destruct (@orderly_handler i e num tx v Et) as (Hd & Ho & Hhd).
    destruct (Async.onRetry i e num (idle v)) as [st2 evs2].
    cbn [fst snd] in Hd, Ho. subst evs2.
    cbn [orderly Async.arrivals]. rewrite Hd.
    destruct (onRetry pk sets ledger i e num tx v) as [[tx' v'] evs].
    cbn [fst snd] in *.
    rewrite IH.
    2:{ apply Forall_app. split; [exact Herr|]. constructor; [exact Et|constructor]. }
    destruct (retry pk sets cfg ledger i retries (S num) (S rn) tx' v')
      as [[[s k] v''] evs'].
    destruct evs as [|e0 evs]; [discriminate|]. injection Hhd as ->.
    reflexivity.
Qed.

Lemma orderly_send_loop : forall fuel i v,
  Async.send_loop pk sets cfg (orderly ledger) fuel i (idle v)
  = let '(o, v', evs) := send_loop pk sets cfg ledger fuel i v in
    (o, idle v', evs).
Proof.
  induction fuel as [|fuel IH]; intros i v.
  - simpl. destruct (i <? length (signedTXs v)); reflexivity.
  - destruct (le_lt_dec (length (signedTXs v)) i) as [Hd|Hlt].
    { rewrite async_send_loop_done, send_loop_done by exact Hd. reflexivity. }
    rewrite async_send_loop_step, send_loop_step by exact Hlt.
    cbn [idle Async.vars]. fold (idle v).
    rewrite orderly_retry by constructor.
    destruct (retry pk sets cfg ledger i (Z.to_nat (maxSigningAttempts cfg)) 1 0
                (js_get (signedTXs v) i) v) as [[[s k] v1] evs1].
    destruct s as [|error].
    + rewrite IH.
      destruct (send_loop pk sets cfg ledger fuel (S i) v1) as [[o v2] evs2].
      reflexivity.
    + unfold Async.onFailure, onFailure. cbn [idle Async.vars].
      destruct (abortOnFailure cfg); [reflexivity|].
      fold (idle v1). rewrite IH.
      destruct (send_loop pk sets cfg ledger fuel (S i) v1) as [[o v2] evs2].
      reflexivity.
Qed.

End Agreement.

(** X17. On a batch whose instruction sets all have instructions, and in
    the world of a ledger of the first part (every read and every request
    is answered, and what a retry handler waits for arrives before the
    library starts the next attempt), the event loop does exactly what the
    sequential reading of [send] does: same outcome, same calls and
    callbacks in the same order. *)
Theorem orderly_runs_agree s ledger :
  (forall sets, sender_instructionSets s = Some sets ->
                Forall has_instructions sets) ->
  Async.send s (orderly ledger) = send s ledger.
Proof.
  intros Hall. unfold Async.send, send.
  destruct (wallet_publicKey s) as [pk|]; [|reflexivity].
  destruct (sender_instructionSets s) as [[|s0 sets]|] eqn:Hs; try reflexivity.
  specialize (Hall _ eq_refl).
  unfold Async.send_body, send_body.
  cbn [orderly Async.firstRefresh Async.firstSignature].
  destruct (baseline0 ledger) as [slot0 block0] eqn:Hb.
  assert (Hinit : Async.initial_task pk (s0 :: sets) slot0 block0
                  = {| Async.vars := initial_run pk (s0 :: sets) ledger;
                       Async.handlers := [] |}).
  { unfold Async.initial_task, initial_run, Async.unsignedTXs, unsignedTXs.
    rewrite Hb, map_map. reflexivity. }
  rewrite Hinit.
  change {| Async.vars := initial_run pk (s0 :: sets) ledger; Async.handlers := [] |}
    with (idle (initial_run pk (s0 :: sets) ledger)).
  rewrite (@orderly_send_loop pk (s0 :: sets) (sender_configuration s) ledger Hall).
  destruct (send_loop pk (s0 :: sets) (sender_configuration s) ledger
              (length (s0 :: sets)) 0
              (initial_run pk (s0 :: sets) ledger)) as [[o v'] evs].
  f_equal. f_equal. f_equal.
  unfold Async.unsignedTXs, initial_run, unsignedTXs. rewrite Hb, map_map.
  reflexivity.
Qed.

Lemma orderly_runs_agree_witness :
  Async.send (sender 3 true [setA; setB]) (orderly ledger_late)
  = send (sender 3 true [setA; setB]) ledger_late.
Proof.
  apply (orderly_runs_agree (sender 3 true [setA; setB]) ledger_late).
  intros sets H. injection H as <-. repeat constructor; discriminate.
Defined.
